(** * dontbug: the engine core of [engine/base.go]

    A shallow embedding of the DBGp bridge's codec and execution control:
    [parseGdbStringResponse], [unquoteGdbStringResult], [parseCommand],
    [xGdbCmdValue], [continueExecution] and [constructDbgpPacket], with the
    parts of Go's [strings], [strconv], [unicode] and [unicode/utf8] packages
    they call; and, further down, the noisy wrappers [sendGdbCommandNoisy]
    and [makeNoisy] and the checks of the executables, [findExec],
    [getPathAndVersionLineOrFatal], [checkPhpExecutable], [CheckRRExecutable]
    and [CheckGdbExecutable], over a host and a library of versions that are
    given.

    A Go [string] is a sequence of bytes; it is modelled as a Rocq [string]
    (a list of 8-bit [ascii]).  Go's [int] is 64 bits wide; lengths and indices
    are bounded by the size of the string they measure, so they are kept in
    [nat], and integers that come from outside ([strconv.Atoi]) are in [Z]
    with the 64-bit range check written out. *)

From stdpp Require Import base gmap strings list.
From Stdlib Require Import ZArith Lia Ascii.
From Stdlib Require String.

(** ** Go values: errors, panics and the ways a call can end *)

(** The [error] values this file creates: [errors.New] and the [*NumError]
    of [strconv]. *)
Inductive error : Type :=
| errorString (s : string)
| NumError (Func Num : string).

(** What a panic carries.  The run-time panics are those of an index or a
    slice bound out of range and of a failed type assertion; [panicIf] and
    [panicWith] wrap their argument (the stack trace they add is left out). *)
Inductive panicValue : Type :=
| IndexOutOfRange
| SliceBoundsOutOfRange
| InterfaceConversion
| PanicIf (err : error)
| PanicWith (errStr : string).

(** A call returns, panics, ends the process ([log.Fatalf]) or blocks for
    ever on a channel nobody sends on. *)
Inductive outcome (A : Type) : Type :=
| Ret (a : A)
| Panic (v : panicValue)
| Fatal (err : error)
| Blocked.
Arguments Ret {A} a.
Arguments Panic {A} v.
Arguments Fatal {A} err.
Arguments Blocked {A}.

#[global] Instance outcome_bind : MBind outcome := λ A B f m,
  match m with
  | Ret a => f a
  | Panic v => Panic v
  | Fatal e => Fatal e
  | Blocked => Blocked
  end.
#[global] Instance outcome_ret : MRet outcome := λ A a, Ret a.

Definition panics {A} (o : outcome A) : Prop := ∃ v, o = Panic v.
Definition returns {A} (o : outcome A) : Prop := ∃ a, o = Ret a.

(** ** Bytes and strings *)

Definition byteZ (b : ascii) : Z := Z.of_N (N_of_ascii b).
Definition byteOf (n : Z) : ascii := ascii_of_N (Z.to_N (n mod 256)).

Definition quoteByte : ascii := "034"%char.
Definition backslashByte : ascii := "092"%char.
Definition nulByte : ascii := "000"%char.
Definition newlineByte : ascii := "010"%char.
Definition minusByte : ascii := "-"%char.
Definition plusByte : ascii := "+"%char.

Definition str1 (b : ascii) : string := String b EmptyString.

(** [len(s)] *)
Definition len (s : string) : nat := String.length s.

Fixpoint sdrop (n : nat) (s : string) : string :=
  match n, s with
  | S n', String _ s' => sdrop n' s'
  | _, _ => s
  end.

Fixpoint stake (n : nat) (s : string) : string :=
  match n, s with
  | S n', String b s' => String b (stake n' s')
  | _, _ => EmptyString
  end.

(** [s[i]]: an index out of range panics. *)
Definition byteAt (s : string) (i : nat) : outcome ascii :=
  match String.get i s with
  | Some b => Ret b
  | None => Panic IndexOutOfRange
  end.

(** [s[i:]] and [s[i:j]]: bounds out of range panic. *)
Definition sliceFrom (s : string) (i : nat) : outcome string :=
  if decide (i ≤ len s) then Ret (sdrop i s) else Panic SliceBoundsOutOfRange.

Definition slice (s : string) (i j : Z) : outcome string :=
  if decide (0 ≤ i ≤ j ∧ j ≤ Z.of_nat (len s))%Z
  then Ret (stake (Z.to_nat (j - i)) (sdrop (Z.to_nat i) s))
  else Panic SliceBoundsOutOfRange.

(** [a[i]] and [a[i:]] on a slice of strings. *)
Definition elemAt (a : list string) (i : nat) : outcome string :=
  match a !! i with
  | Some x => Ret x
  | None => Panic IndexOutOfRange
  end.

Definition elemsFrom (a : list string) (i : nat) : outcome (list string) :=
  if decide (i ≤ length a) then Ret (drop i a) else Panic SliceBoundsOutOfRange.

(** ** [strconv] *)
Module Strconv.

Definition maxInt : Z := 2 ^ 63 - 1.
Definition minInt : Z := - 2 ^ 63.

Definition digitByte (d : Z) : ascii := byteOf (48 + d).

(** The decimal digits of a non-negative [u], most significant first, put
    in front of [acc]. *)
Fixpoint formatBits (fuel : nat) (u : Z) (acc : string) : string :=
  let acc' := String (digitByte (u mod 10)) acc in
  match fuel with
  | O => acc'
  | S fuel' => if (u <? 10)%Z then acc' else formatBits fuel' (u / 10) acc'
  end.

Definition FormatUint (u : Z) : string :=
  formatBits (Z.to_nat (Z.log2 u)) u EmptyString.

(** [strconv.Itoa] *)
Definition Itoa (i : Z) : string :=
  if (i <? 0)%Z then String minusByte (FormatUint (- i)) else FormatUint i.

(** The digit loop of [Atoi]: [ch -= '0'] is byte arithmetic, so a byte
    below ['0'] wraps around to a value above 9. *)
Fixpoint parseDigits (n : Z) (s : string) : option Z :=
  match s with
  | EmptyString => Some n
  | String ch s' =>
      let d := ((byteZ ch - 48) mod 256)%Z in
      if (9 <? d)%Z then None else parseDigits (n * 10 + d) s'
  end.

(** [strconv.Atoi]: an optional sign and decimal digits, at least one; the
    value has to fit Go's 64-bit [int]. *)
Definition Atoi (s : string) : Z + error :=
  match s with
  | EmptyString => inr (NumError "Atoi" s)
  | String s0 rest =>
      let digits :=
        if decide (s0 = minusByte ∨ s0 = plusByte) then rest else s in
      match digits with
      | EmptyString => inr (NumError "Atoi" s)
      | _ =>
          match parseDigits 0 digits with
          | None => inr (NumError "Atoi" s)
          | Some n =>
              let v := if decide (s0 = minusByte) then (- n)%Z else n in
              if decide (minInt ≤ v ≤ maxInt)%Z then inl v
              else inr (NumError "Atoi" s)
          end
      end
  end.

End Strconv.

(** ** [unicode/utf8] *)
Module Utf8.

Definition RuneError : Z := 0xFFFD.
Definition RuneSelf : Z := 0x80.
Definition MaxRune : Z := 0x10FFFF.
Definition UTFMax : Z := 4.

Definition surrogateMin : Z := 0xD800.
Definition surrogateMax : Z := 0xDFFF.

Definition tx : Z := 0x80.
Definition t2 : Z := 0xC0.
Definition t3 : Z := 0xE0.
Definition t4 : Z := 0xF0.
Definition maskx : Z := 0x3F.
Definition mask2 : Z := 0x1F.
Definition mask3 : Z := 0x0F.
Definition mask4 : Z := 0x07.
Definition rune1Max : Z := 0x7F.
Definition rune2Max : Z := 0x7FF.
Definition rune3Max : Z := 0xFFFF.

Definition locb : Z := 0x80.
Definition hicb : Z := 0xBF.

(** The entries of the table [first]: the low three bits are the size of
    the encoding, the high four bits index [acceptRanges]. *)
Definition xx : Z := 0xF1.
Definition as_ : Z := 0xF0.
Definition s1 : Z := 0x02.
Definition s2 : Z := 0x13.
Definition s3 : Z := 0x03.
Definition s4 : Z := 0x23.
Definition s5 : Z := 0x34.
Definition s6 : Z := 0x04.
Definition s7 : Z := 0x44.

Definition first (b : Z) : Z :=
  if (b <? 0x80)%Z then as_
  else if (b <? 0xC2)%Z then xx
  else if (b <? 0xE0)%Z then s1
  else if (b =? 0xE0)%Z then s2
  else if (b <? 0xED)%Z then s3
  else if (b =? 0xED)%Z then s4
  else if (b <? 0xF0)%Z then s3
  else if (b =? 0xF0)%Z then s5
  else if (b <? 0xF4)%Z then s6
  else if (b =? 0xF4)%Z then s7
  else xx.

Definition acceptRanges (k : Z) : Z * Z :=
  if (k =? 0)%Z then (locb, hicb)
  else if (k =? 1)%Z then (0xA0%Z, hicb)
  else if (k =? 2)%Z then (locb, 0x9F%Z)
  else if (k =? 3)%Z then (0x90%Z, hicb)
  else if (k =? 4)%Z then (locb, 0x8F%Z)
  else (0, 0)%Z.

(** [s[i]] where the caller has checked [i < len(s)]. *)
Definition at_ (s : string) (i : nat) : Z :=
  match String.get i s with
  | Some b => byteZ b
  | None => 0%Z
  end.

(** [utf8.DecodeRuneInString]: the first rune of [s] and its width in
    bytes; [(RuneError, 1)] for an encoding that is not valid. *)
Definition DecodeRuneInString (s : string) : Z * nat :=
  let n := Z.of_nat (len s) in
  if (n <? 1)%Z then (RuneError, 0)
  else
    let s0 := at_ s 0 in
    let x := first s0 in
    if (as_ <=? x)%Z then ((if (x =? xx)%Z then RuneError else s0), 1)
    else
      let sz := Z.land x 7 in
      let accept := acceptRanges (Z.shiftr x 4) in
      if (n <? sz)%Z then (RuneError, 1)
      else
        let b1 := at_ s 1 in
        if ((b1 <? accept.1) || (accept.2 <? b1))%Z then (RuneError, 1)
        else if (sz <=? 2)%Z then
          (Z.lor (Z.shiftl (Z.land s0 mask2) 6) (Z.land b1 maskx), 2)
        else
          let b2 := at_ s 2 in
          if ((b2 <? locb) || (hicb <? b2))%Z then (RuneError, 1)
          else if (sz <=? 3)%Z then
            (Z.lor (Z.lor (Z.shiftl (Z.land s0 mask3) 12)
                          (Z.shiftl (Z.land b1 maskx) 6))
                   (Z.land b2 maskx), 3)
          else
            let b3 := at_ s 3 in
            if ((b3 <? locb) || (hicb <? b3))%Z then (RuneError, 1)
            else
              (Z.lor (Z.lor (Z.lor (Z.shiftl (Z.land s0 mask4) 18)
                                   (Z.shiftl (Z.land b1 maskx) 12))
                            (Z.shiftl (Z.land b2 maskx) 6))
                     (Z.land b3 maskx), 4).

(** [utf8.RuneStart] *)
Definition RuneStart (b : Z) : bool := negb (Z.land b 0xC0 =? 0x80)%Z.

(** The loop of [DecodeLastRuneInString] that walks back from [start] to
    [lim] looking for the first byte of an encoding. *)
Fixpoint scanBack (fuel : nat) (s : string) (start lim : Z) : Z :=
  match fuel with
  | O => start
  | S fuel' =>
      if (start <? lim)%Z then start
      else if RuneStart (at_ s (Z.to_nat start)) then start
      else scanBack fuel' s (start - 1) lim
  end.

(** [utf8.DecodeLastRuneInString] *)
Definition DecodeLastRuneInString (s : string) : Z * nat :=
  let end_ := Z.of_nat (len s) in
  if (end_ =? 0)%Z then (RuneError, 0)
  else
    let start := (end_ - 1)%Z in
    let r := at_ s (Z.to_nat start) in
    if (r <? RuneSelf)%Z then (r, 1)
    else
      let lim := (end_ - UTFMax)%Z in
      let lim := if (lim <? 0)%Z then 0%Z else lim in
      let start := scanBack 4 s (start - 1) lim in
      let start := if (start <? 0)%Z then 0%Z else start in
      let '(r, size) := DecodeRuneInString (sdrop (Z.to_nat start) s) in
      if decide ((start + Z.of_nat size)%Z = end_) then (r, size)
      else (RuneError, 1).

(** [utf8.EncodeRune], the bytes [bytes.Buffer.WriteRune] appends for a
    rune of [RuneSelf] or more. *)
Definition EncodeRune (r : Z) : string :=
  let i := (r mod 2 ^ 32)%Z in
  let enc3 (r : Z) : string :=
    String (byteOf (Z.lor t3 (Z.shiftr r 12)))
      (String (byteOf (Z.lor tx (Z.land (Z.shiftr r 6) maskx)))
         (String (byteOf (Z.lor tx (Z.land r maskx))) EmptyString)) in
  if (i <=? rune1Max)%Z then str1 (byteOf r)
  else if (i <=? rune2Max)%Z then
    String (byteOf (Z.lor t2 (Z.shiftr r 6)))
      (String (byteOf (Z.lor tx (Z.land r maskx))) EmptyString)
  else if ((MaxRune <? i) || ((surrogateMin <=? i) && (i <=? surrogateMax)))%Z
  then enc3 RuneError
  else if (i <=? rune3Max)%Z then enc3 r
  else
    String (byteOf (Z.lor t4 (Z.shiftr r 18)))
      (String (byteOf (Z.lor tx (Z.land (Z.shiftr r 12) maskx)))
         (String (byteOf (Z.lor tx (Z.land (Z.shiftr r 6) maskx)))
            (String (byteOf (Z.lor tx (Z.land r maskx))) EmptyString))).

End Utf8.

(** ** The [range] clause over a string

    [for i, c := range s] yields, for each rune of [s] in turn, the index [i]
    of its first byte and the rune [c]; a byte that starts no valid encoding
    yields [RuneError] and the iteration advances by one byte.  [runesFrom]
    walks the bytes and skips the [pending] ones that belong to the rune
    decoded last; each entry also carries the bytes of the rune. *)
Fixpoint runesFrom (s : string) (i pending : nat) : list (nat * Z * string) :=
  match s with
  | EmptyString => []
  | String _ s' =>
      match pending with
      | S p => runesFrom s' (S i) p
      | O =>
          let '(c, w) := Utf8.DecodeRuneInString s in
          (i, c, stake w s) :: runesFrom s' (S i) (w - 1)
      end
  end.

Definition runes (s : string) : list (nat * Z * string) := runesFrom s 0 0.

(** ** [unicode] *)
Module Unicode.

Definition MaxLatin1 : Z := 0xFF.

(** [unicode.IsSpace]: the Latin-1 white space, and above Latin-1 the
    code points of the [White_Space] table. *)
Definition IsSpace (r : Z) : bool :=
  let u := (r mod 2 ^ 32)%Z in
  if (u <=? MaxLatin1)%Z then
    ((r =? 0x09) || (r =? 0x0A) || (r =? 0x0B) || (r =? 0x0C) || (r =? 0x0D)
     || (r =? 0x20) || (r =? 0x85) || (r =? 0xA0))%Z
  else
    ((r =? 0x1680) || ((0x2000 <=? r) && (r <=? 0x200A))
     || (r =? 0x2028) || (r =? 0x2029) || (r =? 0x202F) || (r =? 0x205F)
     || (r =? 0x3000))%Z.

End Unicode.

(** ** [strings] *)
Module Strings.

(** [strings.Index]: the index of the first instance of [substr] in [s],
    or -1. *)
Fixpoint indexFrom (substr s : string) (i : nat) : Z :=
  if String.prefix substr s then Z.of_nat i
  else match s with
       | EmptyString => (-1)%Z
       | String _ s' => indexFrom substr s' (S i)
       end.

Definition Index (s substr : string) : Z := indexFrom substr s 0.

(** [strings.LastIndex]: the index of the last instance, or -1. *)
Fixpoint lastIndexFrom (substr s : string) (i : nat) : Z :=
  match s with
  | EmptyString => if String.prefix substr s then Z.of_nat i else (-1)%Z
  | String _ s' =>
      let r := lastIndexFrom substr s' (S i) in
      if decide (r = (-1)%Z)
      then (if String.prefix substr s then Z.of_nat i else (-1)%Z)
      else r
  end.

Definition LastIndex (s substr : string) : Z := lastIndexFrom substr s 0.

(** [strings.Join] *)
Fixpoint Join (elems : list string) (sep : string) : string :=
  match elems with
  | [] => EmptyString
  | [e] => e
  | e :: elems' => e +:+ sep +:+ Join elems' sep
  end.

(** The loop of [strings.FieldsFunc]: [cur] is the field being read, or
    [None] between fields.  Go records the span of each maximal run of
    runes that do not satisfy [f] and returns those substrings of [s]; the
    run is gathered here rune by rune. *)
Fixpoint fieldsLoop (f : Z → bool) (rs : list (nat * Z * string))
    (cur : option string) : list string :=
  match rs with
  | [] => match cur with Some t => [t] | None => [] end
  | (_, c, bytes) :: rs' =>
      if f c then
        match cur with
        | Some t => t :: fieldsLoop f rs' None
        | None => fieldsLoop f rs' None
        end
      else
        fieldsLoop f rs' (Some (default EmptyString cur +:+ bytes))
  end.

Definition FieldsFunc (s : string) (f : Z → bool) : list string :=
  fieldsLoop f (runes s) None.

(** [strings.Fields]: for a string of ASCII bytes Go splits on its table
    [asciiSpace], which agrees with [unicode.IsSpace] there; otherwise it
    calls [FieldsFunc(s, unicode.IsSpace)]. *)
Definition Fields (s : string) : list string :=
  FieldsFunc s Unicode.IsSpace.

(** [indexFunc(s, f, truth)] *)
Fixpoint indexFuncLoop (f : Z → bool) (truth : bool)
    (rs : list (nat * Z * string)) : Z :=
  match rs with
  | [] => (-1)%Z
  | (i, r, _) :: rs' =>
      if bool_decide (f r = truth) then Z.of_nat i
      else indexFuncLoop f truth rs'
  end.

Definition indexFunc (s : string) (f : Z → bool) (truth : bool) : Z :=
  indexFuncLoop f truth (runes s).

(** [lastIndexFunc(s, f, truth)]: the loop
    [for i := len(s); i > 0; ] decodes the last rune of [s[0:i]]. *)
Fixpoint lastIndexFuncLoop (fuel : nat) (s : string) (f : Z → bool)
    (truth : bool) (i : nat) : Z :=
  match fuel with
  | O => (-1)%Z
  | S fuel' =>
      if decide (0 < i) then
        let '(r, size) := Utf8.DecodeLastRuneInString (stake i s) in
        let i := i - size in
        if bool_decide (f r = truth) then Z.of_nat i
        else lastIndexFuncLoop fuel' s f truth i
      else (-1)%Z
  end.

Definition lastIndexFunc (s : string) (f : Z → bool) (truth : bool) : Z :=
  lastIndexFuncLoop (S (len s)) s f truth (len s).

(** [strings.TrimLeftFunc] *)
Definition TrimLeftFunc (s : string) (f : Z → bool) : string :=
  let i := indexFunc s f false in
  if decide (i = (-1)%Z) then EmptyString else sdrop (Z.to_nat i) s.

(** [strings.TrimRightFunc] *)
Definition TrimRightFunc (s : string) (f : Z → bool) : string :=
  let i := lastIndexFunc s f false in
  let i :=
    if decide ((0 ≤ i)%Z ∧ (Utf8.RuneSelf ≤ Utf8.at_ s (Z.to_nat i))%Z)
    then (i + Z.of_nat (Utf8.DecodeRuneInString (sdrop (Z.to_nat i) s)).2)%Z
    else (i + 1)%Z in
  stake (Z.to_nat i) s.

(** [strings.TrimFunc] *)
Definition TrimFunc (s : string) (f : Z → bool) : string :=
  TrimRightFunc (TrimLeftFunc s f) f.

(** [strings.TrimSpace]: Go first trims ASCII white space from both ends
    and hands over to [TrimFunc] or [TrimRightFunc] with [unicode.IsSpace]
    at the first byte that is not ASCII; the result is that of
    [TrimFunc(s, unicode.IsSpace)]. *)
Definition TrimSpace (s : string) : string := TrimFunc s Unicode.IsSpace.

End Strings.

(** ** The session: data model *)

Definition engineStatus : Type := string.
Definition engineReason : Type := string.

Definition statusStarting : engineStatus := "starting".
Definition statusStopping : engineStatus := "stopping".
Definition statusStopped : engineStatus := "stopped".
Definition statusRunning : engineStatus := "running".
Definition statusBreak : engineStatus := "break".

Definition reasonOk : engineReason := "ok".
Definition reasonError : engineReason := "error".
Definition reasonAborted : engineReason := "aborted".
Definition reasonExeception : engineReason := "exception".

(** The dynamically typed values of a gdb/mi record
    ([map[string]interface{}]): strings, maps and lists. *)
#[warnings="-register-all"]
Inductive value : Type :=
| VString (s : string)
| VMap (m : gmap string value)
| VList (l : list value).

(** The gdb session: the reply ([Send]'s record or its error) to a command,
    given the commands sent before it. *)
Definition Gdb : Type :=
  list (string * list string) → string → list string →
  gmap string value + error.

(** Modelled from the spec: the type [engineBreakPoint] is declared outside
    [base.go].  A breakpoint has an id, a kind (line, conditional, temporary
    or another one), an enabled flag and the reference of the native
    breakpoint. *)
Inductive breakpointKind : Type :=
| kindLine
| kindConditional
| kindTemporary
| kindOther (name : string).

Definition isTemporary (k : breakpointKind) : bool :=
  match k with
  | kindTemporary => true
  | _ => false
  end.

Record engineBreakPoint : Type := {
  id : string;
  kind : breakpointKind;
  enabled : bool;
  nativeRef : string
}.

(** [engineState].  [breakStopNotify] holds the stop notifications that the
    listener of gdb's events is going to send, oldest first.  The handles
    [ideConnection], [rrFile] and [rrCmd] and the [featureMap], whose value
    type is declared elsewhere, are neither read nor written here and are
    left out. *)
Record engineState : Type := {
  breakStopNotify : list string;
  gdbSession : Gdb;
  entryFilePHP : string;
  lastSequenceNum : Z;
  status : engineStatus;
  reason : engineReason;
  breakpoints : gmap string engineBreakPoint;
  sourceMap : gmap string Z;
  maxStackDepth : Z;
  levelAr : list Z
}.

Record dbgpCmd : Type := {
  command : string;
  fullCommand : string;
  options : gmap string string;
  seqNum : Z;
  reverse : bool
}.

(** ** The process: the verbosity flag and what an observer sees *)

(** A line on the console.  [Cyan] keeps the record and the mark of
    continuation that [color.Cyan] formats with [%.300v%v]. *)
Inductive consoleLine : Type :=
| Plain (text : string)
| Green (text : string)
| Cyan (result : gmap string value) (continued : string).

(** What can be observed of a run, in the order it happens: a write to
    [es.status], a command sent to gdb, a stop notification taken from the
    channel, a line printed. *)
Inductive event : Type :=
| EvStatus (s : engineStatus)
| EvGdbSend (command : string) (arguments : list string)
| EvStopNotify (breakID : string)
| EvPrint (line : consoleLine).

Record world : Type := {
  VerboseFlag : bool;
  trace : list event
}.

Definition M (A : Type) : Type := world → outcome (A * world).

#[global] Instance M_bind : MBind M := λ A B f m w,
  match m w with
  | Ret (a, w') => f a w'
  | Panic v => Panic v
  | Fatal e => Fatal e
  | Blocked => Blocked
  end.
#[global] Instance M_ret : MRet M := λ A a w, Ret (a, w).

Definition lift {A} (o : outcome A) : M A := λ w,
  match o with
  | Ret a => Ret (a, w)
  | Panic v => Panic v
  | Fatal e => Fatal e
  | Blocked => Blocked
  end.

Definition getVerboseFlag : M bool := λ w, Ret (VerboseFlag w, w).

Definition addTrace (w : world) (t : list event) : world :=
  {| VerboseFlag := VerboseFlag w; trace := trace w ++ t |}.

Definition emit (e : event) : M () := λ w, Ret ((), addTrace w [e]).

(** The events other than the lines printed. *)
Definition isPrint (e : event) : bool :=
  match e with
  | EvPrint _ => true
  | _ => false
  end.

Definition actions (t : list event) : list event :=
  List.filter (λ e, negb (isPrint e)) t.

(** The commands sent to gdb so far. *)
Definition sentCommands (t : list event) : list (string * list string) :=
  omap (λ e, match e with EvGdbSend c a => Some (c, a) | _ => None end) t.

(** [Verbosef]: prints the text, already formatted, when [VerboseFlag] is
    set. *)
Definition Verbosef (text : string) : M () :=
  v ← getVerboseFlag;
  if v : bool then emit (EvPrint (Plain text)) else mret ().

(** [panicIf], [panicWith] and [fatalIf] *)
Definition panicIf (err : option error) : outcome () :=
  match err with
  | Some e => Panic (PanicIf e)
  | None => Ret ()
  end.

Definition panicWith (errStr : string) : outcome () :=
  if decide (errStr ≠ EmptyString) then Panic (PanicWith errStr) else Ret ().

Definition fatalIf (err : option error) : outcome () :=
  match err with
  | Some e => Fatal e
  | None => Ret ()
  end.

(** What [gdbSession.Send] returns, as the pair of Go: the record, and the
    error or nil. *)
Definition sendResult (reply : gmap string value + error)
    : gmap string value * option error :=
  match reply with
  | inl result => (result, None)
  | inr err => (∅, Some err)
  end.

(** ** The native-debugger adapter *)

(** [sendGdbCommand]: the command is traced in verbose mode, sent, and its
    result traced in verbose mode; an error of the transport ends the
    process. *)
Definition sendGdbCommand (gdbSession : Gdb) (command : string)
    (arguments : list string) : M (gmap string value) :=
  v ← getVerboseFlag;
  _ ← (if v : bool
       then emit (EvPrint (Green ("dontbug -> gdb: " +:+ command +:+ " "
                                   +:+ Strings.Join arguments " ")))
       else mret ());
  sent ← (λ w, Ret (sentCommands (trace w), w));
  _ ← emit (EvGdbSend command arguments);
  let '(result, err) := sendResult (gdbSession sent command arguments) in
  _ ← lift (fatalIf err);
  v ← getVerboseFlag;
  _ ← (if v : bool
       then
         let continued :=
           if decide (300 < size result) then "..." else EmptyString in
         emit (EvPrint (Cyan result continued))
       else mret ());
  mret result.

(** [bytes.Buffer.WriteRune] *)
Definition WriteRune (buf : string) (r : Z) : string :=
  if (r mod 2 ^ 32 <? Utf8.RuneSelf)%Z then buf +:+ str1 (byteOf r)
  else buf +:+ Utf8.EncodeRune r.

(** The body of the loop of [unquoteGdbStringResult], run for the rune [c] at
    index [i]; the state is the buffer and [skip]. *)
Definition unquoteStep (input : string) (l : nat) (st : string * bool)
    (i : nat) (c : Z) : outcome (string * bool) :=
  let '(buf, skip) := st in
  if skip then Ret (buf, false)
  else
    isPair ←
      (if bool_decide (c = byteZ backslashByte) && bool_decide (i < l)
       then b ← byteAt input (i + 1); Ret (bool_decide (b = quoteByte))
       else Ret false);
    if isPair : bool then Ret (WriteRune buf (byteZ quoteByte), true)
    else Ret (WriteRune buf c, skip).

Fixpoint unquoteLoop (input : string) (l : nat) (rs : list (nat * Z * string))
    (st : string * bool) : outcome (string * bool) :=
  match rs with
  | [] => Ret st
  | (i, c, _) :: rs' =>
      st' ← unquoteStep input l st i c;
      unquoteLoop input l rs' st'
  end.

(** [unquoteGdbStringResult] *)
Definition unquoteGdbStringResult (input : string) : outcome string :=
  let l := len input in
  st ← unquoteLoop input l (runes input) (EmptyString, false);
  Ret st.1.

(** [parseGdbStringResponse]: the string and the error that Go returns
    together. *)
Definition parseGdbStringResponse (gdbResponse : string)
    : outcome (string * option error) :=
  let first := Strings.Index gdbResponse (str1 quoteByte) in
  let last := Strings.LastIndex gdbResponse (str1 quoteByte) in
  if decide (first = last ∨ first = (-1)%Z ∨ last = (-1)%Z) then
    Ret (EmptyString,
         Some (errorString
                 ("Improper gdb data-evaluate-expression string response to: "
                  +:+ gdbResponse)))
  else
    sub ← slice gdbResponse (first + 1) last;
    unquote ← unquoteGdbStringResult sub;
    Ret (unquote, None).

(** [v == s] for an interface value [v] ([None] is the nil interface, what
    a map yields for a key it does not hold) and a string [s]: they are equal
    when the dynamic type of [v] is [string] and the strings are the same. *)
Definition ifaceEqString (v : option value) (s : string) : bool :=
  match v with
  | Some (VString t) => bool_decide (t = s)
  | _ => false
  end.

(** [xGdbCmdValue].  The two type assertions panic when the value is absent
    or of another dynamic type. *)
Definition xGdbCmdValue (gdbSession : Gdb) (expression : string) : M string :=
  result ← sendGdbCommand gdbSession "data-evaluate-expression" [expression];
  let class := result !! "class" in
  let ok := bool_decide (is_Some class) in
  let commandWas := "data-evaluate-expression " +:+ expression in
  _ ← (if negb ok
       then lift (panicWith ("Could not execute the gdb/mi command: "
                             +:+ commandWas))
       else mret ());
  _ ← (if negb (ifaceEqString class "done")
       then lift (panicWith ("Not completed the gdb/mi command: "
                             +:+ commandWas))
       else mret ());
  payload ← lift (match result !! "payload" with
                   | Some (VMap m) => Ret m
                   | _ => Panic InterfaceConversion
                   end);
  resultString ← lift (match payload !! "value" with
                        | Some (VString s) => Ret s
                        | _ => Panic InterfaceConversion
                        end);
  mret resultString.

(** [xSlashSgdb] and [xSlashDgdb] *)
Definition xSlashSgdb (gdbSession : Gdb) (expression : string) : M string :=
  resultString ← xGdbCmdValue gdbSession expression;
  r ← lift (parseGdbStringResponse resultString);
  _ ← lift (panicIf r.2);
  mret r.1.

Definition xSlashDgdb (gdbSession : Gdb) (expression : string) : M Z :=
  resultString ← xGdbCmdValue gdbSession expression;
  match Strconv.Atoi resultString with
  | inl intResult => mret intResult
  | inr err => lift (Panic (PanicIf err))
  end.

(** ** The protocol codec: [parseCommand] *)

(** The loop over [components[1:]]: [i] is the index in that slice and [v]
    its element; every other element is a flag, bound to the element that
    follows it in [components], or to the empty string at the end. *)
Fixpoint parseFlagsLoop (components : list string) (i : nat)
    (rest : list string) (flags : gmap string string)
    : outcome (gmap string string) :=
  match rest with
  | [] => Ret flags
  | v :: rest' =>
      if decide (i mod 2 = 1) then parseFlagsLoop components (S i) rest' flags
      else
        flags' ←
          (if decide (i + 2 < length components) then
             key ← sliceFrom (Strings.TrimSpace v) 1;
             val ← elemAt components (i + 2);
             Ret (<[key := Strings.TrimSpace val]> flags)
           else
             key ← sliceFrom (Strings.TrimSpace v) 1;
             Ret (<[key := EmptyString]> flags));
        parseFlagsLoop components (S i) rest' flags'
  end.

(** The diagnostic of [parseCommand], as [Printf] formats it. *)
Definition noSequenceNumber (fullCommand : string) : string :=
  "dontbug: No sequence number flag -i in command '" +:+ fullCommand
  +:+ "'. Assuming seq number 0" +:+ str1 newlineByte.

(** [parseCommand] *)
Definition parseCommand (fullCommand : string) (reverseMode : bool)
    : M dbgpCmd :=
  let components := Strings.Fields fullCommand in
  let flags : gmap string string := ∅ in
  command ← lift (elemAt components 0);
  rest ← lift (elemsFrom components 1);
  flags ← lift (parseFlagsLoop components 0 rest flags);
  seqInt ←
    match flags !! "i" with
    | None =>
        _ ← Verbosef (noSequenceNumber fullCommand);
        mret 0%Z
    | Some seq =>
        match Strconv.Atoi seq with
        | inl seqInt => mret seqInt
        | inr err => lift (Panic (PanicIf err))
        end
    end;
  let reverseMode :=
    match flags !! "z" with
    | Some r =>
        if decide (r = "1") then true
        else if decide (r = "0") then false
        else reverseMode
    | None => reverseMode
    end in
  mret {| command := command;
          fullCommand := fullCommand;
          options := flags;
          seqNum := seqInt;
          reverse := reverseMode |}.

(** ** The breakpoint registry and the execution controller *)

(** Modelled from the spec: [isEnabledPhpTemporaryBreakpoint] is defined
    outside [base.go]; it looks the id up in the registry and holds of a
    breakpoint that is enabled and temporary. *)
Definition isEnabledPhpTemporaryBreakpoint (es : engineState) (id_ : string)
    : bool :=
  match breakpoints es !! id_ with
  | Some bp => enabled bp && isTemporary (kind bp)
  | None => false
  end.

(** Modelled from the spec: [isEnabledPhpBreakpoint] is defined outside
    [base.go]; it looks the id up in the registry and holds of a breakpoint
    that is enabled and not temporary. *)
Definition isEnabledPhpBreakpoint (es : engineState) (id_ : string) : bool :=
  match breakpoints es !! id_ with
  | Some bp => enabled bp && negb (isTemporary (kind bp))
  | None => false
  end.

(** The assignments to the fields of [es] that [continueExecution] makes. *)
Definition withStatus (es : engineState) (s : engineStatus) : engineState :=
  {| breakStopNotify := breakStopNotify es;
     gdbSession := gdbSession es;
     entryFilePHP := entryFilePHP es;
     lastSequenceNum := lastSequenceNum es;
     status := s;
     reason := reason es;
     breakpoints := breakpoints es;
     sourceMap := sourceMap es;
     maxStackDepth := maxStackDepth es;
     levelAr := levelAr es |}.

Definition withBreakpoints (es : engineState)
    (bps : gmap string engineBreakPoint) : engineState :=
  {| breakStopNotify := breakStopNotify es;
     gdbSession := gdbSession es;
     entryFilePHP := entryFilePHP es;
     lastSequenceNum := lastSequenceNum es;
     status := status es;
     reason := reason es;
     breakpoints := bps;
     sourceMap := sourceMap es;
     maxStackDepth := maxStackDepth es;
     levelAr := levelAr es |}.

Definition withBreakStopNotify (es : engineState) (pending : list string)
    : engineState :=
  {| breakStopNotify := pending;
     gdbSession := gdbSession es;
     entryFilePHP := entryFilePHP es;
     lastSequenceNum := lastSequenceNum es;
     status := status es;
     reason := reason es;
     breakpoints := breakpoints es;
     sourceMap := sourceMap es;
     maxStackDepth := maxStackDepth es;
     levelAr := levelAr es |}.

(** [es.status = s] *)
Definition setStatus (es : engineState) (s : engineStatus) : M engineState :=
  _ ← emit (EvStatus s);
  mret (withStatus es s).

(** [<-es.breakStopNotify]: takes the oldest notification, and blocks when
    none is to come. *)
Definition receiveStop (es : engineState) : M (string * engineState) :=
  match breakStopNotify es with
  | [] => lift Blocked
  | breakID :: pending =>
      _ ← emit (EvStopNotify breakID);
      mret (breakID, withBreakStopNotify es pending)
  end.

(** [continueExecution]: the breakpoint id, whether the stop is on a PHP
    breakpoint, and the session as the call leaves it. *)
Definition continueExecution (es : engineState) (reverse : bool)
    : M (string * bool * engineState) :=
  es ← setStatus es statusRunning;
  _ ← (if reverse
       then sendGdbCommand (gdbSession es) "exec-continue" ["--reverse"]
       else sendGdbCommand (gdbSession es) "exec-continue" []);
  r ← receiveStop es;
  let '(breakID, es) := r in
  es ← setStatus es statusBreak;
  if isEnabledPhpTemporaryBreakpoint es breakID then
    let es := withBreakpoints es (delete breakID (breakpoints es)) in
    mret (breakID, true, es)
  else if isEnabledPhpBreakpoint es breakID then
    mret (breakID, true, es)
  else
    mret (breakID, false, es).

(** ** The DBGp packet *)

Definition headerXML : string :=
  "<?xml version=" +:+ str1 quoteByte +:+ "1.0" +:+ str1 quoteByte
  +:+ " encoding=" +:+ str1 quoteByte +:+ "iso-8859-1" +:+ str1 quoteByte
  +:+ "?>" +:+ str1 newlineByte.

(** [constructDbgpPacket]: the buffer receives, in this order, the decimal
    length, a zero byte, the header, the payload and a zero byte. *)
Definition constructDbgpPacket (payload : string) : string :=
  let buf := EmptyString in
  let buf := buf +:+ Strconv.Itoa (Z.of_nat (len payload + len headerXML)) in
  let buf := buf +:+ str1 nulByte in
  let buf := buf +:+ headerXML in
  let buf := buf +:+ payload in
  let buf := buf +:+ str1 nulByte in
  buf.

(** The bytes of a string all satisfy [p]. *)
Fixpoint allBytes (p : ascii → bool) (s : string) : bool :=
  match s with
  | EmptyString => true
  | String b s' => p b && allBytes p s'
  end.

Definition isDigitByte (b : ascii) : bool :=
  bool_decide (48 ≤ byteZ b ≤ 57)%Z.

(** ** A reader of DBGp packets

    The IDE's side of the framing, for the round trip: the bytes up to the
    first zero byte are the decimal length; that many bytes follow, the XML
    header first and the payload after it. *)
Fixpoint splitAtNul (s : string) : option (string * string) :=
  match s with
  | EmptyString => None
  | String b s' =>
      if decide (b = nulByte) then Some (EmptyString, s')
      else
        match splitAtNul s' with
        | Some (p, r) => Some (String b p, r)
        | None => None
        end
  end.

Definition declaredLength (packet : string) : option Z :=
  match splitAtNul packet with
  | Some (String b p, _) => Strconv.parseDigits 0 (String b p)
  | _ => None
  end.

Definition readDbgpPacket (packet : string) : option string :=
  match splitAtNul packet, declaredLength packet with
  | Some (_, rest), Some n =>
      if decide (n ≤ Z.of_nat (len rest))%Z then
        let data := stake (Z.to_nat n) rest in
        if String.prefix headerXML data
        then Some (sdrop (len headerXML) data)
        else None
      else None
  | _, _ => None
  end.

(** ** Fields

    [fieldIn f t rest]: in front of [rest], the string [t] decodes into
    runes that do not satisfy [f], the last of which ends where [t] ends. *)
Inductive fieldIn (f : Z → bool) : string → string → Prop :=
| fieldIn_nil (rest : string) : fieldIn f EmptyString rest
| fieldIn_cons (bytes t rest : string) (c : Z) :
    bytes ≠ EmptyString →
    Utf8.DecodeRuneInString (bytes +:+ t +:+ rest) = (c, len bytes) →
    f c = false →
    fieldIn f t rest →
    fieldIn f (bytes +:+ t) rest.

(** Every rune of the string is white space. *)
Definition onlyWhiteSpace (s : string) : bool :=
  forallb (λ r, Unicode.IsSpace r.1.2) (runes s).

(** The options of a command line as the specification words them: the
    tokens after the verb are taken in pairs, a flag and its value; the key
    is the flag without its first byte, and a flag that ends the line is
    bound to the empty string. *)
Fixpoint bindFlags (tokens : list string) (flags : gmap string string)
    : gmap string string :=
  match tokens with
  | [] => flags
  | [flag] => <[sdrop 1 flag := EmptyString]> flags
  | flag :: val :: tokens' => bindFlags tokens' (<[sdrop 1 flag := val]> flags)
  end.

(** The number of bytes of [s] equal to [b]. *)
Fixpoint countByte (b : ascii) (s : string) : nat :=
  match s with
  | EmptyString => 0
  | String c s' => (if decide (c = b) then 1 else 0) + countByte b s'
  end.

(** The single pass of the specification, on bytes: a backslash that a
    double quote follows collapses to the quote, and every other byte passes
    through. *)
Fixpoint unquoteBytes (s : string) : string :=
  match s with
  | EmptyString => EmptyString
  | String b t =>
      match t with
      | EmptyString => String b EmptyString
      | String b' t' =>
          if decide (b = backslashByte ∧ b' = quoteByte)
          then String quoteByte (unquoteBytes t')
          else String b (unquoteBytes t)
      end
  end.

Definition isAscii (b : ascii) : bool := bool_decide (byteZ b < 0x80)%Z.

Fixpoint endsWith (b : ascii) (s : string) : bool :=
  match s with
  | EmptyString => false
  | String c EmptyString => bool_decide (c = b)
  | String _ t => endsWith b t
  end.

(** ** A session to run the functions on *)

(** A gdb that answers [^running] to every command. *)
Definition gdbRunning : Gdb := λ _ _ _, inl {[ "class" := VString "running" ]}.

Definition temporaryAt (id_ : string) : engineBreakPoint :=
  {| id := id_; kind := kindTemporary; enabled := true; nativeRef := "2" |}.

Definition lineAt (id_ : string) : engineBreakPoint :=
  {| id := id_; kind := kindLine; enabled := true; nativeRef := "3" |}.

(** The registry holds the temporary breakpoint [t1] and the line breakpoint
    [b2]; gdb is going to stop on [t1] twice. *)
Definition sessionAtT1 : engineState :=
  {| breakStopNotify := ["t1"; "t1"];
     gdbSession := gdbRunning;
     entryFilePHP := "index.php";
     lastSequenceNum := 0;
     status := statusBreak;
     reason := reasonOk;
     breakpoints := {[ "t1" := temporaryAt "t1"; "b2" := lineAt "b2" ]};
     sourceMap := ∅;
     maxStackDepth := 0;
     levelAr := [] |}.

Definition quietWorld : world := {| VerboseFlag := false; trace := [] |}.
Definition verboseWorld : world := {| VerboseFlag := true; trace := [] |}.

(** A gdb that answers [^done] without results, and one that answers
    [^done,value=...]. *)
Definition gdbDoneBare : Gdb := λ _ _ _, inl {[ "class" := VString "done" ]}.

Definition gdbDoneValue (v : string) : Gdb := λ _ _ _,
  inl {[ "class" := VString "done";
         "payload" := VMap {[ "value" := VString v ]} ]}.

(** The text gdb prints for a [char *] value: an address and the contents
    between double quotes. *)
Definition gdbStringValue (contents : string) : string :=
  "0x7f261d8624e8 " +:+ str1 quoteByte +:+ contents +:+ str1 quoteByte.

(** The sentence [He said hi], with [hi] between double quotes, as gdb
    escapes it: a backslash in front of each double quote. *)
Definition escapedGreeting : string :=
  "He said " +:+ str1 backslashByte +:+ str1 quoteByte +:+ "hi"
  +:+ str1 backslashByte +:+ str1 quoteByte.

Definition greeting : string :=
  "He said " +:+ str1 quoteByte +:+ "hi" +:+ str1 quoteByte.

(** * More of the engine *)

(** ** The noisy wrappers *)

(** [VerboseFlag = v] *)
Definition setVerboseFlag (v : bool) : M () := λ w,
  Ret ((), {| VerboseFlag := v; trace := trace w |}).

(** [sendGdbCommandNoisy]: [sendGdbCommand] with [VerboseFlag] set for the
    time of the call. *)
Definition sendGdbCommandNoisy (gdbSession : Gdb) (command : string)
    (arguments : list string) : M (gmap string value) :=
  originalNoisy ← getVerboseFlag;
  _ ← setVerboseFlag true;
  result ← sendGdbCommand gdbSession command arguments;
  _ ← setVerboseFlag originalNoisy;
  mret result.

(** [makeNoisy]: the handler [f] with [VerboseFlag] set for the time of the
    call.  A handler gets the session by reference; here it returns the
    session as it leaves it, with its result. *)
Definition makeNoisy (f : engineState → dbgpCmd → M (string * engineState))
    (es : engineState) (dCmd : dbgpCmd) : M (string * engineState) :=
  originalNoisy ← getVerboseFlag;
  _ ← setVerboseFlag true;
  result ← f es dCmd;
  _ ← setVerboseFlag originalNoisy;
  mret result.

(** ** More of [strings], [path/filepath] and [regexp] *)
Module StringsSplit.

(** The loop of [strings.Count] for a substring that is not empty. *)
Fixpoint countLoop (fuel : nat) (s substr : string) (n : nat) : nat :=
  match fuel with
  | O => n
  | S fuel' =>
      let i := Strings.Index s substr in
      if decide (i = (-1)%Z) then n
      else countLoop fuel' (sdrop (Z.to_nat i + len substr) s) substr (S n)
  end.

(** [strings.Count]: the number of instances of [substr] in [s] that do not
    overlap; one more than the number of runes for the empty substring. *)
Definition Count (s substr : string) : nat :=
  if decide (substr = EmptyString) then length (runes s) + 1
  else countLoop (S (len s)) s substr 0.

(** The loop of [genSplit]: at most [n] times, the bytes in front of the
    next separator are split off. *)
Fixpoint genSplitLoop (n : nat) (s sep : string) : list string :=
  match n with
  | O => [s]
  | S n' =>
      let m := Strings.Index s sep in
      if decide (m < 0)%Z then [s]
      else stake (Z.to_nat m) s
           :: genSplitLoop n' (sdrop (Z.to_nat m + len sep) s) sep
  end.

(** [strings.Split(s, sep)], that is [genSplit(s, sep, 0, -1)]: the
    substrings between the separators; the runes of [s] for the empty
    separator. *)
Definition Split (s sep : string) : list string :=
  if decide (sep = EmptyString) then map (λ r, r.2) (runes s)
  else
    let n := Count s sep + 1 in
    let n := if decide (len s + 1 < n) then len s + 1 else n in
    genSplitLoop (n - 1) s sep.

End StringsSplit.

Module Filepath.

Definition slashByte : ascii := "/"%char.

(** The two loops of [filepath.Base]: the trailing slashes are stripped,
    and the index of the last slash is looked for from the end. *)
Fixpoint stripTrailingSlashes (fuel : nat) (path : string) : string :=
  match fuel with
  | O => path
  | S fuel' =>
      if decide (0 < len path
                 ∧ String.get (len path - 1) path = Some slashByte)
      then stripTrailingSlashes fuel' (stake (len path - 1) path)
      else path
  end.

Fixpoint lastSlash (fuel : nat) (path : string) (i : Z) : Z :=
  match fuel with
  | O => i
  | S fuel' =>
      if decide ((0 ≤ i)%Z
                 ∧ String.get (Z.to_nat i) path ≠ Some slashByte)
      then lastSlash fuel' path (i - 1)
      else i
  end.

(** [filepath.Base], where the separator is the slash and no path has a
    volume name. *)
Definition Base (path : string) : string :=
  if decide (path = EmptyString) then "."
  else
    let path := stripTrailingSlashes (len path) path in
    let i := lastSlash (len path) path (Z.of_nat (len path) - 1) in
    let path := if decide (0 ≤ i)%Z then sdrop (Z.to_nat (i + 1)) path
                else path in
    if decide (path = EmptyString) then str1 slashByte else path.

End Filepath.

Module VersionRegexp.

Definition dotByte : ascii := "."%char.

(** The decimal digits that [s] starts with, and what follows them. *)
Fixpoint spanDigits (s : string) : string * string :=
  match s with
  | EmptyString => (EmptyString, EmptyString)
  | String b t =>
      if isDigitByte b
      then let '(d, r) := spanDigits t in (String b d, r)
      else (EmptyString, s)
  end.

(** [\d+] and then [\.]: what follows them, when [s] starts so. *)
Definition digitsDot (s : string) : option (string * string) :=
  match spanDigits s with
  | (String b d, String c r) =>
      if decide (c = dotByte) then Some (String b d, r) else None
  | _ => None
  end.

(** [FindString] of the regular expression [^\d+\.\d+\.\d+]: the match at
    the start of [s], or the empty string.  Each [\d+] takes all the digits
    there are: what follows the pattern's [\d+] is no digit. *)
Definition FindString (s : string) : string :=
  match digitsDot s with
  | Some (d1, r1) =>
      match digitsDot r1 with
      | Some (d2, r2) =>
          match spanDigits r2 with
          | (String b d3, _) =>
              d1 +:+ str1 dotByte +:+ d2 +:+ str1 dotByte +:+ String b d3
          | _ => EmptyString
          end
      | None => EmptyString
      end
  | None => EmptyString
  end.

End VersionRegexp.

(** ** The host and the library of versions *)

(** What the checks of the executables ask of the host: [exec.LookPath],
    and the standard output of a command run with arguments,
    [exec.Command(name, arg...).Output()].  An error is kept as its text. *)
Record Host : Type := {
  LookPath : string → string + string;
  Output : string → list string → string + string
}.

(** The library [Masterminds/semver] as the checks use it: parsing a
    version, parsing a constraint, and checking a version against a
    constraint.  An error is kept as its text. *)
Record Semver : Type := {
  Version : Type;
  Constraints : Type;
  NewVersion : string → Version + string;
  NewConstraint : string → Constraints + string;
  Check : Constraints → Version → bool
}.

(** [Verboseln] with one operand: [fmt.Println] adds the newline. *)
Definition Verboseln (text : string) : M () :=
  v ← getVerboseFlag;
  if v : bool then emit (EvPrint (Plain (text +:+ str1 newlineByte)))
  else mret ().

(** [log.Fatalf] with the message formatted. *)
Definition logFatalf {A} (message : string) : M A :=
  lift (Fatal (errorString message)).

(** A call that returns a value and an error, and [fatalIf] on the error:
    [x, err := f(...); fatalIf(err)]. *)
Definition orFatal {A} (r : A + string) : M A :=
  match r with
  | inl a => mret a
  | inr text => lift (Fatal (errorString text))
  end.

Section executables.
Context (host : Host) (semver : Semver).

(** [findExec].  [color.Yellow] prints the line and a newline; the colour
    is not kept. *)
Definition findExec (file : string) : M (string * option error) :=
  let name := Filepath.Base file in
  match LookPath host file with
  | inr err =>
      mret (EmptyString,
            Some (errorString ("Could not find " +:+ file +:+ ". " +:+ err)))
  | inl path =>
      _ ← emit (EvPrint (Plain ("dontbug: Using " +:+ name +:+ " from path "
                                +:+ path +:+ str1 newlineByte)));
      mret (path, None)
  end.

(** [getPathAndVersionLineOrFatal] *)
Definition getPathAndVersionLineOrFatal (file : string)
    : M (string * string) :=
  r ← findExec file;
  _ ← lift (fatalIf r.2);
  let path := r.1 in
  output ← orFatal (Output host path ["--version"]);
  let outString := output in
  firstLine ← lift (elemAt (StringsSplit.Split outString (str1 newlineByte)) 0);
  mret (path, firstLine).

(** [checkPhpExecutable].  The regular expression is a constant that
    compiles, so its [fatalIf] does nothing. *)
Definition checkPhpExecutable (phpExecutable : string) : M string :=
  _ ← Verboseln "dontbug: Checking PHP requirements";
  r ← getPathAndVersionLineOrFatal phpExecutable;
  let '(path, firstLine) := r in
  versionString ← lift (elemAt (StringsSplit.Split firstLine " ") 1);
  let cleanedVersionString :=
    VersionRegexp.FindString (Strings.TrimSpace versionString) in
  _ ← Verbosef ("dontbug: PHP version was: " +:+ cleanedVersionString
                +:+ str1 newlineByte);
  _ ← (if decide (cleanedVersionString = EmptyString)
       then logFatalf ("Could not find version in version string "
                       +:+ versionString)
       else mret ());
  ver ← orFatal (NewVersion semver cleanedVersionString);
  constraint ← orFatal (NewConstraint semver "~7.0");
  _ ← (if negb (Check semver constraint ver)
       then logFatalf ("Only PHP 7.0.x supported. Version " +:+ versionString
                       +:+ " was given.")
       else mret ());
  mret path.

(** [CheckRRExecutable] *)
Definition CheckRRExecutable (rrExecutable : string) : M string :=
  _ ← Verboseln "dontbug: Checking rr requirements";
  r ← getPathAndVersionLineOrFatal rrExecutable;
  let '(path, firstLine) := r in
  let spaceAr := StringsSplit.Split firstLine " " in
  versionString ← lift (elemAt spaceAr (length spaceAr - 1));
  ver ← orFatal (NewVersion semver versionString);
  constraint ← orFatal (NewConstraint semver ">= 4.3.0");
  _ ← (if negb (Check semver constraint ver)
       then logFatalf ("Only rr >= 4.3.0 supported. Version " +:+ versionString
                       +:+ " was given")
       else mret ());
  mret path.

(** [CheckGdbExecutable] *)
Definition CheckGdbExecutable (gdbExecutable : string) : M string :=
  _ ← Verboseln "dontbug: Checking gdb requirements";
  r ← getPathAndVersionLineOrFatal gdbExecutable;
  let '(path, firstLine) := r in
  let spaceAr := StringsSplit.Split firstLine " " in
  versionString ← lift (elemAt spaceAr (length spaceAr - 1));
  ver ← orFatal (NewVersion semver versionString);
  constraint ← orFatal (NewConstraint semver ">= 7.11.1");
  _ ← (if negb (Check semver constraint ver)
       then logFatalf ("Only gdb >= 7.11.1 supported. Version "
                       +:+ versionString +:+ " was given")
       else mret ());
  mret path.

(** The check of a version against a constraint, from the version string
    on, as [CheckRRExecutable] and [CheckGdbExecutable] run it. *)
Definition checked (version constraint unsupported path : string) (w : world)
    (o : outcome (string * world)) : Prop :=
  match NewVersion semver version with
  | inr err => o = Fatal (errorString err)
  | inl ver =>
      match NewConstraint semver constraint with
      | inr err => o = Fatal (errorString err)
      | inl c =>
          if Check semver c ver then o = Ret (path, w)
          else o = Fatal (errorString unsupported)
      end
  end.

End executables.

(** * Words for the properties of the engine *)

(** The runes of [s] as [WriteRune] writes them: the bytes of [s], with
    U+FFFD in the place of each byte that starts no valid encoding. *)
Definition reencoded (s : string) : string :=
  foldr (λ r acc, WriteRune EmptyString r.1.2 +:+ acc) EmptyString (runes s).

(** What [utf8.ValidString] tests: no byte of [s] decodes as the error rune
    of width one. *)
Definition validUtf8 (s : string) : bool :=
  forallb (λ r : nat * Z * string,
             negb (bool_decide (r.1.2 = Utf8.RuneError ∧ len r.2 = 1)))
    (runes s).

(** gdb's side of the quoting that [unquoteGdbStringResult] undoes: a
    backslash is put in front of each double quote. *)
Fixpoint escapeQuotes (s : string) : string :=
  match s with
  | EmptyString => EmptyString
  | String b t =>
      if decide (b = quoteByte)
      then String backslashByte (String quoteByte (escapeQuotes t))
      else String b (escapeQuotes t)
  end.

(** ** Observations

    Two runs end alike when they end in the same way, return the same value
    and leave traces that differ in the lines printed only. *)
Definition sameOutcome {A} (o1 o2 : outcome (A * world)) : Prop :=
  match o1, o2 with
  | Ret (a1, w1), Ret (a2, w2) =>
      a1 = a2 ∧ actions (trace w1) = actions (trace w2)
  | Panic v1, Panic v2 => v1 = v2
  | Fatal e1, Fatal e2 => e1 = e2
  | Blocked, Blocked => True
  | _, _ => False
  end.

(** A computation is silent when neither [VerboseFlag] nor the lines
    printed before it change what it returns and does. *)
Definition silent {A} (m : M A) : Prop :=
  ∀ w1 w2,
    actions (trace w1) = actions (trace w2) → sameOutcome (m w1) (m w2).

(** The session that [continueExecution] leaves when it takes the stop
    notification [breakID] and [pending] are left. *)
Definition stoppedAt (es : engineState) (breakID : string)
    (pending : list string) : engineState :=
  let es := withStatus (withBreakStopNotify (withStatus es statusRunning)
                          pending) statusBreak in
  if isEnabledPhpTemporaryBreakpoint es breakID
  then withBreakpoints es (delete breakID (breakpoints es))
  else es.

Definition continueCommand (reverse : bool) : string * list string :=
  ("exec-continue", if reverse then ["--reverse"] else []).

(** ** A reader of a stream of DBGp packets

    The IDE's side on the connection: the front packet is taken off the
    stream by its declared length, the zero byte that ends it is checked,
    and the bytes behind it are left for the next read. *)
Definition readDbgpPacketFrom (stream : string) : option (string * string) :=
  match splitAtNul stream, declaredLength stream with
  | Some (_, rest), Some n =>
      if decide (n < Z.of_nat (len rest))%Z then
        let data := stake (Z.to_nat n) rest in
        match sdrop (Z.to_nat n) rest with
        | String b behind =>
            if decide (b = nulByte) then
              if String.prefix headerXML data
              then Some (sdrop (len headerXML) data, behind)
              else None
            else None
        | EmptyString => None
        end
      else None
  | _, _ => None
  end.

(** The payloads of the packets that make up a stream. *)
Fixpoint readDbgpPackets (fuel : nat) (stream : string)
    : option (list string) :=
  match stream, fuel with
  | EmptyString, _ => Some []
  | _, O => None
  | _, S fuel' =>
      match readDbgpPacketFrom stream with
      | Some (payload, behind) =>
          payloads ← readDbgpPackets fuel' behind;
          Some (payload :: payloads)
      | None => None
      end
  end.

(** The packets of the payloads, one after the other. *)
Definition dbgpStream (payloads : list string) : string :=
  foldr (λ payload stream, constructDbgpPacket payload +:+ stream)
    EmptyString payloads.

(** A byte that is printed and is no white space. *)
Definition isGraphic (b : ascii) : bool :=
  bool_decide (0x21 ≤ byteZ b ≤ 0x7E)%Z.

Definition spaceByte : ascii := " "%char.

(** A host on which every program is found in [/usr/bin] and prints [out],
    and a library of versions that takes every version. *)
Definition hostPrinting (out : string) : Host :=
  {| LookPath := λ file, inl ("/usr/bin/" +:+ file);
     Output := λ _ _, inl out |}.

Definition semverLax : Semver :=
  {| Version := string;
     Constraints := string;
     NewVersion := inl;
     NewConstraint := inl;
     Check := λ _ _, true |}.

(** What a call that evaluates [expression] does: the one command sent. *)
Definition evaluated (expression : string) : list event :=
  [EvGdbSend "data-evaluate-expression" [expression]].

(** A gdb whose transport is closed. *)
Definition gdbGone : Gdb := λ _ _ _, inr (errorString "EOF").

(** What [php --version] and [gdb --version] print. *)
Definition phpVersionLine : string :=
  "PHP 7.0.33-0ubuntu0.16.04.16 (cli) ( NTS )" +:+ str1 newlineByte
  +:+ "Copyright (c) 1997-2017 The PHP Group".

Definition gdbVersionLine : string :=
  "GNU gdb (Ubuntu 7.11.1-0ubuntu1~16.5) 7.11.1" +:+ str1 newlineByte
  +:+ "Copyright (C) 2016 Free Software Foundation, Inc.".

(** * Properties *)

(** ** The monad and the trace *)

Lemma sentCommands_app t1 t2 :
  sentCommands (t1 ++ t2) = sentCommands t1 ++ sentCommands t2.
Proof. unfold sentCommands. apply omap_app. Qed.

Lemma actions_app t1 t2 : actions (t1 ++ t2) = actions t1 ++ actions t2.
Proof. unfold actions. apply List.filter_app. Qed.

Lemma addTrace_nil w : addTrace w [] = w.
Proof. destruct w. unfold addTrace. simpl. by rewrite app_nil_r. Qed.

Lemma addTrace_app w t1 t2 : addTrace (addTrace w t1) t2 = addTrace w (t1 ++ t2).
Proof. unfold addTrace. simpl. by rewrite app_assoc. Qed.

Section monad_steps.
Context {A B : Type}.
Implicit Types (m : M A) (f : A → M B).

Lemma bind_Ret m f w a w' : m w = Ret (a, w') → (m ≫= f) w = f a w'.
Proof. intros H. unfold mbind, M_bind. by rewrite H. Qed.

Lemma bind_Panic m f w v : m w = Panic v → (m ≫= f) w = Panic v.
Proof. intros H. unfold mbind, M_bind. by rewrite H. Qed.

Lemma bind_Fatal m f w e : m w = Fatal e → (m ≫= f) w = Fatal e.
Proof. intros H. unfold mbind, M_bind. by rewrite H. Qed.

Lemma bind_Blocked m f w : m w = Blocked → (m ≫= f) w = Blocked.
Proof. intros H. unfold mbind, M_bind. by rewrite H. Qed.
End monad_steps.

Lemma emit_run e w : emit e w = Ret ((), addTrace w [e]).
Proof. reflexivity. Qed.

Lemma setStatus_run es s w :
  setStatus es s w = Ret (withStatus es s, addTrace w [EvStatus s]).
Proof. reflexivity. Qed.

Lemma receiveStop_run es breakID pending w :
  breakStopNotify es = breakID :: pending →
  receiveStop es w
  = Ret (breakID, withBreakStopNotify es pending,
         addTrace w [EvStopNotify breakID]).
Proof. intros H. unfold receiveStop. by rewrite H. Qed.

Lemma sendGdbCommand_run gdb c a w :
  match gdb (sentCommands (trace w)) c a with
  | inr err => sendGdbCommand gdb c a w = Fatal err
  | inl result =>
      ∃ t, sendGdbCommand gdb c a w = Ret (result, addTrace w t)
           ∧ actions t = [EvGdbSend c a]
  end.
Proof.
  unfold sendGdbCommand.
  destruct (VerboseFlag w) eqn:Hv.
  - erewrite bind_Ret by (unfold getVerboseFlag; rewrite Hv; reflexivity).
    erewrite bind_Ret by apply emit_run.
    erewrite bind_Ret by reflexivity.
    erewrite bind_Ret by apply emit_run.
    cbn [trace addTrace]. rewrite sentCommands_app. cbn [sentCommands omap list_omap].
    rewrite app_nil_r.
    destruct (gdb _ c a) as [result|err]; cbn [sendResult]; [|reflexivity].
    erewrite bind_Ret by reflexivity.
    erewrite bind_Ret by (unfold getVerboseFlag; cbn; rewrite Hv; reflexivity).
    erewrite bind_Ret by apply emit_run.
    rewrite !addTrace_app. eexists. split; [reflexivity|]. reflexivity.
  - erewrite bind_Ret by (unfold getVerboseFlag; rewrite Hv; reflexivity).
    erewrite bind_Ret by reflexivity.
    erewrite bind_Ret by reflexivity.
    erewrite bind_Ret by apply emit_run.
    destruct (gdb _ c a) as [result|err]; cbn [sendResult]; [|reflexivity].
    erewrite bind_Ret by reflexivity.
    erewrite bind_Ret by (unfold getVerboseFlag; cbn; rewrite Hv; reflexivity).
    erewrite bind_Ret by reflexivity.
    eexists. split; [reflexivity|]. reflexivity.
Qed.

(** ** The execution controller *)

(** What one call of [continueExecution] does when a stop notification is
    to come and gdb takes the command. *)
Lemma continueExecution_run (es : engineState) (reverse : bool) (w : world)
    (breakID : string) (pending : list string) :
  breakStopNotify es = breakID :: pending →
  match gdbSession es (sentCommands (trace w)) "exec-continue"
          (if reverse then ["--reverse"] else []) with
  | inr err => continueExecution es reverse w = Fatal err
  | inl _ =>
      ∃ es' t,
        continueExecution es reverse w
        = Ret (breakID,
               isEnabledPhpTemporaryBreakpoint es breakID
               || isEnabledPhpBreakpoint es breakID,
               es', addTrace w t)
        ∧ actions t
          = [EvStatus statusRunning;
             EvGdbSend "exec-continue" (if reverse then ["--reverse"] else []);
             EvStopNotify breakID;
             EvStatus statusBreak]
        ∧ status es' = statusBreak
        ∧ breakStopNotify es' = pending
        ∧ breakpoints es'
          = (if isEnabledPhpTemporaryBreakpoint es breakID
             then delete breakID (breakpoints es) else breakpoints es)
  end.
Proof.
  intros Hq. unfold continueExecution.
  erewrite bind_Ret by apply setStatus_run.
  set (w1 := addTrace w [EvStatus statusRunning]).
  pose proof (sendGdbCommand_run (gdbSession es) "exec-continue"
                (if reverse then ["--reverse"] else []) w1) as Hsend.
  subst w1. cbn [trace addTrace] in Hsend.
  rewrite sentCommands_app in Hsend. cbn in Hsend. rewrite app_nil_r in Hsend.
  change (gdbSession (withStatus es statusRunning)) with (gdbSession es).
  replace (if reverse
           then sendGdbCommand (gdbSession es) "exec-continue" ["--reverse"]
           else sendGdbCommand (gdbSession es) "exec-continue" [])
    with (sendGdbCommand (gdbSession es) "exec-continue"
            (if reverse then ["--reverse"] else [])) by (by destruct reverse).
  destruct (gdbSession es _ _ _) as [result|err].
  - destruct Hsend as (t & Hs & Ht).
    erewrite bind_Ret by exact Hs.
    erewrite bind_Ret by (by apply receiveStop_run).
    cbv beta iota.
    erewrite bind_Ret by apply setStatus_run.
    rewrite !addTrace_app.
    unfold isEnabledPhpTemporaryBreakpoint, isEnabledPhpBreakpoint.
    cbn [breakpoints withStatus withBreakStopNotify].
    assert (Hact : actions ([EvStatus statusRunning] ++ t
                            ++ [EvStopNotify breakID] ++ [EvStatus statusBreak])
                   = [EvStatus statusRunning;
                      EvGdbSend "exec-continue"
                        (if reverse then ["--reverse"] else []);
                      EvStopNotify breakID; EvStatus statusBreak])
      by (rewrite !actions_app, Ht; reflexivity).
    destruct (breakpoints es !! breakID) as [bp|]; cbn [andb orb].
    + destruct (enabled bp), (isTemporary (kind bp)); cbn [andb orb negb];
        (eexists _, _; split; [reflexivity|done]).
    + eexists _, _; split; [reflexivity|done].
  - by erewrite bind_Fatal by exact Hsend.
Qed.



(** C1: a temporary breakpoint is hit once.  When the registry maps [B] to
    an enabled temporary breakpoint and the stop notification is [B],
    [continueExecution] returns [(B, true)] and deletes [B] from the
    registry; a later call that is notified of [B], in any session whose
    registry does not hold [B], returns [(B, false)]. *)
Theorem temporary_breakpoint_one_shot (es : engineState) (reverse : bool)
    (w : world) (B : string) (pending : list string) (bp : engineBreakPoint)
    (result : gmap string value) :
  breakpoints es !! B = Some bp →
  enabled bp = true →
  isTemporary (kind bp) = true →
  breakStopNotify es = B :: pending →
  gdbSession es (sentCommands (trace w)) "exec-continue"
    (if reverse then ["--reverse"] else []) = inl result →
  ∃ es1 w1,
    continueExecution es reverse w = Ret (B, true, es1, w1)
    ∧ breakpoints es1 = delete B (breakpoints es)
    ∧ breakpoints es1 !! B = None
    ∧ ∀ (es2 : engineState) (reverse2 : bool) (w2 : world)
        (pending2 : list string) (result2 : gmap string value),
        breakpoints es2 !! B = None →
        breakStopNotify es2 = B :: pending2 →
        gdbSession es2 (sentCommands (trace w2)) "exec-continue"
          (if reverse2 then ["--reverse"] else []) = inl result2 →
        ∃ es3 w3,
          continueExecution es2 reverse2 w2 = Ret (B, false, es3, w3)
          ∧ breakpoints es3 = breakpoints es2.
Proof.
  intros Hbp Hen Htmp Hq Hg.
  pose proof (continueExecution_run es reverse w B pending Hq) as H.
  rewrite Hg in H. destruct H as (es1 & t & Hrun & _ & _ & _ & Hbps).
  assert (Ht : isEnabledPhpTemporaryBreakpoint es B = true)
    by (unfold isEnabledPhpTemporaryBreakpoint; by rewrite Hbp, Hen, Htmp).
  rewrite Ht in Hrun, Hbps. exists es1, (addTrace w t).
  split; [exact Hrun|]. split; [exact Hbps|].
  split; [rewrite Hbps; apply lookup_delete_eq|].
  intros es2 reverse2 w2 pending2 result2 Hnone Hq2 Hg2.
  pose proof (continueExecution_run es2 reverse2 w2 B pending2 Hq2) as H.
  rewrite Hg2 in H. destruct H as (es3 & t2 & Hrun2 & _ & _ & _ & Hbps2).
  unfold isEnabledPhpTemporaryBreakpoint, isEnabledPhpBreakpoint in Hrun2, Hbps2.
  rewrite Hnone in Hrun2, Hbps2. by exists es3, (addTrace w2 t2).
Qed.

Lemma temporary_breakpoint_one_shot_witness :
  ∃ es1 w1,
    continueExecution sessionAtT1 false quietWorld = Ret ("t1", true, es1, w1)
    ∧ breakpoints es1 = delete "t1" (breakpoints sessionAtT1)
    ∧ breakpoints es1 !! "t1" = None
    ∧ ∀ (es2 : engineState) (reverse2 : bool) (w2 : world)
        (pending2 : list string) (result2 : gmap string value),
        breakpoints es2 !! "t1" = None →
        breakStopNotify es2 = "t1" :: pending2 →
        gdbSession es2 (sentCommands (trace w2)) "exec-continue"
          (if reverse2 then ["--reverse"] else []) = inl result2 →
        ∃ es3 w3,
          continueExecution es2 reverse2 w2 = Ret ("t1", false, es3, w3)
          ∧ breakpoints es3 = breakpoints es2.
Proof.
  apply (temporary_breakpoint_one_shot sessionAtT1 false quietWorld "t1"
           ["t1"] (temporaryAt "t1") {[ "class" := VString "running" ]});
    reflexivity.
Defined.

(** The scenario of the specification, run twice in a row. *)
Example temporary_breakpoint_scenario :
  match continueExecution sessionAtT1 false quietWorld with
  | Ret (breakID, hit, es1, w1) =>
      breakID = "t1" ∧ hit = true ∧ breakpoints es1 !! "t1" = None
      ∧ status es1 = statusBreak
      ∧ match continueExecution es1 false w1 with
        | Ret (breakID2, hit2, _, _) => breakID2 = "t1" ∧ hit2 = false
        | _ => False
        end
  | _ => False
  end.
Proof. vm_compute. repeat split. Qed.

(** ** The native-debugger adapter *)

Lemma ifaceEqString_true v s :
  ifaceEqString v s = true ↔ v = Some (VString s).
Proof.
  unfold ifaceEqString. destruct v as [[t| |]|]; try (split; discriminate).
  rewrite bool_decide_eq_true. split; [by intros ->|by intros [= ->]].
Qed.

Lemma ifaceEqString_false v s :
  ifaceEqString v s = false ↔ v ≠ Some (VString s).
Proof.
  rewrite <- ifaceEqString_true. destruct (ifaceEqString v s); split; try done.
Qed.

Lemma panicWith_nonempty prefix s :
  prefix ≠ EmptyString → ∃ msg, panicWith (prefix +:+ s) = Panic (PanicWith msg).
Proof.
  intros Hne. unfold panicWith. case_decide as H; [by eexists|].
  destruct prefix as [|a prefix]; [done|].
  change (String a (prefix +:+ s) = EmptyString) in H. discriminate H.
Qed.

(** What [xGdbCmdValue] does with the record that gdb returns. *)
Lemma xGdbCmdValue_run (gdbSession : Gdb) (expression : string) (w : world)
    (result : gmap string value) :
  gdbSession (sentCommands (trace w)) "data-evaluate-expression" [expression]
  = inl result →
  if ifaceEqString (result !! "class") "done" then
    match result !! "payload" with
    | Some (VMap payload) =>
        match payload !! "value" with
        | Some (VString s) =>
            ∃ w', xGdbCmdValue gdbSession expression w = Ret (s, w')
        | _ => xGdbCmdValue gdbSession expression w = Panic InterfaceConversion
        end
    | _ => xGdbCmdValue gdbSession expression w = Panic InterfaceConversion
    end
  else ∃ msg, xGdbCmdValue gdbSession expression w = Panic (PanicWith msg).
Proof.
  intros Hg. unfold xGdbCmdValue.
  pose proof (sendGdbCommand_run gdbSession "data-evaluate-expression"
                [expression] w) as Hsend.
  rewrite Hg in Hsend. destruct Hsend as (t & Hs & _).
  erewrite bind_Ret by exact Hs. cbv zeta.
  destruct (result !! "class") as [c|] eqn:Hc.
  - rewrite bool_decide_eq_true_2 by eauto. cbn [negb].
    erewrite bind_Ret by reflexivity.
    destruct (ifaceEqString (Some c) "done") eqn:Hd; cbn [negb].
    + erewrite bind_Ret by reflexivity.
      destruct (result !! "payload") as [[?|payload|?]|]; try reflexivity.
      erewrite bind_Ret by reflexivity.
      destruct (payload !! "value") as [[s| |]|]; try reflexivity.
      erewrite bind_Ret by reflexivity. by eexists.
    + destruct (panicWith_nonempty "Not completed the gdb/mi command: "
                  ("data-evaluate-expression " +:+ expression)) as [msg Hm];
        [done|].
      exists msg. apply bind_Panic. unfold lift. by rewrite Hm.
  - rewrite bool_decide_eq_false_2 by (intros [? ?]; done). cbn [negb ifaceEqString].
    destruct (panicWith_nonempty "Could not execute the gdb/mi command: "
                ("data-evaluate-expression " +:+ expression)) as [msg Hm];
      [done|].
    exists msg. apply bind_Panic. unfold lift. by rewrite Hm.
Qed.

(** The claim C9 as it is written fails on the answer [^done] that carries
    no value: the class is [done] and the call panics, at the type assertion
    on the payload. *)
Lemma xGdbCmdValue_done_without_value_panics :
  let result : gmap string value := {[ "class" := VString "done" ]} in
  gdbDoneBare [] "data-evaluate-expression" ["1+1"] = inl result
  ∧ ¬ (panics (xGdbCmdValue gdbDoneBare "1+1" quietWorld)
       ↔ (result !! "class" = None
          ∨ ∃ c, result !! "class" = Some c ∧ c ≠ VString "done")).
Proof.
  split; [reflexivity|]. intros [Hp _].
  destruct Hp as [Hn|(c & Hc & Hne)].
  - by exists InterfaceConversion.
  - discriminate Hn.
  - apply Hne. by injection Hc as <-.
Qed.

(** C9, amended: [xGdbCmdValue] panics exactly when the record that gdb
    returns has no class, a class other than [done], or no payload map with
    a string at [value]; otherwise it returns that string. *)
Theorem xGdbCmdValue_panics_iff (gdbSession : Gdb) (expression : string)
    (w : world) (result : gmap string value) :
  gdbSession (sentCommands (trace w)) "data-evaluate-expression" [expression]
  = inl result →
  (panics (xGdbCmdValue gdbSession expression w)
   ↔ (result !! "class" = None
      ∨ (∃ c, result !! "class" = Some c ∧ c ≠ VString "done")
      ∨ ¬ ∃ payload s, result !! "payload" = Some (VMap payload)
                       ∧ payload !! "value" = Some (VString s)))
  ∧ (∀ payload s,
       result !! "class" = Some (VString "done") →
       result !! "payload" = Some (VMap payload) →
       payload !! "value" = Some (VString s) →
       ∃ w', xGdbCmdValue gdbSession expression w = Ret (s, w')).
Proof.
  intros Hg. pose proof (xGdbCmdValue_run gdbSession expression w result Hg) as H.
  split.
  - destruct (ifaceEqString (result !! "class") "done") eqn:Hd.
    + apply ifaceEqString_true in Hd.
      destruct (result !! "payload") as [[?|payload|?]|] eqn:Hp.
      2: destruct (payload !! "value") as [[s| |]|] eqn:Hv.
      2: { destruct H as [w' H]. split.
           - intros [v Hv']. congruence.
           - intros [Hn|[(c & Hc & Hne)|Hno]]; [congruence|congruence|].
             exfalso. apply Hno. eauto. }
      all: split; [intros _; right; right; intros (p & s' & ? & ?); congruence|].
      all: intros _; by eexists.
    + apply ifaceEqString_false in Hd. destruct H as [msg H]. split.
      * intros _. destruct (result !! "class") as [c|]; [|by left].
        right; left. exists c. split; [done|]. congruence.
      * intros _. by eexists.
  - intros payload s Hc Hp Hv.
    apply ifaceEqString_true in Hc. by rewrite Hc, Hp, Hv in H.
Qed.

Lemma xGdbCmdValue_panics_iff_witness :
  ∃ w', xGdbCmdValue (gdbDoneValue "0x1 ab") "name" verboseWorld
        = Ret ("0x1 ab", w').
Proof.
  exact (proj2 (xGdbCmdValue_panics_iff (gdbDoneValue "0x1 ab") "name"
                  verboseWorld _ eq_refl)
           {[ "value" := VString "0x1 ab" ]} "0x1 ab" eq_refl eq_refl eq_refl).
Defined.

(** ** Unquoting the strings of gdb *)

Example unquote_greeting : unquoteGdbStringResult escapedGreeting = Ret greeting.
Proof. reflexivity. Qed.

Example unquote_empty : unquoteGdbStringResult EmptyString = Ret EmptyString.
Proof. reflexivity. Qed.

Example parse_greeting :
  parseGdbStringResponse (gdbStringValue escapedGreeting) = Ret (greeting, None).
Proof. reflexivity. Qed.

Example parse_empty_string :
  parseGdbStringResponse (gdbStringValue EmptyString) = Ret (EmptyString, None).
Proof. reflexivity. Qed.


(** ** Strings as byte sequences *)

Lemma app_nil_l_s (s : string) : EmptyString +:+ s = s.
Proof. reflexivity. Qed.

Lemma app_cons_s b (s t : string) : String b s +:+ t = String b (s +:+ t).
Proof. reflexivity. Qed.

Lemma app_nil_r_s (s : string) : s +:+ EmptyString = s.
Proof. induction s as [|b s IH]; [done|]. by rewrite app_cons_s, IH. Qed.

Lemma app_assoc_s (s t u : string) : (s +:+ t) +:+ u = s +:+ t +:+ u.
Proof. induction s as [|b s IH]; [done|]. by rewrite !app_cons_s, IH. Qed.

Lemma len_cons b (s : string) : len (String b s) = S (len s).
Proof. reflexivity. Qed.

Lemma len_app (s t : string) : len (s +:+ t) = len s + len t.
Proof.
  induction s as [|b s IH]; [done|].
  rewrite app_cons_s, !len_cons, IH. done.
Qed.

Lemma stake_app (s t : string) : stake (len s) (s +:+ t) = s.
Proof.
  induction s as [|b s IH]; [by destruct t|].
  rewrite app_cons_s, len_cons. cbn [stake]. by rewrite IH.
Qed.

Lemma sdrop_app (s t : string) : sdrop (len s) (s +:+ t) = t.
Proof.
  induction s as [|b s IH]; [by destruct t|].
  rewrite app_cons_s, len_cons. cbn [sdrop]. exact IH.
Qed.

Lemma stake_sdrop (n : nat) (s : string) : stake n s +:+ sdrop n s = s.
Proof.
  revert s. induction n as [|n IH]; intros [|b s]; try done.
  cbn [stake sdrop]. by rewrite app_cons_s, IH.
Qed.

Lemma prefix_app (s t : string) : String.prefix s (s +:+ t) = true.
Proof.
  induction s as [|b s IH]; [by destruct t|]. rewrite app_cons_s. cbn.
  destruct (ascii_dec b b); [exact IH|done].
Qed.

(** ** [strconv]: [Itoa] writes what [Atoi] reads *)

Lemma byteZ_range b : (0 ≤ byteZ b < 256)%Z.
Proof.
  unfold byteZ. pose proof (N_ascii_bounded b). lia.
Qed.

Lemma byteZ_byteOf n : (0 ≤ n < 256)%Z → byteZ (byteOf n) = n.
Proof.
  intros H. unfold byteZ, byteOf. rewrite Z.mod_small by done.
  rewrite N_ascii_embedding by lia. lia.
Qed.

Lemma byteOf_byteZ b : byteOf (byteZ b) = b.
Proof.
  unfold byteZ, byteOf. pose proof (N_ascii_bounded b).
  rewrite Z.mod_small by lia. rewrite N2Z.id. apply ascii_N_embedding.
Qed.

Lemma byteZ_inj b1 b2 : byteZ b1 = byteZ b2 → b1 = b2.
Proof. intros H. by rewrite <- (byteOf_byteZ b1), H, byteOf_byteZ. Qed.

Import Strconv.

Lemma mod10_digit u : (0 ≤ u mod 10 ≤ 9)%Z.
Proof. pose proof (Z.mod_pos_bound u 10). lia. Qed.

Lemma digit_value d :
  (0 ≤ d ≤ 9)%Z → ((byteZ (digitByte d) - 48) mod 256)%Z = d.
Proof.
  intros H. unfold digitByte. rewrite byteZ_byteOf by lia.
  rewrite Z.mod_small; lia.
Qed.

Lemma digitByte_not_nul d : (0 ≤ d ≤ 9)%Z → digitByte d ≠ nulByte.
Proof.
  intros H Heq. apply (f_equal byteZ) in Heq.
  unfold digitByte in Heq. rewrite byteZ_byteOf in Heq by lia.
  change (byteZ nulByte) with 0%Z in Heq. lia.
Qed.

Lemma parseDigits_app a s t :
  parseDigits a (s +:+ t)
  = match parseDigits a s with
    | Some a' => parseDigits a' t
    | None => None
    end.
Proof.
  revert a. induction s as [|b s IH]; intros a; [done|].
  rewrite app_cons_s. cbn [parseDigits].
  destruct (9 <? _)%Z; [done|]. apply IH.
Qed.

Lemma formatBits_acc fuel u acc :
  formatBits fuel u acc = formatBits fuel u EmptyString +:+ acc.
Proof.
  revert u acc. induction fuel as [|fuel IH]; intros u acc; cbn [formatBits].
  - done.
  - destruct (u <? 10)%Z; [done|].
    rewrite (IH _ (String _ acc)), (IH _ (String _ EmptyString)).
    by rewrite app_assoc_s.
Qed.

Lemma parse_digit a d :
  (0 ≤ d ≤ 9)%Z →
  parseDigits a (String (digitByte d) EmptyString) = Some (a * 10 + d)%Z.
Proof.
  intros H. cbn [parseDigits]. rewrite digit_value by done.
  destruct (9 <? d)%Z eqn:E; [lia|done].
Qed.

(** Reading back the digits that [formatBits] writes for [u] continues
    the number read so far with [u]. *)
Lemma parseDigits_formatBits fuel u :
  (0 ≤ u < 2 ^ Z.of_nat (S fuel))%Z →
  ∃ m, ∀ a,
    parseDigits a (formatBits fuel u EmptyString) = Some (a * m + u)%Z.
Proof.
  revert u. induction fuel as [|fuel IH]; intros u Hu.
  - exists 10%Z. intros a. cbn [formatBits].
    change (2 ^ Z.of_nat 1)%Z with 2%Z in Hu.
    rewrite Z.mod_small by lia. apply parse_digit. lia.
  - cbn [formatBits]. destruct (u <? 10)%Z eqn:E.
    + exists 10%Z. intros a. rewrite Z.mod_small by lia.
      apply parse_digit. lia.
    + apply Z.ltb_ge in E.
      destruct (IH (u / 10)%Z) as [m Hm].
      { split; [apply Z.div_pos; lia|].
        apply Z.div_lt_upper_bound; [lia|].
        rewrite (Nat2Z.inj_succ (S fuel)), Z.pow_succ_r in Hu by lia. lia. }
      exists (m * 10)%Z. intros a.
      rewrite formatBits_acc, parseDigits_app, Hm.
      rewrite parse_digit by apply mod10_digit.
      f_equal. pose proof (Z.div_mod u 10). lia.
Qed.

Lemma log2_fuel u : (0 ≤ u)%Z → (u < 2 ^ Z.of_nat (S (Z.to_nat (Z.log2 u))))%Z.
Proof.
  intros H. rewrite Nat2Z.inj_succ, Z2Nat.id by apply Z.log2_nonneg.
  destruct (decide (u = 0%Z)) as [->|Hne]; [done|].
  apply Z.log2_spec. lia.
Qed.

Lemma parseDigits_FormatUint u :
  (0 ≤ u)%Z → parseDigits 0 (FormatUint u) = Some u.
Proof.
  intros H. unfold FormatUint.
  destruct (parseDigits_formatBits (Z.to_nat (Z.log2 u)) u) as [m Hm].
  { split; [done|]. by apply log2_fuel. }
  rewrite Hm. f_equal; lia.
Qed.


Lemma allBytes_app p s t :
  allBytes p (s +:+ t) = allBytes p s && allBytes p t.
Proof.
  induction s as [|b s IH]; [done|]. rewrite app_cons_s. cbn.
  by rewrite IH, andb_assoc.
Qed.


Lemma isDigitByte_digitByte d : (0 ≤ d ≤ 9)%Z → isDigitByte (digitByte d) = true.
Proof.
  intros H. unfold isDigitByte, digitByte. rewrite byteZ_byteOf by lia.
  apply bool_decide_eq_true. lia.
Qed.

Lemma formatBits_digits fuel u :
  (0 ≤ u)%Z → allBytes isDigitByte (formatBits fuel u EmptyString) = true.
Proof.
  revert u. induction fuel as [|fuel IH]; intros u Hu; cbn [formatBits].
  - cbn. rewrite isDigitByte_digitByte; [done|]. apply mod10_digit.
  - destruct (u <? 10)%Z.
    + cbn. rewrite isDigitByte_digitByte; [done|]. apply mod10_digit.
    + rewrite formatBits_acc, allBytes_app, IH by (apply Z.div_pos; lia).
      cbn. rewrite isDigitByte_digitByte; [done|]. apply mod10_digit.
Qed.

Lemma formatBits_nonempty fuel u acc : formatBits fuel u acc ≠ EmptyString.
Proof.
  revert u acc. induction fuel as [|fuel IH]; intros u acc; cbn [formatBits].
  - done.
  - destruct (u <? 10)%Z; [done|apply IH].
Qed.

Lemma Itoa_nonneg u : (0 ≤ u)%Z → Itoa u = FormatUint u.
Proof. intros H. unfold Itoa. destruct (u <? 0)%Z eqn:E; [lia|done]. Qed.

(** [Atoi] reads back what [Itoa] writes, for every 64-bit [int]. *)
Lemma Atoi_Itoa i : (minInt ≤ i ≤ maxInt)%Z → Atoi (Itoa i) = inl i.
Proof.
  intros Hi. unfold Itoa. destruct (i <? 0)%Z eqn:E.
  - apply Z.ltb_lt in E. unfold Atoi.
    destruct (decide (minusByte = minusByte ∨ minusByte = plusByte))
      as [_|Hn]; [|by destruct Hn; left].
    pose proof (parseDigits_FormatUint (- i)%Z ltac:(lia)) as Hp.
    destruct (FormatUint (- i)) as [|b s] eqn:Hf.
    { by apply formatBits_nonempty in Hf. }
    rewrite Hp.
    destruct (decide (minusByte = minusByte)) as [_|Hn]; [|done].
    rewrite Z.opp_involutive. by rewrite decide_True.
  - apply Z.ltb_ge in E.
    pose proof (parseDigits_FormatUint i E) as Hp.
    pose proof (formatBits_digits (Z.to_nat (Z.log2 i)) i E) as Hd.
    fold (FormatUint i) in Hd.
    destruct (FormatUint i) as [|b s] eqn:Hf.
    { by apply formatBits_nonempty in Hf. }
    unfold Atoi. cbn [allBytes] in Hd. apply andb_true_iff in Hd as [Hb _].
    unfold isDigitByte in Hb. apply bool_decide_eq_true in Hb.
    destruct (decide (b = minusByte ∨ b = plusByte)) as [[->| ->]|_].
    { change (byteZ minusByte) with 45%Z in Hb. lia. }
    { change (byteZ plusByte) with 43%Z in Hb. lia. }
    rewrite Hp.
    destruct (decide (b = minusByte)) as [->|_].
    { change (byteZ minusByte) with 45%Z in Hb. lia. }
    by rewrite decide_True.
Qed.


(** ** The DBGp packet *)

Lemma splitAtNul_app (s rest : string) :
  allBytes (λ b, bool_decide (b ≠ nulByte)) s = true →
  splitAtNul (s +:+ String nulByte rest) = Some (s, rest).
Proof.
  induction s as [|b s IH]; intros H.
  - rewrite app_nil_l_s. cbn [splitAtNul]. by rewrite decide_True.
  - cbn [allBytes] in H. apply andb_true_iff in H as [Hb Hs].
    apply bool_decide_eq_true in Hb.
    rewrite app_cons_s. cbn [splitAtNul].
    rewrite decide_False by done. by rewrite IH.
Qed.

Lemma allBytes_impl (p q : ascii → bool) s :
  (∀ b, p b = true → q b = true) → allBytes p s = true → allBytes q s = true.
Proof.
  intros Hpq. induction s as [|b s IH]; [done|]. cbn.
  rewrite !andb_true_iff. intros [? ?]. auto.
Qed.

Lemma digit_not_nul b : isDigitByte b = true → bool_decide (b ≠ nulByte) = true.
Proof.
  unfold isDigitByte. rewrite !bool_decide_eq_true. intros H ->.
  change (byteZ nulByte) with 0%Z in H. lia.
Qed.

Lemma Itoa_digits n :
  (0 ≤ n)%Z → allBytes isDigitByte (Itoa n) = true ∧ Itoa n ≠ EmptyString
              ∧ parseDigits 0 (Itoa n) = Some n.
Proof.
  intros H. rewrite Itoa_nonneg by done. split; [|split].
  - by apply formatBits_digits.
  - apply formatBits_nonempty.
  - by apply parseDigits_FormatUint.
Qed.

Lemma constructDbgpPacket_eq (payload : string) :
  constructDbgpPacket payload
  = Itoa (Z.of_nat (len headerXML + len payload))
    +:+ String nulByte (headerXML +:+ payload +:+ str1 nulByte).
Proof.
  unfold constructDbgpPacket. cbv zeta.
  rewrite app_nil_l_s, !app_assoc_s. by rewrite (Nat.add_comm (len payload)).
Qed.

(** C2: the header is the XML declaration of 44 bytes, the last of them the
    newline, that the code has (its bytes are given by their codes: the text
    holds double quotes).  The packet is the decimal length of header and
    payload, a zero byte, the header, the payload and a zero byte; the length
    prefix holds decimal digits only, and a reader that takes it, skips the
    zero byte, reads that many bytes and strips the header gets the payload
    back. *)
Theorem constructDbgpPacket_round_trip (P : string) :
  map byteZ (String.list_ascii_of_string headerXML)
  = [60; 63; 120; 109; 108; 32; 118; 101; 114; 115; 105; 111; 110; 61; 34;
     49; 46; 48; 34; 32; 101; 110; 99; 111; 100; 105; 110; 103; 61; 34;
     105; 115; 111; 45; 56; 56; 53; 57; 45; 49; 34; 63; 62; 10]%Z
  ∧ len headerXML = 44
  ∧ byteZ nulByte = 0%Z
  ∧ constructDbgpPacket P
    = Itoa (Z.of_nat (len headerXML + len P)) +:+ str1 nulByte +:+ headerXML
      +:+ P +:+ str1 nulByte
  ∧ allBytes isDigitByte (Itoa (Z.of_nat (len headerXML + len P))) = true
  ∧ declaredLength (constructDbgpPacket P)
    = Some (Z.of_nat (len headerXML + len P))
  ∧ readDbgpPacket (constructDbgpPacket P) = Some P.
Proof.
  split; [reflexivity|]. split; [reflexivity|]. split; [reflexivity|].
  rewrite constructDbgpPacket_eq.
  set (n := Z.of_nat (len headerXML + len P)).
  destruct (Itoa_digits n ltac:(lia)) as (Hd & Hne & Hp).
  assert (Hsplit : splitAtNul (Itoa n +:+ String nulByte
                                 (headerXML +:+ P +:+ str1 nulByte))
                   = Some (Itoa n, headerXML +:+ P +:+ str1 nulByte)).
  { apply splitAtNul_app. eapply allBytes_impl; [apply digit_not_nul|done]. }
  assert (Hlen : declaredLength (Itoa n +:+ String nulByte
                                   (headerXML +:+ P +:+ str1 nulByte))
                 = Some n).
  { unfold declaredLength. rewrite Hsplit.
    destruct (Itoa n) as [|b p]; [done|exact Hp]. }
  split; [reflexivity|]. split; [exact Hd|]. split; [exact Hlen|].
  unfold readDbgpPacket. rewrite Hsplit, Hlen.
  rewrite <- app_assoc_s.
  assert (Hn : Z.to_nat n = len (headerXML +:+ P))
    by (rewrite len_app; unfold n; lia).
  rewrite decide_True by (rewrite len_app, <- Hn; lia).
  rewrite Hn, stake_app, prefix_app. by rewrite sdrop_app.
Qed.

Example constructDbgpPacket_init :
  constructDbgpPacket "<init/>"
  = "51" +:+ str1 nulByte +:+ headerXML +:+ "<init/>" +:+ str1 nulByte.
Proof. reflexivity. Qed.

(** ** [unicode/utf8]: decoding *)

Import Utf8.

Lemma at_app_l (x y : string) (j : nat) : j < len x → at_ (x +:+ y) j = at_ x j.
Proof.
  revert j. induction x as [|b x IH]; intros j Hj; [cbn in Hj; lia|].
  rewrite app_cons_s. destruct j as [|j]; [done|].
  rewrite len_cons in Hj. unfold at_ in *. cbn [String.get].
  apply IH. lia.
Qed.

Lemma at_app_r (x y : string) (j : nat) :
  len x ≤ j → at_ (x +:+ y) j = at_ y (j - len x).
Proof.
  revert j. induction x as [|b x IH]; intros j Hj.
  - rewrite app_nil_l_s. f_equal. cbn. lia.
  - rewrite app_cons_s, len_cons in *. destruct j as [|j]; [lia|].
    unfold at_ in *. cbn [String.get]. rewrite IH by lia. done.
Qed.

Lemma at_cons_0 b (s : string) : at_ (String b s) 0 = byteZ b.
Proof. reflexivity. Qed.

Lemma at_cons_S b (s : string) j : at_ (String b s) (S j) = at_ s j.
Proof. reflexivity. Qed.

Lemma at_range (s : string) j : (0 ≤ at_ s j < 256)%Z.
Proof.
  unfold at_. destruct (String.get j s); [apply byteZ_range|lia].
Qed.

(** What the table [first] holds for a byte: it is ASCII, or it starts no
    encoding, or it starts an encoding of [sz] bytes whose second byte lies
    between [lo] and [hi]. *)
Lemma first_info (b : Z) :
  ((b < 0x80)%Z ∧ first b = as_)
  ∨ ((0x80 ≤ b)%Z ∧ first b = xx)
  ∨ ∃ sz lo hi,
      (0xC2 ≤ b ≤ 0xF4)%Z
      ∧ (as_ <=? first b)%Z = false
      ∧ Z.land (first b) 7 = sz
      ∧ acceptRanges (Z.shiftr (first b) 4) = (lo, hi)
      ∧ (2 ≤ sz ≤ 4)%Z ∧ (0x80 ≤ lo)%Z ∧ (hi ≤ 0xBF)%Z.
Proof.
  unfold first.
  repeat (match goal with
          | |- context [(?x <? ?y)%Z] => destruct (Z.ltb_spec x y)
          | |- context [(?x =? ?y)%Z] => destruct (Z.eqb_spec x y)
          end; cbv beta iota);
    first [ left; split; [lia|reflexivity]
          | right; left; split; [lia|reflexivity]
          | right; right; eexists _, _, _;
            split; [lia|]; split; [reflexivity|]; split; [reflexivity|];
            split; [reflexivity|]; vm_compute; intuition discriminate ].
Qed.

Definition isCont (b : Z) : Prop := (0x80 ≤ b ≤ 0xBF)%Z.

(** [DecodeRuneInString] as a function of the length and the first four
    bytes. *)
Lemma Decode_eq (s : string) :
  DecodeRuneInString s
  = (let n := Z.of_nat (len s) in
     if (n <? 1)%Z then (RuneError, 0)
     else
       let s0 := at_ s 0 in
       let x := first s0 in
       if (as_ <=? x)%Z then ((if (x =? xx)%Z then RuneError else s0), 1)
       else
         let sz := Z.land x 7 in
         let accept := acceptRanges (Z.shiftr x 4) in
         if (n <? sz)%Z then (RuneError, 1)
         else
           let b1 := at_ s 1 in
           if ((b1 <? accept.1) || (accept.2 <? b1))%Z then (RuneError, 1)
           else if (sz <=? 2)%Z then
             (Z.lor (Z.shiftl (Z.land s0 mask2) 6) (Z.land b1 maskx), 2)
           else
             let b2 := at_ s 2 in
             if ((b2 <? locb) || (hicb <? b2))%Z then (RuneError, 1)
             else if (sz <=? 3)%Z then
               (Z.lor (Z.lor (Z.shiftl (Z.land s0 mask3) 12)
                             (Z.shiftl (Z.land b1 maskx) 6))
                      (Z.land b2 maskx), 3)
             else
               let b3 := at_ s 3 in
               if ((b3 <? locb) || (hicb <? b3))%Z then (RuneError, 1)
               else
                 (Z.lor (Z.lor (Z.lor (Z.shiftl (Z.land s0 mask4) 18)
                                      (Z.shiftl (Z.land b1 maskx) 12))
                               (Z.shiftl (Z.land b2 maskx) 6))
                        (Z.land b3 maskx), 4)).
Proof. reflexivity. Qed.

(** Case analysis on the comparisons of the decoder, pruning the branches
    not taken. *)
Ltac decode_split :=
  repeat (match goal with
          | |- context [(?x <? ?y)%Z] => destruct (Z.ltb_spec x y)
          | |- context [(?x <=? ?y)%Z] => destruct (Z.leb_spec x y)
          | |- context [(?x =? ?y)%Z] => destruct (Z.eqb_spec x y)
          end; cbn [orb fst snd]; cbv beta iota).

(** Case analysis on the class of the first byte [b0]. *)
Ltac decode_first b0 :=
  let H := fresh "Hfirst" in
  let Hb := fresh "Hb0" in
  let Hx := fresh "Hx" in
  destruct (first_info b0) as [[Hb Hx]|[[Hb Hx]|H]];
  [ rewrite Hx; change (as_ <=? as_)%Z with true;
    change (as_ =? xx)%Z with false; cbv beta iota
  | rewrite Hx; change (as_ <=? xx)%Z with true;
    change (xx =? xx)%Z with true; cbv beta iota
  | let sz := fresh "sz" in
    let lo := fresh "lo" in
    let hi := fresh "hi" in
    let Has := fresh "Has" in
    let Hsz := fresh "Hsz" in
    let Hacc := fresh "Hacc" in
    let Hszb := fresh "Hszb" in
    let Hlo := fresh "Hlo" in
    let Hhi := fresh "Hhi" in
    destruct H as (sz & lo & hi & Hb & Has & Hsz & Hacc & Hszb & Hlo & Hhi);
    rewrite Has, Hsz, Hacc; cbn [fst snd]; cbv beta iota;
    unfold locb, hicb in * ].

(** The width is at least one and at most the length of the string. *)
Lemma Decode_width (s : string) c w :
  s ≠ EmptyString → DecodeRuneInString s = (c, w) → 1 ≤ w ≤ len s ∧ w ≤ 4.
Proof.
  intros Hne. assert (1 ≤ len s) as Hlen by (destruct s; [done|rewrite len_cons; lia]).
  rewrite Decode_eq. cbv zeta.
  destruct (Z.ltb_spec (Z.of_nat (len s)) 1); [lia|].
  decode_first (at_ s 0).
  - intros [= <- <-]. lia.
  - intros [= <- <-]. lia.
  - decode_split; intros [= <- <-]; lia.
Qed.

(** The bytes of an encoding after the first are continuation bytes. *)
Lemma Decode_cont (s : string) c w j :
  DecodeRuneInString s = (c, w) → 1 ≤ j < w → isCont (at_ s j).
Proof.
  rewrite Decode_eq. cbv zeta.
  destruct (Z.ltb_spec (Z.of_nat (len s)) 1); [intros [= <- <-]; lia|].
  decode_first (at_ s 0).
  - intros [= <- <-]. lia.
  - intros [= <- <-]. lia.
  - decode_split; intros [= <- <-]; intros Hj;
      destruct j as [|[|[|[|j]]]]; try lia; unfold isCont; lia.
Qed.

(** A string that starts with an ASCII byte decodes to that byte. *)
Lemma Decode_ascii (s : string) :
  s ≠ EmptyString → (at_ s 0 < 0x80)%Z → DecodeRuneInString s = (at_ s 0, 1).
Proof.
  intros Hne Hb. assert (1 ≤ len s) by (destruct s; [done|rewrite len_cons; lia]).
  rewrite Decode_eq. cbv zeta.
  destruct (Z.ltb_spec (Z.of_nat (len s)) 1); [lia|].
  decode_first (at_ s 0); [done|lia|lia].
Qed.

(** A rune other than [RuneError] does not start at a continuation byte. *)
Lemma Decode_start (s : string) c w :
  DecodeRuneInString s = (c, w) → c ≠ RuneError → ¬ isCont (at_ s 0).
Proof.
  rewrite Decode_eq. cbv zeta.
  destruct (Z.ltb_spec (Z.of_nat (len s)) 1); [by intros [= <- <-]|].
  unfold isCont. decode_first (at_ s 0).
  - intros _ _. lia.
  - by intros [= <- <-].
  - intros _ _. lia.
Qed.

(** Decoding looks at the bytes of the rune only: the bytes after it can
    be cut off. *)
Lemma Decode_trunc (x y : string) c w :
  x ≠ EmptyString → DecodeRuneInString (x +:+ y) = (c, w) → w ≤ len x →
  DecodeRuneInString x = (c, w).
Proof.
  intros Hne. rewrite !Decode_eq. cbv zeta. rewrite len_app.
  destruct x as [|c0 [|c1 [|c2 [|c3 x]]]]; [done|..];
    rewrite ?app_cons_s, ?app_nil_l_s, ?len_cons;
    repeat (rewrite at_cons_S || rewrite at_cons_0).
  all: change (len EmptyString) with 0.
  all: try set (k := len x); try set (m := len y).
  all: repeat match goal with
         | |- context [at_ ?t ?j] =>
             let b := fresh "b" in
             pose proof (at_range t j); set (b := at_ t j) in *; clearbody b
         end.
  all: pose proof (byteZ_range c0).
  all: decode_first (byteZ c0).
  all: decode_split; intros [= <- <-]; intros; first [reflexivity | lia].
Qed.

(** ** More on strings as byte sequences *)

Lemma len_zero (s : string) : len s = 0 → s = EmptyString.
Proof. by destruct s. Qed.

Lemma len_pos (s : string) : s ≠ EmptyString → 1 ≤ len s.
Proof. destruct s; [done|]. rewrite len_cons. lia. Qed.

Lemma sdrop_0 (s : string) : sdrop 0 s = s.
Proof. by destruct s. Qed.

Lemma sdrop_nil n : sdrop n EmptyString = EmptyString.
Proof. by destruct n. Qed.

Lemma sdrop_cons n b (s : string) : sdrop (S n) (String b s) = sdrop n s.
Proof. reflexivity. Qed.

Lemma len_sdrop n (s : string) : len (sdrop n s) = len s - n.
Proof.
  revert s. induction n as [|n IH]; intros s.
  - rewrite sdrop_0. lia.
  - destruct s as [|b s]; [done|]. rewrite sdrop_cons, len_cons, IH. lia.
Qed.

Lemma len_stake n (s : string) : len (stake n s) = n `min` len s.
Proof.
  revert s. induction n as [|n IH]; intros s; [by destruct s|].
  destruct s as [|b s]; [done|]. cbn [stake]. rewrite !len_cons, IH. lia.
Qed.

Lemma stake_all (s : string) : stake (len s) s = s.
Proof.
  induction s as [|b s IH]; [done|]. rewrite len_cons. cbn [stake]. by rewrite IH.
Qed.

Lemma sdrop_all (s : string) n : len s ≤ n → sdrop n s = EmptyString.
Proof.
  intros H. apply len_zero. rewrite len_sdrop. lia.
Qed.

Lemma sdrop_sdrop n m (s : string) : sdrop n (sdrop m s) = sdrop (m + n) s.
Proof.
  revert s. induction m as [|m IH]; intros s; [by rewrite sdrop_0|].
  destruct s as [|b s]; [by rewrite !sdrop_nil|]. by rewrite !sdrop_cons, IH.
Qed.

Lemma sdrop_app_ge n (s t : string) :
  len s ≤ n → sdrop n (s +:+ t) = sdrop (n - len s) t.
Proof.
  revert n. induction s as [|b s IH]; intros n H.
  - rewrite app_nil_l_s. f_equal. cbn. lia.
  - rewrite len_cons in *. destruct n as [|n]; [lia|].
    rewrite app_cons_s, sdrop_cons, IH by lia. done.
Qed.

Lemma sdrop_nonempty n (s : string) : n < len s → sdrop n s ≠ EmptyString.
Proof.
  intros H Heq. apply (f_equal len) in Heq. rewrite len_sdrop in Heq.
  cbn in Heq. lia.
Qed.

Lemma at_sdrop n (s : string) j : at_ (sdrop n s) j = at_ s (n + j).
Proof.
  revert s. induction n as [|n IH]; intros s; [by rewrite sdrop_0|].
  destruct s as [|b s]; [by destruct j|]. by rewrite sdrop_cons, IH.
Qed.

Lemma nonempty_app_l (s t : string) : s ≠ EmptyString → s +:+ t ≠ EmptyString.
Proof. destruct s; [done|]. by rewrite app_cons_s. Qed.

Lemma nonempty_app_r (s t : string) : t ≠ EmptyString → s +:+ t ≠ EmptyString.
Proof.
  intros H Heq. apply (f_equal len) in Heq. rewrite len_app in Heq.
  apply len_pos in H. cbn in Heq. lia.
Qed.

(** ** The runes of a string *)

Lemma runesFrom_pending (s : string) i p :
  p ≤ len s → runesFrom s i p = runesFrom (sdrop p s) (i + p) 0.
Proof.
  revert s i. induction p as [|p IH]; intros s i Hp.
  - rewrite sdrop_0. by rewrite Nat.add_0_r.
  - destruct s as [|b s]; [cbn in Hp; lia|].
    rewrite len_cons in Hp. cbn [runesFrom]. rewrite IH by lia.
    rewrite sdrop_cons. f_equal. lia.
Qed.

Lemma runesFrom_unfold (s : string) i c w :
  s ≠ EmptyString → DecodeRuneInString s = (c, w) →
  runesFrom s i 0 = (i, c, stake w s) :: runesFrom (sdrop w s) (i + w) 0.
Proof.
  intros Hne Hd. pose proof (Decode_width s c w Hne Hd) as [[Hw1 Hw2] _].
  destruct s as [|b s]; [done|]. cbn [runesFrom]. rewrite Hd.
  rewrite len_cons in Hw2. rewrite runesFrom_pending by lia.
  destruct w as [|w]; [lia|]. rewrite sdrop_cons.
  do 2 f_equal; [f_equal; lia|lia].
Qed.

(** Induction on a string along its runes. *)
Lemma rune_ind (P : string → Prop) :
  P EmptyString →
  (∀ s c w, s ≠ EmptyString → DecodeRuneInString s = (c, w) →
            1 ≤ w ≤ len s → P (sdrop w s) → P s) →
  ∀ s, P s.
Proof.
  intros Hnil Hstep s.
  remember (len s) as n eqn:Hn. revert s Hn.
  induction n as [n IH] using lt_wf_ind. intros s ->.
  destruct (decide (s = EmptyString)) as [->|Hne]; [exact Hnil|].
  destruct (DecodeRuneInString s) as [c w] eqn:Hd.
  pose proof (Decode_width s c w Hne Hd) as [Hw _].
  apply (Hstep s c w Hne Hd Hw).
  apply (IH (len (sdrop w s))); [rewrite len_sdrop; lia|done].
Qed.

(** ** Fields are not trimmed *)

Section fields.
Context (f : Z → bool).

Lemma fieldIn_snoc (t bytes rest : string) c :
  fieldIn f t (bytes +:+ rest) →
  bytes ≠ EmptyString →
  DecodeRuneInString (bytes +:+ rest) = (c, len bytes) →
  f c = false →
  fieldIn f (t +:+ bytes) rest.
Proof.
  intros Ht Hne Hd Hf.
  remember (bytes +:+ rest) as r eqn:Hr.
  induction Ht as [r|b t r c' Hb Hd' Hf' Ht IH]; subst r.
  - rewrite app_nil_l_s, <- (app_nil_r_s bytes).
    apply fieldIn_cons with c; [done| |done|constructor].
    by rewrite app_nil_l_s.
  - rewrite app_assoc_s. apply fieldIn_cons with c'; [done| |done|by apply IH].
    by rewrite app_assoc_s.
Qed.

Lemma fieldIn_trunc (t rest : string) : fieldIn f t rest → fieldIn f t EmptyString.
Proof.
  induction 1 as [r|b t r c Hb Hd Hf Ht IH]; [constructor|].
  apply fieldIn_cons with c; [done| |done|done].
  rewrite app_nil_r_s. rewrite <- app_assoc_s in Hd.
  apply Decode_trunc in Hd; [done|by apply nonempty_app_l|].
  rewrite len_app. lia.
Qed.

(** A field can be entered at every byte that is not a continuation
    byte. *)
Lemma fieldIn_align (t rest : string) k :
  fieldIn f t rest → k < len t → ¬ isCont (at_ t k) →
  fieldIn f (sdrop k t) rest.
Proof.
  intros Ht. revert k.
  induction Ht as [r|b t r c Hb Hd Hf Ht IH]; intros k Hk Hc.
  - cbn in Hk. lia.
  - destruct (decide (k = 0)) as [->|Hk0].
    { rewrite sdrop_0. by apply fieldIn_cons with c. }
    destruct (decide (k < len b)) as [Hlt|Hge].
    + exfalso. apply Hc. rewrite at_app_l by done.
      rewrite <- (at_app_l b (t +:+ r)) by done.
      apply (Decode_cont _ c (len b)); [done|lia].
    + rewrite sdrop_app_ge by lia. apply IH.
      * rewrite len_app in Hk. lia.
      * by rewrite at_app_r in Hc by lia.
Qed.

Lemma fieldIn_head (t : string) :
  fieldIn f t EmptyString → t ≠ EmptyString →
  f (DecodeRuneInString t).1 = false.
Proof.
  intros Ht Hne. inversion Ht as [|b t' r c Hb Hd Hf Ht' E1 E2]; [by subst|].
  rewrite app_nil_r_s in Hd. by rewrite Hd.
Qed.

(** The strings that the loop of [FieldsFunc] returns. *)
Lemma fieldsLoop_fieldIn (s : string) :
  ∀ i cur,
    match cur with
    | Some t => t ≠ EmptyString ∧ fieldIn f t s
    | None => True
    end →
    Forall (λ t, t ≠ EmptyString ∧ fieldIn f t EmptyString)
           (Strings.fieldsLoop f (runesFrom s i 0) cur).
Proof.
  induction s as [|s c w Hne Hd Hw IH] using rune_ind; intros i cur Hcur.
  - cbn. destruct cur as [t|]; [|constructor].
    constructor; [|constructor]. done.
  - rewrite (runesFrom_unfold s i c w Hne Hd). cbn [Strings.fieldsLoop].
    destruct (f c) eqn:Hf.
    + destruct cur as [t|].
      * constructor; [|by apply IH].
        destruct Hcur as [Ht1 Ht2]. split; [done|]. by eapply fieldIn_trunc.
      * by apply IH.
    + apply IH. 
      assert (Hb : stake w s ≠ EmptyString).
      { intros Heq. apply (f_equal len) in Heq. rewrite len_stake in Heq.
        cbn in Heq. lia. }
      assert (Hlen : len (stake w s) = w) by (rewrite len_stake; lia).
      split; [by apply nonempty_app_r|].
      apply fieldIn_snoc with c; [|done| |done].
      * rewrite stake_sdrop. destruct cur as [t|]; [apply Hcur|constructor].
      * by rewrite stake_sdrop, Hlen.
Qed.

Lemma FieldsFunc_fieldIn (s : string) :
  Forall (λ t, t ≠ EmptyString ∧ fieldIn f t EmptyString)
         (Strings.FieldsFunc s f).
Proof. by apply fieldsLoop_fieldIn. Qed.

(** [TrimLeftFunc] leaves a field as it is. *)
Lemma TrimLeftFunc_field (t : string) :
  t ≠ EmptyString → fieldIn f t EmptyString → Strings.TrimLeftFunc t f = t.
Proof.
  intros Hne Ht. unfold Strings.TrimLeftFunc, Strings.indexFunc, runes.
  destruct (DecodeRuneInString t) as [c w] eqn:Hd.
  rewrite (runesFrom_unfold t 0 c w Hne Hd). cbn [Strings.indexFuncLoop].
  pose proof (fieldIn_head t Ht Hne) as Hf. rewrite Hd in Hf. cbn in Hf.
  rewrite bool_decide_eq_true_2 by done.
  rewrite decide_False by done. by rewrite sdrop_0.
Qed.
End fields.

Lemma scanBack_le fuel (s : string) start lim :
  (scanBack fuel s start lim ≤ start)%Z.
Proof.
  revert start. induction fuel as [|fuel IH]; intros start; cbn [scanBack]; [lia|].
  destruct (start <? lim)%Z; [lia|].
  destruct (RuneStart _); [lia|]. specialize (IH (start - 1)%Z). lia.
Qed.

(** What [DecodeLastRuneInString] returns for a string that is not empty:
    the width lies within the string; a rune other than [RuneError] is the
    one that decodes at the byte where it starts, which is no continuation
    byte; and the width is the one that decoding forwards finds there. *)
Lemma DecodeLast_cases (t : string) r size :
  t ≠ EmptyString → DecodeLastRuneInString t = (r, size) →
  1 ≤ size ≤ len t
  ∧ (r = RuneError
     ∨ (¬ isCont (at_ t (len t - size))
        ∧ (DecodeRuneInString (sdrop (len t - size) t)).1 = r))
  ∧ ((RuneSelf ≤ at_ t (len t - size))%Z →
     (DecodeRuneInString (sdrop (len t - size) t)).2 = size)
  ∧ ((at_ t (len t - size) < RuneSelf)%Z → size = 1).
Proof.
  intros Hne. pose proof (len_pos t Hne) as Hlen.
  unfold DecodeLastRuneInString.
  destruct (Z.eqb_spec (Z.of_nat (len t)) 0); [lia|].
  replace (Z.to_nat (Z.of_nat (len t) - 1)) with (len t - 1) by lia.
  assert (Hlast : sdrop (len t - 1) t ≠ EmptyString)
    by (apply sdrop_nonempty; lia).
  destruct (Z.ltb_spec (at_ t (len t - 1)) RuneSelf) as [Hascii|Hhigh].
  - intros [= <- <-]. split; [lia|]. unfold RuneSelf in *.
    split; [|split; [lia|done]].
    right. split; [unfold isCont; lia|].
    rewrite Decode_ascii; [|done|]; rewrite at_sdrop, Nat.add_0_r; done.
  - set (lim := if (Z.of_nat (len t) - UTFMax <? 0)%Z then 0%Z
                else (Z.of_nat (len t) - UTFMax)%Z).
    pose proof (scanBack_le 4 t (Z.of_nat (len t) - 1 - 1) lim) as Hscan.
    set (start0 := scanBack 4 t (Z.of_nat (len t) - 1 - 1) lim) in *.
    clearbody start0.
    set (start := if (start0 <? 0)%Z then 0%Z else start0).
    assert (Hstart : (0 ≤ start ≤ Z.of_nat (len t) - 1)%Z)
      by (subst start; destruct (Z.ltb_spec start0 0); lia).
    clearbody start.
    assert (Hk : sdrop (Z.to_nat start) t ≠ EmptyString)
      by (apply sdrop_nonempty; lia).
    destruct (DecodeRuneInString (sdrop (Z.to_nat start) t)) as [r' size']
      eqn:Hd.
    pose proof (Decode_width _ _ _ Hk Hd) as [Hw _].
    rewrite len_sdrop in Hw.
    case_decide as Hend; intros [= <- <-].
    + replace (len t - size') with (Z.to_nat start) by lia.
      rewrite Hd. cbn [fst snd]. split; [lia|]. split; [|split; [done|]].
      * destruct (decide (r' = RuneError)) as [|Hr]; [by left|right].
        split; [|done]. apply (Decode_start _ _ _ Hd) in Hr.
        by rewrite at_sdrop, Nat.add_0_r in Hr.
      * intros Hasc. unfold RuneSelf in Hasc.
        rewrite Decode_ascii in Hd; [by injection Hd|done|].
        by rewrite at_sdrop, Nat.add_0_r.
    + split; [lia|]. split; [by left|]. split; [|lia].
      intros _. destruct (DecodeRuneInString (sdrop (len t - 1) t)) as [r2 w2]
        eqn:Hd2.
      pose proof (Decode_width _ _ _ Hlast Hd2) as [Hw2 _].
      rewrite len_sdrop in Hw2. cbn. lia.
Qed.

Section fields_right.
Context (f : Z → bool) (HfErr : f RuneError = false).

(** [TrimRightFunc] leaves a field as it is. *)
Lemma TrimRightFunc_field (t : string) :
  t ≠ EmptyString → fieldIn f t EmptyString → Strings.TrimRightFunc t f = t.
Proof.
  intros Hne Ht. pose proof (len_pos t Hne) as Hlen.
  unfold Strings.TrimRightFunc, Strings.lastIndexFunc.
  cbn [Strings.lastIndexFuncLoop].
  destruct (decide (0 < len t)) as [_|?]; [|lia].
  rewrite stake_all.
  destruct (DecodeLastRuneInString t) as [r size] eqn:Hd.
  destruct (DecodeLast_cases t r size Hne Hd) as (Hsz & Hr & Hhigh & Hlow).
  assert (Hfr : f r = false).
  { destruct Hr as [->|[Hc Hr]]; [done|]. rewrite <- Hr.
    apply fieldIn_head; [|apply sdrop_nonempty; lia].
    apply fieldIn_align; [done|lia|done]. }
  rewrite bool_decide_eq_true_2 by done.
  rewrite Nat2Z.id.
  case_decide as Hcase.
  - destruct Hcase as [_ Hcase]. rewrite (Hhigh Hcase).
    replace (Z.to_nat (Z.of_nat (len t - size) + Z.of_nat size)) with (len t)
      by lia.
    apply stake_all.
  - assert (size = 1) as -> by (apply Hlow; lia).
    replace (Z.to_nat (Z.of_nat (len t - 1) + 1)) with (len t) by lia.
    apply stake_all.
Qed.

Lemma TrimFunc_field (t : string) :
  t ≠ EmptyString → fieldIn f t EmptyString → Strings.TrimFunc t f = t.
Proof.
  intros Hne Ht. unfold Strings.TrimFunc.
  rewrite TrimLeftFunc_field by done. by apply TrimRightFunc_field.
Qed.
End fields_right.

(** The fields of a string are not empty, and [TrimSpace] leaves them as
    they are. *)
Lemma Fields_TrimSpace (s : string) :
  Forall (λ t, t ≠ EmptyString ∧ Strings.TrimSpace t = t) (Strings.Fields s).
Proof.
  eapply Forall_impl; [apply FieldsFunc_fieldIn|].
  intros t [Hne Ht]. split; [done|]. by apply TrimFunc_field.
Qed.

(** ** The protocol codec: [parseCommand] *)

Lemma sliceFrom_1 (v : string) : v ≠ EmptyString → sliceFrom v 1 = Ret (sdrop 1 v).
Proof.
  intros H. apply len_pos in H. unfold sliceFrom. by rewrite decide_True by lia.
Qed.

Lemma mod2_succ i :
  (i mod 2 = 1 → S i mod 2 ≠ 1) ∧ (i mod 2 ≠ 1 → S i mod 2 = 1).
Proof.
  pose proof (Nat.div_mod_eq i 2). pose proof (Nat.div_mod_eq (S i) 2).
  pose proof (Nat.mod_upper_bound i 2). pose proof (Nat.mod_upper_bound (S i) 2).
  lia.
Qed.

(** The loop of [parseCommand] binds the flags as the specification says,
    when the tokens are fields: started at an even index it binds the tokens
    left; started at an odd index it skips one token, a value, first. *)
Lemma parseFlagsLoop_bindFlags (components : list string) :
  Forall (λ t, t ≠ EmptyString ∧ Strings.TrimSpace t = t) components →
  ∀ rest pre i flags,
    components = pre ++ rest → length pre = S i →
    parseFlagsLoop components i rest flags
    = Ret (if decide (i mod 2 = 1) then bindFlags (tail rest) flags
           else bindFlags rest flags).
Proof.
  intros Hall. induction rest as [|v rest IH]; intros pre i flags Hc Hpre.
  - cbn. by case_decide.
  - cbn [parseFlagsLoop tail].
    assert (Hv : v ≠ EmptyString ∧ Strings.TrimSpace v = v).
    { rewrite Forall_forall in Hall. apply Hall. subst components.
      apply elem_of_app. right. by left. }
    destruct Hv as [Hv1 Hv2].
    assert (Hc' : components = (pre ++ [v]) ++ rest) by (by rewrite <- app_assoc).
    assert (Hpre' : length (pre ++ [v]) = S (S i))
      by (rewrite length_app; cbn; lia).
    specialize (IH (pre ++ [v]) (S i)).
    destruct (decide (i mod 2 = 1)) as [Hodd|Heven].
    + rewrite (IH flags Hc' Hpre').
      by rewrite decide_False by (by apply mod2_succ).
    + assert (Hodd : S i mod 2 = 1).
      { by apply mod2_succ. }
      rewrite Hv2, sliceFrom_1 by done.
      assert (Hlen : length components = S (S i) + length rest)
        by (subst components; rewrite length_app; cbn; lia).
      destruct rest as [|val rest]; cbn [length] in Hlen.
      * rewrite decide_False by lia. unfold mbind, outcome_bind.
        cbn [parseFlagsLoop bindFlags]. done.
      * rewrite decide_True by lia.
        assert (Hval : components !! (i + 2) = Some val).
        { rewrite Hc', lookup_app_r by lia.
          replace (i + 2 - length (pre ++ [v])) with 0 by lia. done. }
        unfold elemAt. rewrite Hval.
        assert (Hv' : val ≠ EmptyString ∧ Strings.TrimSpace val = val).
        { rewrite Forall_forall in Hall. apply Hall.
          apply list_elem_of_lookup. by exists (i + 2). }
        destruct Hv' as [_ Hv'].
        unfold mbind, outcome_bind. rewrite Hv'.
        rewrite (IH _ Hc' Hpre'). by rewrite decide_True.
Qed.

(** What [parseCommand] does with a line that has a verb: it panics when
    the value bound to [i] is no integer, and returns the command
    otherwise. *)
Lemma parseCommand_run (fullCommand : string) (reverseMode : bool) (w : world)
    (verb : string) (rest : list string) :
  Strings.Fields fullCommand = verb :: rest →
  parseCommand fullCommand reverseMode w
  = let flags := bindFlags rest ∅ in
    let reverseMode :=
      match flags !! "z" with
      | Some r =>
          if decide (r = "1") then true
          else if decide (r = "0") then false
          else reverseMode
      | None => reverseMode
      end in
    match flags !! "i" with
    | None =>
        Ret ({| command := verb; fullCommand := fullCommand; options := flags;
                seqNum := 0; reverse := reverseMode |},
             if VerboseFlag w
             then addTrace w [EvPrint (Plain (noSequenceNumber fullCommand))]
             else w)
    | Some seq =>
        match Strconv.Atoi seq with
        | inl seqInt =>
            Ret ({| command := verb; fullCommand := fullCommand;
                    options := flags; seqNum := seqInt;
                    reverse := reverseMode |}, w)
        | inr err => Panic (PanicIf err)
        end
    end.
Proof.
  intros HF. unfold parseCommand. rewrite HF. cbv zeta.
  erewrite bind_Ret by reflexivity.
  erewrite bind_Ret by reflexivity.
  pose proof (parseFlagsLoop_bindFlags (verb :: rest)) as Hloop.
  rewrite <- HF in Hloop at 1. specialize (Hloop (Fields_TrimSpace _)).
  specialize (Hloop rest [verb] 0 ∅ eq_refl eq_refl).
  rewrite decide_False in Hloop by done.
  change (drop 1 (verb :: rest)) with rest.
  erewrite bind_Ret by (unfold lift; rewrite Hloop; reflexivity).
  destruct (bindFlags rest ∅ !! "i") as [seq|] eqn:Hi.
  - destruct (Strconv.Atoi seq) as [n|err].
    + by erewrite bind_Ret by reflexivity.
    + by erewrite bind_Panic by reflexivity.
  - unfold Verbosef. destruct (VerboseFlag w) eqn:Hv.
    + erewrite bind_Ret.
      2: { erewrite bind_Ret.
           2: { erewrite bind_Ret by (unfold getVerboseFlag; rewrite Hv; reflexivity).
                apply emit_run. }
           reflexivity. }
      reflexivity.
    + erewrite bind_Ret.
      2: { erewrite bind_Ret.
           2: { erewrite bind_Ret by (unfold getVerboseFlag; rewrite Hv; reflexivity).
                reflexivity. }
           reflexivity. }
      reflexivity.
Qed.

Lemma parseCommand_no_verb (fullCommand : string) (reverseMode : bool)
    (w : world) :
  Strings.Fields fullCommand = [] →
  parseCommand fullCommand reverseMode w = Panic IndexOutOfRange.
Proof. intros HF. unfold parseCommand. rewrite HF. reflexivity. Qed.

Lemma fieldsLoop_Some_not_nil f rs t : Strings.fieldsLoop f rs (Some t) ≠ [].
Proof.
  revert t. induction rs as [|[[i c] b] rs IH]; intros t; cbn; [done|].
  destruct (f c); [done|apply IH].
Qed.

Lemma fieldsLoop_None_nil f rs :
  Strings.fieldsLoop f rs None = [] ↔ forallb (λ r, f r.1.2) rs = true.
Proof.
  induction rs as [|[[i c] b] rs IH]; cbn; [done|].
  destruct (f c); cbn; [exact IH|].
  split; [|done]. intros H. by apply fieldsLoop_Some_not_nil in H.
Qed.

(** A string has no field exactly when all its runes are white space. *)
Lemma Fields_nil_iff (s : string) :
  Strings.Fields s = [] ↔ onlyWhiteSpace s = true.
Proof. apply fieldsLoop_None_nil. Qed.

(** C10: a line that is empty or holds white space only has no token, and
    [parseCommand] panics on it, at [components[0]]; these are the only
    lines without a token. *)
Theorem parseCommand_blank_line (fullCommand : string) (reverseMode : bool)
    (w : world) :
  onlyWhiteSpace fullCommand = true →
  Strings.Fields fullCommand = []
  ∧ parseCommand fullCommand reverseMode w = Panic IndexOutOfRange
  ∧ ∀ line, Strings.Fields line = [] → onlyWhiteSpace line = true.
Proof.
  intros H. apply Fields_nil_iff in H. split; [done|].
  split; [by apply parseCommand_no_verb|].
  intros line. apply Fields_nil_iff.
Qed.

Lemma parseCommand_blank_line_witness :
  Strings.Fields "  " = []
  ∧ parseCommand "  " true quietWorld = Panic IndexOutOfRange
  ∧ ∀ line, Strings.Fields line = [] → onlyWhiteSpace line = true.
Proof. apply (parseCommand_blank_line "  " true quietWorld). reflexivity. Defined.

Example parseCommand_empty_line :
  parseCommand EmptyString false quietWorld = Panic IndexOutOfRange.
Proof. reflexivity. Qed.

(** C5: for a line with at least one token, the first token is the verb and
    the loop of [parseCommand] binds the tokens after it in pairs, the flag
    without its first byte to the value, and a last flag without value to the
    empty string; the command returned holds that verb and those options, and
    one is returned unless the value bound to [i] is no integer. *)
Theorem parseCommand_tokens (fullCommand : string) (reverseMode : bool)
    (w : world) (verb : string) (rest : list string) :
  Strings.Fields fullCommand = verb :: rest →
  parseFlagsLoop (verb :: rest) 0 rest ∅ = Ret (bindFlags rest ∅)
  ∧ (∀ cmd w', parseCommand fullCommand reverseMode w = Ret (cmd, w') →
               command cmd = verb ∧ options cmd = bindFlags rest ∅)
  ∧ ((∀ seq, bindFlags rest ∅ !! "i" = Some seq →
             ∃ n, Strconv.Atoi seq = inl n) →
     returns (parseCommand fullCommand reverseMode w))
  ∧ parseCommand "step_into -i 5" false w
    = Ret ({| command := "step_into"; fullCommand := "step_into -i 5";
              options := {[ "i" := "5" ]}; seqNum := 5; reverse := false |},
           w).
Proof.
  intros HF. split; [|split; [|split]].
  - pose proof (parseFlagsLoop_bindFlags (verb :: rest)) as Hloop.
    rewrite <- HF in Hloop at 1. specialize (Hloop (Fields_TrimSpace _)).
    specialize (Hloop rest [verb] 0 ∅ eq_refl eq_refl).
    by rewrite decide_False in Hloop by done.
  - intros cmd w'. rewrite (parseCommand_run _ _ _ _ _ HF). cbv zeta.
    destruct (bindFlags rest ∅ !! "i") as [seq|].
    + destruct (Strconv.Atoi seq); [|done]. by intros [= <- <-].
    + by intros [= <- <-].
  - intros Hseq. rewrite (parseCommand_run _ _ _ _ _ HF). cbv zeta.
    destruct (bindFlags rest ∅ !! "i") as [seq|]; [|by eexists].
    destruct (Hseq seq eq_refl) as [n ->]. by eexists.
  - by rewrite (parseCommand_run "step_into -i 5" false w "step_into"
                  ["-i"; "5"] eq_refl).
Qed.

Lemma parseCommand_tokens_witness :
  parseFlagsLoop ["step_into"; "-i"; "5"] 0 ["-i"; "5"] ∅
  = Ret (bindFlags ["-i"; "5"] ∅)
  ∧ (∀ cmd w', parseCommand "step_into -i 5" false quietWorld = Ret (cmd, w') →
               command cmd = "step_into"
               ∧ options cmd = bindFlags ["-i"; "5"] ∅)
  ∧ ((∀ seq, bindFlags ["-i"; "5"] ∅ !! "i" = Some seq →
             ∃ n, Strconv.Atoi seq = inl n) →
     returns (parseCommand "step_into -i 5" false quietWorld))
  ∧ parseCommand "step_into -i 5" false quietWorld
    = Ret ({| command := "step_into"; fullCommand := "step_into -i 5";
              options := {[ "i" := "5" ]}; seqNum := 5; reverse := false |},
           quietWorld).
Proof.
  apply (parseCommand_tokens "step_into -i 5" false quietWorld "step_into"
           ["-i"; "5"]).
  reflexivity.
Defined.

(** A flag that ends the line is bound to the empty string. *)
Example parseCommand_flag_without_value :
  parseCommand "breakpoint_list -i 7 -x" false quietWorld
  = Ret ({| command := "breakpoint_list";
            fullCommand := "breakpoint_list -i 7 -x";
            options := {[ "i" := "7"; "x" := EmptyString ]};
            seqNum := 7; reverse := false |},
         quietWorld).
Proof. vm_compute. reflexivity. Qed.

(** C6: on a line with a verb and no binding of [i], [parseCommand] returns
    a command with sequence number 0 and does nothing but print the
    diagnostic, in verbose mode; when [i] is bound to the decimal numeral of
    an integer [n], the command returned has sequence number [n]. *)
Theorem parseCommand_seqNum (fullCommand : string) (reverseMode : bool)
    (w : world) (verb : string) (rest : list string) :
  Strings.Fields fullCommand = verb :: rest →
  (bindFlags rest ∅ !! "i" = None →
   ∃ cmd,
     parseCommand fullCommand reverseMode w
     = Ret (cmd,
            if VerboseFlag w
            then addTrace w [EvPrint (Plain (noSequenceNumber fullCommand))]
            else w)
     ∧ seqNum cmd = 0%Z)
  ∧ (∀ seq n,
       bindFlags rest ∅ !! "i" = Some seq → Strconv.Atoi seq = inl n →
       ∃ cmd, parseCommand fullCommand reverseMode w = Ret (cmd, w)
              ∧ seqNum cmd = n)
  ∧ (∀ n,
       (Strconv.minInt ≤ n ≤ Strconv.maxInt)%Z →
       bindFlags rest ∅ !! "i" = Some (Strconv.Itoa n) →
       ∃ cmd, parseCommand fullCommand reverseMode w = Ret (cmd, w)
              ∧ seqNum cmd = n).
Proof.
  intros HF. rewrite (parseCommand_run _ _ _ _ _ HF). cbv zeta.
  split; [|split].
  - intros ->. by eexists.
  - intros seq n -> ->. by eexists.
  - intros n Hn ->. rewrite Atoi_Itoa by done. by eexists.
Qed.

Lemma parseCommand_seqNum_witness :
  ∃ cmd,
    parseCommand "status" false verboseWorld
    = Ret (cmd,
           addTrace verboseWorld [EvPrint (Plain (noSequenceNumber "status"))])
    ∧ seqNum cmd = 0%Z.
Proof.
  exact (proj1 (parseCommand_seqNum "status" false verboseWorld "status" []
                  eq_refl) eq_refl).
Defined.

Example parseCommand_seqNum_max :
  parseCommand "run -i 9223372036854775807" false quietWorld
  = Ret ({| command := "run"; fullCommand := "run -i 9223372036854775807";
            options := {[ "i" := "9223372036854775807" ]};
            seqNum := 9223372036854775807; reverse := false |},
         quietWorld).
Proof. vm_compute. reflexivity. Qed.

(** C7: the command that [parseCommand] returns runs in reverse when its
    options bind [z] to 1, forwards when they bind [z] to 0, whatever the
    ambient mode, and in the ambient mode when they do not bind [z]; and a
    command is returned for every line with a verb whose [i], if bound, is
    bound to an integer. *)
Theorem parseCommand_reverse (fullCommand : string) (reverseMode : bool)
    (w : world) :
  (∀ cmd w',
     parseCommand fullCommand reverseMode w = Ret (cmd, w') →
     (options cmd !! "z" = Some "1" → reverse cmd = true)
     ∧ (options cmd !! "z" = Some "0" → reverse cmd = false)
     ∧ (options cmd !! "z" = None → reverse cmd = reverseMode))
  ∧ (∀ verb rest,
       Strings.Fields fullCommand = verb :: rest →
       (∀ seq, bindFlags rest ∅ !! "i" = Some seq →
               ∃ n, Strconv.Atoi seq = inl n) →
       ∃ cmd w', parseCommand fullCommand reverseMode w = Ret (cmd, w')
                 ∧ options cmd = bindFlags rest ∅).
Proof.
  split.
  - intros cmd w' Hrun.
    destruct (Strings.Fields fullCommand) as [|verb rest] eqn:HF.
    { by rewrite parseCommand_no_verb in Hrun. }
    rewrite (parseCommand_run _ _ _ _ _ HF) in Hrun. cbv zeta in Hrun.
    assert (Hcmd : options cmd = bindFlags rest ∅
                   ∧ reverse cmd
                     = match bindFlags rest ∅ !! "z" with
                       | Some r =>
                           if decide (r = "1") then true
                           else if decide (r = "0") then false
                           else reverseMode
                       | None => reverseMode
                       end).
    { destruct (bindFlags rest ∅ !! "i") as [seq|].
      - destruct (Strconv.Atoi seq); [|done]. by injection Hrun as <- <-.
      - by injection Hrun as <- <-. }
    destruct Hcmd as [-> ->].
    split; [|split]; intros ->; done.
  - intros verb rest HF Hseq.
    rewrite (parseCommand_run _ _ _ _ _ HF). cbv zeta.
    destruct (bindFlags rest ∅ !! "i") as [seq|]; [|by eexists _, _].
    destruct (Hseq seq eq_refl) as [n ->]. by eexists _, _.
Qed.

Lemma parseCommand_reverse_witness :
  ∃ cmd w', parseCommand "run -z 1" false quietWorld = Ret (cmd, w')
            ∧ options cmd = bindFlags ["-z"; "1"] ∅.
Proof.
  apply (proj2 (parseCommand_reverse "run -z 1" false quietWorld) "run"
           ["-z"; "1"] eq_refl).
  intros seq Hseq. exfalso. vm_compute in Hseq. discriminate Hseq.
Defined.

Example parseCommand_run_reversed :
  parseCommand "run -z 1" false quietWorld
  = Ret ({| command := "run"; fullCommand := "run -z 1";
            options := {[ "z" := "1" ]}; seqNum := 0; reverse := true |},
         quietWorld).
Proof.
  by rewrite (parseCommand_run "run -z 1" false quietWorld "run" ["-z"; "1"]
                eq_refl).
Qed.

Example parseCommand_run_forwards :
  parseCommand "run -z 0" true quietWorld
  = Ret ({| command := "run"; fullCommand := "run -z 0";
            options := {[ "z" := "0" ]}; seqNum := 0; reverse := false |},
         quietWorld).
Proof.
  by rewrite (parseCommand_run "run -z 0" true quietWorld "run" ["-z"; "0"]
                eq_refl).
Qed.

(** ** Runes below [RuneSelf] *)

Lemma lor_ge_l a b k :
  (0 ≤ a)%Z → (0 ≤ b)%Z → (0 ≤ k)%Z → (2 ^ k ≤ a)%Z → (2 ^ k ≤ Z.lor a b)%Z.
Proof.
  intros Ha Hb Hk Hle.
  assert (0 < a)%Z by (pose proof (Z.pow_pos_nonneg 2 k); lia).
  assert (0 ≤ Z.lor a b)%Z by (by apply Z.lor_nonneg).
  assert (Z.lor a b ≠ 0)%Z.
  { intros Hz. apply Z.lor_eq_0_iff in Hz. lia. }
  apply Z.log2_le_pow2; [lia|].
  rewrite Z.log2_lor by done.
  apply Z.log2_le_pow2 in Hle; lia.
Qed.

Lemma lor_ge_r a b k :
  (0 ≤ a)%Z → (0 ≤ b)%Z → (0 ≤ k)%Z → (2 ^ k ≤ b)%Z → (2 ^ k ≤ Z.lor a b)%Z.
Proof. intros. rewrite Z.lor_comm. by apply lor_ge_l. Qed.

Lemma land_mask (a n : Z) : (0 ≤ n)%Z → Z.land a (Z.ones n) = (a mod 2 ^ n)%Z.
Proof. apply Z.land_ones. Qed.

Ltac lor_nonneg := repeat (apply Z.lor_nonneg; split); lia.

(** [2 ^ 7 ≤ Z.lor a b] when one of the operands is that large. *)
Ltac lor_big :=
  lazymatch goal with
  | |- (_ ≤ Z.lor _ _)%Z =>
      first [ apply lor_ge_l; [lor_nonneg|lor_nonneg|lia|lor_big]
            | apply lor_ge_r; [lor_nonneg|lor_nonneg|lia|lor_big] ]
  | |- _ => change (2 ^ 7)%Z with 128%Z; Z.div_mod_to_equations; lia
  end.

(** A rune below [RuneSelf] is decoded from one ASCII byte: no encoding of
    two bytes or more yields one. *)
Lemma Decode_small (s : string) c w :
  s ≠ EmptyString → DecodeRuneInString s = (c, w) → (c < RuneSelf)%Z →
  at_ s 0 = c ∧ w = 1.
Proof.
  intros Hne. pose proof (len_pos s Hne) as Hlen.
  rewrite Decode_eq. cbv zeta.
  destruct (Z.ltb_spec (Z.of_nat (len s)) 1); [lia|].
  pose proof (at_range s 0) as Hr0. pose proof (at_range s 1) as Hr1.
  pose proof (at_range s 2) as Hr2. pose proof (at_range s 3) as Hr3.
  set (b0 := at_ s 0) in *. set (b1 := at_ s 1) in *.
  set (b2 := at_ s 2) in *. set (b3 := at_ s 3) in *.
  clearbody b0 b1 b2 b3. set (n := Z.of_nat (len s)) in *. clearbody n.
  unfold first.
  repeat (match goal with
          | |- context [(b0 <? ?y)%Z] => destruct (Z.ltb_spec b0 y)
          | |- context [(b0 =? ?y)%Z] => destruct (Z.eqb_spec b0 y)
          end; cbv beta iota).
  all: repeat match goal with
         | |- context [Z.land ?c 7] =>
             let v := eval vm_compute in (Z.land c 7) in
             change (Z.land c 7) with v
         | |- context [acceptRanges ?k] =>
             let v := eval vm_compute in (acceptRanges k) in
             change (acceptRanges k) with v
         | |- context [(as_ <=? ?c)%Z] =>
             let v := eval vm_compute in (as_ <=? c)%Z in
             change (as_ <=? c)%Z with v
         | |- context [(?c =? xx)%Z] =>
             let v := eval vm_compute in (c =? xx)%Z in
             change (c =? xx)%Z with v
         end; cbn [fst snd]; cbv beta iota.
  all: unfold RuneSelf, RuneError, locb, hicb, mask2, mask3, mask4, maskx.
  all: change 0x1F%Z with (Z.ones 5); change 0x0F%Z with (Z.ones 4);
    change 0x07%Z with (Z.ones 3); change 0x3F%Z with (Z.ones 6).
  all: rewrite ?land_mask, ?Z.shiftl_mul_pow2 by lia.
  all: assert (Hm5 := Z.mod_pos_bound b0 (2 ^ 5) ltac:(lia)).
  all: assert (Hm4 := Z.mod_pos_bound b0 (2 ^ 4) ltac:(lia)).
  all: assert (Hm3 := Z.mod_pos_bound b0 (2 ^ 3) ltac:(lia)).
  all: assert (Hm1 := Z.mod_pos_bound b1 (2 ^ 6) ltac:(lia)).
  all: assert (Hm2 := Z.mod_pos_bound b2 (2 ^ 6) ltac:(lia)).
  all: assert (Hm6 := Z.mod_pos_bound b3 (2 ^ 6) ltac:(lia)).
  all: decode_split; intros [= <- <-]; intros Hc; try lia.
  all: exfalso; apply Z.lt_nge in Hc; apply Hc; clear Hc.
  all: change (2 ^ 3)%Z with 8%Z in *; change (2 ^ 4)%Z with 16%Z in *;
    change (2 ^ 5)%Z with 32%Z in *; change (2 ^ 6)%Z with 64%Z in *;
    change (2 ^ 12)%Z with 4096%Z in *; change (2 ^ 18)%Z with 262144%Z in *.
  all: change 128%Z with (2 ^ 7)%Z.
  all: lor_big.
Qed.

(** ** Unquoting: the backslash at the end *)

Lemma get_app_r (pre s : string) j :
  String.get (len pre + j) (pre +:+ s) = String.get j s.
Proof.
  induction pre as [|b pre IH]; [done|].
  rewrite app_cons_s, len_cons. exact IH.
Qed.

Lemma sdrop_app_le n (s t : string) :
  n ≤ len s → sdrop n (s +:+ t) = sdrop n s +:+ t.
Proof.
  revert s. induction n as [|n IH]; intros s Hn; [by rewrite !sdrop_0|].
  destruct s as [|b s]; [cbn in Hn; lia|].
  rewrite len_cons in Hn. rewrite app_cons_s, !sdrop_cons. apply IH. lia.
Qed.

Lemma Decode_backslash :
  DecodeRuneInString (str1 backslashByte) = (byteZ backslashByte, 1).
Proof. reflexivity. Qed.

(** Once the loop stands in front of a rest of the input that ends in a
    backslash, with [skip] set only in front of a double quote, it panics. *)
Lemma unquoteLoop_trailing_backslash (input : string) (s : string) :
  ∀ pre buf skip,
    input = pre +:+ s →
    (∃ t, s = t +:+ str1 backslashByte) →
    (skip = true → at_ s 0 = byteZ quoteByte) →
    unquoteLoop input (len input) (runesFrom s (len pre) 0) (buf, skip)
    = Panic IndexOutOfRange.
Proof.
  induction s as [|s c w Hne Hd Hw IH] using rune_ind;
    intros pre buf skip Hin [t Ht] Hskip.
  { symmetry in Ht. by apply nonempty_app_r in Ht. }
  rewrite (runesFrom_unfold s (len pre) c w Hne Hd). cbn [unquoteLoop].
  assert (Hlast : at_ s (len t) = byteZ backslashByte).
  { rewrite Ht, at_app_r by lia. by rewrite Nat.sub_diag. }
  assert (Hlen : len s = S (len t)).
  { rewrite Ht, len_app. cbn. lia. }
  (* the loop goes on behind the rune *)
  assert (Hnext : ∀ buf' skip',
            (∃ t', sdrop w s = t' +:+ str1 backslashByte) →
            (skip' = true → at_ (sdrop w s) 0 = byteZ quoteByte) →
            unquoteLoop input (len input)
              (runesFrom (sdrop w s) (len pre + w) 0) (buf', skip')
            = Panic IndexOutOfRange).
  { intros buf' skip' Ht' Hs'.
    replace (len pre + w) with (len (pre +:+ stake w s))
      by (rewrite len_app, len_stake; lia).
    apply IH; [|done|done].
    by rewrite app_assoc_s, stake_sdrop. }
  (* what is left behind a rune of one byte that is not the last *)
  assert (Hrest : w = 1 → t ≠ EmptyString →
            ∃ t', sdrop w s = t' +:+ str1 backslashByte
                  ∧ at_ (sdrop w s) 0 = at_ s 1).
  { intros -> Hnt. destruct t as [|b t1]; [done|].
    rewrite Ht, app_cons_s, sdrop_cons, sdrop_0. by exists t1. }
  unfold unquoteStep. destruct skip.
  - (* the rune is the double quote that follows a backslash *)
    specialize (Hskip eq_refl).
    assert (Hd' : DecodeRuneInString s = (at_ s 0, 1))
      by (apply Decode_ascii; [done|by rewrite Hskip]).
    rewrite Hd' in Hd. assert (w = 1) as -> by congruence.
    cbn [mbind outcome_bind].
    destruct (Hrest eq_refl) as (t' & Ht' & _).
    { intros ->. rewrite app_nil_l_s in Ht. subst s. done. }
    apply Hnext; [by exists t'|done].
  - destruct (decide (c = byteZ backslashByte)) as [->|Hc].
    + destruct (Decode_small s _ w Hne Hd ltac:(done)) as [Hb ->].
      rewrite bool_decide_eq_true_2 by done.
      rewrite bool_decide_eq_true_2
        by (rewrite Hin, len_app; apply len_pos in Hne; lia).
      cbn [andb]. unfold byteAt. rewrite Hin at 1. rewrite get_app_r.
      destruct (decide (t = EmptyString)) as [->|Hnt].
      { rewrite app_nil_l_s in Ht. subst s. reflexivity. }
      destruct (Hrest eq_refl Hnt) as (t' & Ht' & Hat).
      assert (Hget : ∃ b, String.get 1 s = Some b ∧ at_ s 1 = byteZ b).
      { unfold at_. destruct (String.get 1 s) as [b|] eqn:Hg; [by exists b|].
        exfalso. destruct t as [|b0 [|b1 t2]]; [done|..];
          rewrite Ht in Hg; discriminate Hg. }
      destruct Hget as (b & Hg & Hb1). rewrite Hg.
      cbn [mbind outcome_bind].
      destruct (bool_decide (b = quoteByte)) eqn:Hq.
      * apply bool_decide_eq_true in Hq. subst b.
        apply Hnext; [by exists t'|]. intros _. by rewrite Hat.
      * apply Hnext; [by exists t'|done].
    + rewrite bool_decide_eq_false_2 by done. cbn [andb mbind outcome_bind].
      apply Hnext; [|done].
      destruct (decide (w ≤ len t)) as [Hle|Hgt].
      * exists (sdrop w t). rewrite Ht. by apply sdrop_app_le.
      * exfalso. assert (w = S (len t)) as -> by lia.
        destruct (decide (len t = 0)) as [H0|H0].
        -- apply len_zero in H0. subst t. rewrite app_nil_l_s in Ht. subst s.
           rewrite Decode_backslash in Hd. apply Hc. congruence.
        -- pose proof (Decode_cont s c (S (len t)) (len t) Hd ltac:(lia)) as Hk.
           rewrite Hlast in Hk. unfold isCont in Hk.
           change (byteZ backslashByte) with 92%Z in Hk. lia.
Qed.

(** Every input that ends in a backslash makes [unquoteGdbStringResult]
    panic. *)
Lemma unquoteGdbStringResult_trailing_backslash (s : string) :
  unquoteGdbStringResult (s +:+ str1 backslashByte) = Panic IndexOutOfRange.
Proof.
  unfold unquoteGdbStringResult, runes.
  rewrite (unquoteLoop_trailing_backslash _ (s +:+ str1 backslashByte)
             EmptyString EmptyString false); [done|done|by exists s|done].
Qed.

(** ** The quotes of a response of gdb *)

Lemma prefix_str1 q b (s : string) :
  String.prefix (str1 q) (String b s) = bool_decide (b = q).
Proof.
  cbn. destruct (ascii_dec q b) as [->|Hne].
  - rewrite bool_decide_eq_true_2 by done. by destruct s.
  - by rewrite bool_decide_eq_false_2 by congruence.
Qed.

(** [Index] and [LastIndex] of a byte [q]: both are -1 when [q] does not
    occur; otherwise they are positions in the string, the first not after
    the last, and they coincide exactly when [q] occurs once. *)
Lemma index_count q (s : string) : ∀ i,
  (countByte q s = 0 →
   Strings.indexFrom (str1 q) s i = (-1)%Z
   ∧ Strings.lastIndexFrom (str1 q) s i = (-1)%Z)
  ∧ (0 < countByte q s →
     (Z.of_nat i ≤ Strings.indexFrom (str1 q) s i
      ≤ Strings.lastIndexFrom (str1 q) s i)%Z
     ∧ (Strings.lastIndexFrom (str1 q) s i < Z.of_nat (i + len s))%Z
     ∧ (Strings.indexFrom (str1 q) s i = Strings.lastIndexFrom (str1 q) s i
        ↔ countByte q s = 1)).
Proof.
  induction s as [|b s IH]; intros i.
  - cbn. split; [done|lia].
  - cbn [Strings.indexFrom Strings.lastIndexFrom countByte].
    rewrite prefix_str1, len_cons.
    destruct (IH (S i)) as [IH0 IH1].
    destruct (decide (b = q)) as [->|Hne].
    + rewrite bool_decide_eq_true_2 by done.
      split; [lia|]. intros _.
      destruct (decide (countByte q s = 0)) as [Hz|Hnz].
      * destruct (IH0 Hz) as [_ ->]. rewrite decide_True by done.
        split; [lia|]. split; [lia|]. rewrite Hz. done.
      * destruct (IH1 ltac:(lia)) as (Hle & Hlt & _).
        rewrite decide_False by lia.
        split; [lia|]. split; [lia|]. split; [lia|lia].
    + rewrite bool_decide_eq_false_2 by done. cbn [Nat.add].
      split.
      * intros Hz. destruct (IH0 Hz) as [-> ->]. by rewrite decide_True.
      * intros Hpos. destruct (IH1 Hpos) as (Hle & Hlt & Hiff).
        rewrite decide_False by lia. split; [lia|]. split; [lia|done].
Qed.

(** [parseGdbStringResponse] returns its error exactly for the responses
    with fewer than two double quotes; for the others it hands the bytes
    between the first and the last double quote to
    [unquoteGdbStringResult]. *)
Lemma parseGdbStringResponse_run (gdbResponse : string) :
  if decide (countByte quoteByte gdbResponse < 2) then
    parseGdbStringResponse gdbResponse
    = Ret (EmptyString,
           Some (errorString
                   ("Improper gdb data-evaluate-expression string response to: "
                    +:+ gdbResponse)))
  else
    ∃ sub,
      slice gdbResponse (Strings.Index gdbResponse (str1 quoteByte) + 1)
        (Strings.LastIndex gdbResponse (str1 quoteByte)) = Ret sub
      ∧ parseGdbStringResponse gdbResponse
        = (unquote ← unquoteGdbStringResult sub; Ret (unquote, None)).
Proof.
  unfold parseGdbStringResponse, Strings.Index, Strings.LastIndex.
  destruct (index_count quoteByte gdbResponse 0) as [H0 H1].
  case_decide as Hc.
  - destruct (decide (countByte quoteByte gdbResponse = 0)) as [Hz|Hnz].
    + destruct (H0 Hz) as [-> ->]. by rewrite decide_True by auto.
    + destruct (H1 ltac:(lia)) as (_ & _ & Hiff).
      rewrite decide_True; [done|]. left. apply Hiff. lia.
  - destruct (H1 ltac:(lia)) as (Hle & Hlt & Hiff).
    rewrite decide_False.
    2: { intros [Heq|[Hm|Hm]]; [apply Hiff in Heq|..]; lia. }
    assert (Strings.indexFrom (str1 quoteByte) gdbResponse 0
            ≠ Strings.lastIndexFrom (str1 quoteByte) gdbResponse 0)
      by (intros Heq; apply Hiff in Heq; lia).
    unfold slice. rewrite decide_True by (cbn in Hlt; lia).
    eexists. split; reflexivity.
Qed.

Lemma parseGdbStringResponse_error_iff (gdbResponse : string) :
  (∃ r err, parseGdbStringResponse gdbResponse = Ret (r, Some err))
  ↔ countByte quoteByte gdbResponse < 2.
Proof.
  pose proof (parseGdbStringResponse_run gdbResponse) as H.
  case_decide as Hc.
  - split; [done|]. intros _. by eexists _, _.
  - split; [|lia]. intros (r & err & Hr). exfalso.
    destruct H as (sub & _ & Hp). rewrite Hp in Hr.
    destruct (unquoteGdbStringResult sub); discriminate Hr.
Qed.

Lemma indexFrom_first q (p rest : string) i :
  countByte q p = 0 →
  Strings.indexFrom (str1 q) (p +:+ String q rest) i = Z.of_nat (i + len p).
Proof.
  revert i. induction p as [|b p IH]; intros i Hz.
  - rewrite app_nil_l_s. cbn [Strings.indexFrom].
    rewrite prefix_str1, bool_decide_eq_true_2 by done. cbn. f_equal. lia.
  - cbn [countByte] in Hz. destruct (decide (b = q)) as [|Hne]; [lia|].
    rewrite app_cons_s. cbn [Strings.indexFrom].
    rewrite prefix_str1, bool_decide_eq_false_2 by done.
    rewrite IH by lia. rewrite len_cons. f_equal. lia.
Qed.

Lemma lastIndexFrom_last q (p : string) i :
  Strings.lastIndexFrom (str1 q) (p +:+ str1 q) i = Z.of_nat (i + len p).
Proof.
  revert i. induction p as [|b p IH]; intros i.
  - rewrite app_nil_l_s. cbn. destruct (ascii_dec q q); [|done].
    f_equal. lia.
  - rewrite app_cons_s. cbn [Strings.lastIndexFrom]. rewrite IH.
    rewrite decide_False by lia. rewrite len_cons. f_equal. lia.
Qed.

Lemma stake_app_len (s t : string) n : n = len s → stake n (s +:+ t) = s.
Proof. intros ->. apply stake_app. Qed.

(** The response of gdb for a string: the bytes between the first and the
    last double quote are the contents, whatever they hold. *)
Lemma parseGdbStringResponse_value (contents : string) :
  parseGdbStringResponse (gdbStringValue contents)
  = (unquote ← unquoteGdbStringResult contents; Ret (unquote, None)).
Proof.
  set (addr := "0x7f261d8624e8 ").
  assert (Hfirst : Strings.Index (gdbStringValue contents) (str1 quoteByte)
                   = Z.of_nat (len addr)).
  { unfold Strings.Index, gdbStringValue. fold addr.
    change (addr +:+ str1 quoteByte +:+ contents +:+ str1 quoteByte)
      with (addr +:+ String quoteByte (contents +:+ str1 quoteByte)).
    by rewrite indexFrom_first. }
  assert (Hlast : Strings.LastIndex (gdbStringValue contents) (str1 quoteByte)
                  = Z.of_nat (len addr + 1 + len contents)).
  { unfold Strings.LastIndex, gdbStringValue. fold addr.
    replace (addr +:+ str1 quoteByte +:+ contents +:+ str1 quoteByte)
      with ((addr +:+ str1 quoteByte +:+ contents) +:+ str1 quoteByte)
      by (by rewrite !app_assoc_s).
    rewrite lastIndexFrom_last, !len_app. done. }
  unfold parseGdbStringResponse. rewrite Hfirst, Hlast.
  rewrite decide_False by lia.
  assert (Hslice : slice (gdbStringValue contents) (Z.of_nat (len addr) + 1)
                     (Z.of_nat (len addr + 1 + len contents))
                   = Ret contents).
  { unfold slice, gdbStringValue. fold addr. rewrite !len_app.
    change (len (str1 quoteByte)) with 1.
    rewrite decide_True by lia. f_equal.
    replace (Z.to_nat (Z.of_nat (len addr) + 1))
      with (len (addr +:+ str1 quoteByte))
      by (rewrite len_app; change (len (str1 quoteByte)) with 1; lia).
    rewrite <- (app_assoc_s addr), sdrop_app.
    apply stake_app_len. lia. }
  by rewrite Hslice.
Qed.

(** ** Unquoting ASCII strings *)

Lemma runesFrom_ascii b (s : string) i :
  isAscii b = true →
  runesFrom (String b s) i 0 = (i, byteZ b, str1 b) :: runesFrom s (S i) 0.
Proof.
  intros Hb. apply bool_decide_eq_true in Hb.
  rewrite (runesFrom_unfold (String b s) i (byteZ b) 1); [|done|].
  - rewrite sdrop_cons, sdrop_0. do 2 f_equal. lia.
  - by rewrite Decode_ascii.
Qed.

Lemma WriteRune_ascii buf b :
  isAscii b = true → WriteRune buf (byteZ b) = buf +:+ str1 b.
Proof.
  intros Hb. apply bool_decide_eq_true in Hb. unfold WriteRune.
  pose proof (byteZ_range b). rewrite Z.mod_small by lia.
  destruct (Z.ltb_spec (byteZ b) RuneSelf) as [_|Hge]; [|unfold RuneSelf in *; lia].
  by rewrite byteOf_byteZ.
Qed.

Lemma unquoteBytes_cons b (t : string) :
  (b ≠ backslashByte ∨ (∀ t', t ≠ String quoteByte t')) →
  unquoteBytes (String b t) = String b (unquoteBytes t).
Proof.
  intros H. cbn [unquoteBytes]. destruct t as [|b' t']; [done|].
  case_decide as Hd; [|done]. destruct Hd as [-> ->].
  destruct H as [H|H]; [done|]. by destruct (H t').
Qed.

Lemma endsWith_cons b c (t : string) :
  t ≠ EmptyString → endsWith b (String c t) = endsWith b t.
Proof. by destruct t. Qed.

(** On ASCII bytes that do not end in a backslash the loop appends the
    unquoted rest to the buffer; with [skip] set it stands in front of the
    double quote of a pair and drops it. *)
Lemma unquoteLoop_ascii (input : string) (s : string) :
  ∀ pre buf skip,
    input = pre +:+ s →
    allBytes isAscii s = true →
    endsWith backslashByte s = false →
    (skip = true → ∃ t, s = String quoteByte t) →
    ∃ sk,
      unquoteLoop input (len input) (runesFrom s (len pre) 0) (buf, skip)
      = Ret (buf +:+ (if skip then unquoteBytes (sdrop 1 s)
                      else unquoteBytes s), sk).
Proof.
  induction s as [|b s IH]; intros pre buf skip Hin Hascii Hend Hskip.
  { exists skip. cbn. destruct skip; by rewrite app_nil_r_s. }
  cbn [allBytes] in Hascii. apply andb_true_iff in Hascii as [Hb Hs].
  rewrite runesFrom_ascii by done. cbn [unquoteLoop].
  assert (Hpre : input = (pre +:+ str1 b) +:+ s)
    by (by rewrite Hin, app_assoc_s).
  assert (Hlen : S (len pre) = len (pre +:+ str1 b))
    by (rewrite len_app; cbn; lia).
  assert (Hend' : s ≠ EmptyString → endsWith backslashByte s = false)
    by (intros Hne; by rewrite endsWith_cons in Hend).
  assert (Hends : endsWith backslashByte s = false)
    by (destruct s; [done|by apply Hend']).
  rewrite Hlen. unfold unquoteStep. destruct skip.
  - destruct (Hskip eq_refl) as [t [= -> ->]].
    cbn [mbind outcome_bind]. rewrite sdrop_cons, sdrop_0.
    destruct (IH (pre +:+ str1 quoteByte) buf false Hpre Hs Hends
                ltac:(done)) as [sk Hsk].
    by exists sk.
  - destruct (decide (b = backslashByte)) as [->|Hb'].
    + rewrite bool_decide_eq_true_2 by done.
      rewrite bool_decide_eq_true_2 by (rewrite Hin, len_app, len_cons; lia).
      cbn [andb]. unfold byteAt.
      assert (Hget : String.get (len pre + 1) input = String.get 0 s).
      { replace (len pre + 1) with (len (pre +:+ str1 backslashByte) + 0)
          by lia.
        rewrite Hpre. apply get_app_r. }
      rewrite Hget.
      destruct s as [|b' s']; [by cbn in Hend|].
      cbn [String.get mbind outcome_bind].
      destruct (decide (b' = quoteByte)) as [->|Hq].
      * rewrite bool_decide_eq_true_2 by done.
        destruct (IH (pre +:+ str1 backslashByte)
                    (WriteRune buf (byteZ quoteByte)) true Hpre Hs Hends
                    ltac:(by eexists)) as [sk Hsk].
        exists sk. unfold mbind, outcome_bind. rewrite Hsk. rewrite WriteRune_ascii by done.
        rewrite sdrop_cons, sdrop_0, app_assoc_s. cbn [unquoteBytes].
        by rewrite decide_True.
      * rewrite bool_decide_eq_false_2 by done.
        destruct (IH (pre +:+ str1 backslashByte)
                    (WriteRune buf (byteZ backslashByte)) false Hpre Hs Hends
                    ltac:(done)) as [sk Hsk].
        exists sk. unfold mbind, outcome_bind. rewrite Hsk. rewrite WriteRune_ascii by done.
        rewrite app_assoc_s.
        rewrite (unquoteBytes_cons backslashByte (String b' s'))
          by (right; intros t' ?; congruence).
        reflexivity.
    + rewrite bool_decide_eq_false_2.
      2: { intros Heq. apply Hb'. by apply byteZ_inj. }
      cbn [andb mbind outcome_bind].
      destruct (IH (pre +:+ str1 b) (WriteRune buf (byteZ b)) false Hpre Hs
                  Hends ltac:(done)) as [sk Hsk].
      exists sk. unfold mbind, outcome_bind. rewrite Hsk. rewrite WriteRune_ascii by done.
      rewrite app_assoc_s, (unquoteBytes_cons b s) by (by left).
      reflexivity.
Qed.

(** [unquoteGdbStringResult] on ASCII input: it returns the unquoted bytes
    unless the input ends in a backslash. *)
Lemma unquoteGdbStringResult_ascii (input : string) :
  allBytes isAscii input = true →
  unquoteGdbStringResult input
  = if endsWith backslashByte input then Panic IndexOutOfRange
    else Ret (unquoteBytes input).
Proof.
  intros Hascii. destruct (endsWith backslashByte input) eqn:Hend.
  - assert (∃ s, input = s +:+ str1 backslashByte) as [s ->].
    { clear Hascii. induction input as [|b s IH]; [done|].
      destruct s as [|b' s'].
      - cbn in Hend. apply bool_decide_eq_true in Hend. subst b.
        by exists EmptyString.
      - rewrite endsWith_cons in Hend by done.
        destruct (IH Hend) as [s Hs]. exists (String b s).
        by rewrite app_cons_s, <- Hs. }
    apply unquoteGdbStringResult_trailing_backslash.
  - unfold unquoteGdbStringResult, runes.
    destruct (unquoteLoop_ascii input input EmptyString EmptyString false)
      as [sk Hsk]; [done..|].
    cbn [len String.length] in Hsk. cbv zeta. rewrite Hsk. done.
Qed.

Example unquote_no_pairs :
  unquoteGdbStringResult "0x7f261d8624e8 <main+4>"
  = Ret "0x7f261d8624e8 <main+4>".
Proof. reflexivity. Qed.

(** C4: [unquoteGdbStringResult] does not return on an input that ends in a
    backslash, the input of one backslash to begin with: the guard [i < l]
    lets [input[i+1]] read one byte past the end. *)
Theorem unquoteGdbStringResult_backslash_at_end :
  unquoteGdbStringResult (str1 backslashByte) = Panic IndexOutOfRange
  ∧ ∀ s, unquoteGdbStringResult (s +:+ str1 backslashByte)
         = Panic IndexOutOfRange.
Proof.
  split; [reflexivity|]. apply unquoteGdbStringResult_trailing_backslash.
Qed.

(** C8: [parseGdbStringResponse] returns an error exactly when the response
    holds fewer than two double quotes; but on gdb's text for a string that
    ends in a backslash, such as [a\], which holds two double quotes, it does
    not succeed: the unquoting panics. *)
Theorem parseGdbStringResponse_backslash_at_end :
  (∀ gdbResponse,
     (∃ r err, parseGdbStringResponse gdbResponse = Ret (r, Some err))
     ↔ countByte quoteByte gdbResponse < 2)
  ∧ countByte quoteByte
      (gdbStringValue ("a" +:+ str1 backslashByte +:+ str1 backslashByte)) = 2
  ∧ parseGdbStringResponse
      (gdbStringValue ("a" +:+ str1 backslashByte +:+ str1 backslashByte))
    = Panic IndexOutOfRange
  ∧ ∀ contents,
      parseGdbStringResponse (gdbStringValue (contents +:+ str1 backslashByte))
      = Panic IndexOutOfRange.
Proof.
  split; [apply parseGdbStringResponse_error_iff|].
  split; [reflexivity|]. split; [reflexivity|].
  intros contents. rewrite parseGdbStringResponse_value.
  by rewrite unquoteGdbStringResult_trailing_backslash.
Qed.

(** * Further properties *)

Example Base_of_a_path : Filepath.Base "/usr/local/bin/gdb" = "gdb".
Proof. reflexivity. Qed.

Example Base_of_slashes : Filepath.Base "//" = "/".
Proof. reflexivity. Qed.

Example Split_at_spaces :
  StringsSplit.Split "GNU gdb  7.11.1" " " = ["GNU"; "gdb"; EmptyString; "7.11.1"].
Proof. reflexivity. Qed.

Example FindString_of_a_version :
  VersionRegexp.FindString "7.0.33-0ubuntu0.16.04.16" = "7.0.33".
Proof. reflexivity. Qed.

Example FindString_of_two_numbers : VersionRegexp.FindString "7.0-dev" = EmptyString.
Proof. reflexivity. Qed.

(** ** Encoding what was decoded *)

(** Operands with no bit in common: [Z.lor] adds them. *)
Lemma lor_add (a b k : Z) :
  (0 ≤ k)%Z → (a mod 2 ^ k = 0)%Z → (0 ≤ b < 2 ^ k)%Z →
  Z.lor a b = (a + b)%Z.
Proof.
  intros Hk Ha Hb.
  assert (Hland : Z.land a b = 0%Z).
  { apply Z.bits_inj'. intros n Hn. rewrite Z.land_spec, Z.bits_0.
    destruct (Z.lt_ge_cases n k) as [Hlt|Hge].
    - rewrite (Z.div_mod a (2 ^ k)) by lia. rewrite Ha, Z.add_0_r.
      rewrite Z.mul_comm, Z.mul_pow2_bits_low by lia. done.
    - assert (Hbit : Z.testbit b n = false).
      { apply Z.testbit_false; [lia|]. rewrite Z.div_small; [done|].
        split; [lia|]. apply Z.lt_le_trans with (2 ^ k)%Z; [lia|].
        apply Z.pow_le_mono_r; lia. }
      rewrite Hbit. apply andb_false_r. }
  rewrite <- Z.lxor_lor by done. symmetry. by apply Z.add_nocarry_lxor.
Qed.

Ltac to_arith :=
  unfold mask2, mask3, mask4, maskx, t2, t3, t4, tx;
  change 0x1F%Z with (Z.ones 5); change 0x0F%Z with (Z.ones 4);
  change 0x07%Z with (Z.ones 3); change 0x3F%Z with (Z.ones 6);
  rewrite ?land_mask, ?Z.shiftl_mul_pow2, ?Z.shiftr_div_pow2 by lia;
  change (2 ^ 3)%Z with 8%Z in *; change (2 ^ 4)%Z with 16%Z in *;
  change (2 ^ 5)%Z with 32%Z in *; change (2 ^ 6)%Z with 64%Z in *;
  change (2 ^ 12)%Z with 4096%Z in *; change (2 ^ 18)%Z with 262144%Z in *.

Ltac div_mod_lia := Z.div_mod_to_equations; lia.

Lemma Encode_2 (b0 b1 : Z) :
  (0xC2 ≤ b0 ≤ 0xDF)%Z → (0x80 ≤ b1 ≤ 0xBF)%Z →
  WriteRune EmptyString
    (Z.lor (Z.shiftl (Z.land b0 mask2) 6) (Z.land b1 maskx))
  = String (byteOf b0) (String (byteOf b1) EmptyString).
Proof.
  intros H0 H1.
  to_arith.
  rewrite (lor_add _ _ 6) by (change (2 ^ 6)%Z with 64%Z; div_mod_lia).
  set (c := (b0 mod 32 * 64 + b1 mod 64)%Z).
  assert (Hc : (0x80 ≤ c ≤ 0x7FF)%Z) by (subst c; div_mod_lia).
  unfold WriteRune, EncodeRune, RuneSelf, rune1Max, rune2Max.
  rewrite (Z.mod_small c (2 ^ 32)) by lia.
  destruct (Z.ltb_spec c 128); [lia|].
  destruct (Z.leb_spec c 127); [lia|].
  destruct (Z.leb_spec c 2047); [|lia].
  to_arith.
  rewrite (lor_add 192 _ 6) by (change (2 ^ 6)%Z with 64%Z; subst c; div_mod_lia).
  rewrite (lor_add 128 _ 6) by (change (2 ^ 6)%Z with 64%Z; subst c; div_mod_lia).
  rewrite app_nil_l_s. f_equal; [|f_equal].
  all: f_equal; subst c; div_mod_lia.
Qed.

Lemma Encode_3 (b0 b1 b2 : Z) :
  (0xE0 ≤ b0 ≤ 0xEF)%Z → (0x80 ≤ b1 ≤ 0xBF)%Z → (0x80 ≤ b2 ≤ 0xBF)%Z →
  (b0 = 0xE0 → 0xA0 ≤ b1)%Z → (b0 = 0xED → b1 ≤ 0x9F)%Z →
  WriteRune EmptyString
    (Z.lor (Z.lor (Z.shiftl (Z.land b0 mask3) 12)
                  (Z.shiftl (Z.land b1 maskx) 6))
           (Z.land b2 maskx))
  = String (byteOf b0) (String (byteOf b1) (String (byteOf b2) EmptyString)).
Proof.
  intros H0 H1 H2 Hlo Hhi.
  to_arith.
  rewrite (lor_add (b0 mod 16 * 4096) (b1 mod 64 * 64) 12)
    by (change (2 ^ 12)%Z with 4096%Z; div_mod_lia).
  rewrite (lor_add _ _ 6) by (change (2 ^ 6)%Z with 64%Z; div_mod_lia).
  set (c := (b0 mod 16 * 4096 + b1 mod 64 * 64 + b2 mod 64)%Z).
  assert (Hc : (0x800 ≤ c ≤ 0xFFFF ∧ ¬ (0xD800 ≤ c ≤ 0xDFFF))%Z)
    by (subst c; div_mod_lia).
  unfold WriteRune, EncodeRune, RuneSelf, rune1Max, rune2Max, rune3Max,
    MaxRune, surrogateMin, surrogateMax.
  rewrite (Z.mod_small c (2 ^ 32)) by lia.
  destruct (Z.ltb_spec c 128); [lia|].
  destruct (Z.leb_spec c 127); [lia|].
  destruct (Z.leb_spec c 2047); [lia|].
  destruct (Z.ltb_spec 1114111 c); [lia|].
  destruct (Z.leb_spec 55296 c), (Z.leb_spec c 57343); try lia;
    cbn [orb andb].
  all: destruct (Z.leb_spec c 65535); [|lia].
  all: to_arith.
  all: rewrite (lor_add 224 _ 4) by (change (2 ^ 4)%Z with 16%Z; subst c; div_mod_lia).
  all: rewrite !(lor_add 128 _ 6) by (change (2 ^ 6)%Z with 64%Z; subst c; div_mod_lia).
  all: rewrite app_nil_l_s; f_equal; [|f_equal; [|f_equal]].
  all: f_equal; subst c; div_mod_lia.
Qed.

Lemma Encode_4 (b0 b1 b2 b3 : Z) :
  (0xF0 ≤ b0 ≤ 0xF4)%Z → (0x80 ≤ b1 ≤ 0xBF)%Z →
  (0x80 ≤ b2 ≤ 0xBF)%Z → (0x80 ≤ b3 ≤ 0xBF)%Z →
  (b0 = 0xF0 → 0x90 ≤ b1)%Z → (b0 = 0xF4 → b1 ≤ 0x8F)%Z →
  WriteRune EmptyString
    (Z.lor (Z.lor (Z.lor (Z.shiftl (Z.land b0 mask4) 18)
                         (Z.shiftl (Z.land b1 maskx) 12))
                  (Z.shiftl (Z.land b2 maskx) 6))
           (Z.land b3 maskx))
  = String (byteOf b0)
      (String (byteOf b1) (String (byteOf b2) (String (byteOf b3) EmptyString))).
Proof.
  intros H0 H1 H2 H3 Hlo Hhi.
  to_arith.
  rewrite (lor_add (b0 mod 8 * 262144) (b1 mod 64 * 4096) 18)
    by (change (2 ^ 18)%Z with 262144%Z; div_mod_lia).
  rewrite (lor_add (b0 mod 8 * 262144 + b1 mod 64 * 4096) (b2 mod 64 * 64) 12)
    by (change (2 ^ 12)%Z with 4096%Z; div_mod_lia).
  rewrite (lor_add _ _ 6) by (change (2 ^ 6)%Z with 64%Z; div_mod_lia).
  set (c := (b0 mod 8 * 262144 + b1 mod 64 * 4096 + b2 mod 64 * 64
             + b3 mod 64)%Z).
  assert (Hc : (0x10000 ≤ c ≤ 0x10FFFF)%Z) by (subst c; div_mod_lia).
  unfold WriteRune, EncodeRune, RuneSelf, rune1Max, rune2Max, rune3Max,
    MaxRune, surrogateMin, surrogateMax.
  rewrite (Z.mod_small c (2 ^ 32)) by lia.
  destruct (Z.ltb_spec c 128); [lia|].
  destruct (Z.leb_spec c 127); [lia|].
  destruct (Z.leb_spec c 2047); [lia|].
  destruct (Z.ltb_spec 1114111 c); [lia|].
  destruct (Z.leb_spec 55296 c), (Z.leb_spec c 57343); try lia;
    cbn [orb andb].
  all: destruct (Z.leb_spec c 65535); [lia|].
  all: to_arith.
  all: rewrite (lor_add 240 _ 3) by (change (2 ^ 3)%Z with 8%Z; subst c; div_mod_lia).
  all: rewrite !(lor_add 128 _ 6) by (change (2 ^ 6)%Z with 64%Z; subst c; div_mod_lia).
  all: rewrite app_nil_l_s; f_equal; [|f_equal; [|f_equal; [|f_equal]]].
  all: f_equal; subst c; div_mod_lia.
Qed.

(** The entry of [first] for each class of first bytes. *)
Lemma first_cases (b : Z) :
  ((b < 0x80)%Z ∧ first b = as_)
  ∨ ((0x80 ≤ b < 0xC2 ∨ 0xF4 < b)%Z ∧ first b = xx)
  ∨ ((0xC2 ≤ b ≤ 0xDF)%Z ∧ first b = s1)
  ∨ (b = 0xE0%Z ∧ first b = s2)
  ∨ ((0xE1 ≤ b ≤ 0xEC ∨ 0xEE ≤ b ≤ 0xEF)%Z ∧ first b = s3)
  ∨ (b = 0xED%Z ∧ first b = s4)
  ∨ (b = 0xF0%Z ∧ first b = s5)
  ∨ ((0xF1 ≤ b ≤ 0xF3)%Z ∧ first b = s6)
  ∨ (b = 0xF4%Z ∧ first b = s7).
Proof.
  unfold first.
  repeat (match goal with
          | |- context [(?x <? ?y)%Z] => destruct (Z.ltb_spec x y)
          | |- context [(?x =? ?y)%Z] => destruct (Z.eqb_spec x y)
          end; cbv beta iota).
  all: repeat first [ left; split; [lia|reflexivity]
                    | split; [lia|reflexivity]
                    | right ].
Qed.

Lemma get_at (s : string) j :
  j < len s → String.get j s = Some (byteOf (at_ s j)).
Proof.
  revert j. induction s as [|a s IH]; intros j Hj; [cbn in Hj; lia|].
  destruct j as [|j].
  - cbn [String.get]. by rewrite at_cons_0, byteOf_byteZ.
  - rewrite len_cons in Hj. cbn [String.get]. rewrite at_cons_S.
    apply IH. lia.
Qed.

Lemma stake_S n (s : string) :
  n < len s →
  stake (S n) s = stake n s +:+ str1 (byteOf (at_ s n)).
Proof.
  revert s. induction n as [|n IH]; intros s Hn.
  - destruct s as [|a s]; [cbn in Hn; lia|].
    cbn [stake]. by rewrite at_cons_0, byteOf_byteZ.
  - destruct s as [|a s]; [cbn in Hn; lia|]. rewrite len_cons in Hn.
    change (stake (S (S n)) (String a s)) with (String a (stake (S n) s)).
    rewrite IH by lia. by rewrite at_cons_S.
Qed.

(** The first branch of a conditional is taken or not. *)
Ltac decode_step :=
  lazymatch goal with
  | |- (if ?cond then _ else _) = _ → _ =>
      let E := fresh "E" in
      destruct cond eqn:E;
      try (exfalso; vm_compute in E; discriminate E)
  end.

Ltac decode_bools :=
  repeat match goal with
         | H : (_ <? _)%Z = true |- _ => apply Z.ltb_lt in H
         | H : (_ <? _)%Z = false |- _ => apply Z.ltb_ge in H
         | H : (_ <=? _)%Z = true |- _ => apply Z.leb_le in H
         | H : (_ <=? _)%Z = false |- _ => apply Z.leb_gt in H
         | H : (_ || _) = false |- _ =>
             let H1 := fresh H in
             apply orb_false_iff in H as [H H1]
         end.

Ltac decode_consts :=
  repeat match goal with
         | |- context [Z.land ?c 7] =>
             let v := eval vm_compute in (Z.land c 7) in
             change (Z.land c 7) with v
         | |- context [acceptRanges ?k] =>
             let v := eval vm_compute in (acceptRanges k) in
             change (acceptRanges k) with v
         end; cbn [fst snd]; unfold locb, hicb.

(** [WriteRune] writes the bytes a rune was decoded from, unless they
    were no valid encoding. *)
Lemma Encode_Decode (s : string) c w :
  s ≠ EmptyString → DecodeRuneInString s = (c, w) →
  ¬ (c = RuneError ∧ w = 1) →
  WriteRune EmptyString c = stake w s.
Proof.
  intros Hne Hd Herr. pose proof (len_pos s Hne) as Hlen.
  revert Hd. rewrite Decode_eq. cbv zeta.
  pose proof (at_range s 0) as Hr0. pose proof (at_range s 1) as Hr1.
  pose proof (at_range s 2) as Hr2. pose proof (at_range s 3) as Hr3.
  assert (Hs1 : stake 1 s = str1 (byteOf (at_ s 0)))
    by (by rewrite stake_S by lia).
  assert (Hs2 : 2 ≤ len s →
                stake 2 s
                = String (byteOf (at_ s 0)) (str1 (byteOf (at_ s 1))))
    by (intros; by rewrite stake_S, Hs1 by lia).
  assert (Hs3 : 3 ≤ len s →
                stake 3 s
                = String (byteOf (at_ s 0))
                    (String (byteOf (at_ s 1)) (str1 (byteOf (at_ s 2)))))
    by (intros; by rewrite stake_S, Hs2 by lia).
  assert (Hs4 : 4 ≤ len s →
                stake 4 s
                = String (byteOf (at_ s 0))
                    (String (byteOf (at_ s 1))
                       (String (byteOf (at_ s 2)) (str1 (byteOf (at_ s 3))))))
    by (intros; by rewrite stake_S, Hs3 by lia).
  set (b0 := at_ s 0) in *. set (b1 := at_ s 1) in *.
  set (b2 := at_ s 2) in *. set (b3 := at_ s 3) in *.
  clearbody b0 b1 b2 b3.
  destruct (Z.ltb_spec (Z.of_nat (len s)) 1); [lia|].
  destruct (first_cases b0)
    as [[Hb Hx]|[[Hb Hx]|[[Hb Hx]|[[Hb Hx]|[[Hb Hx]|[[Hb Hx]|[[Hb Hx]|[[Hb Hx]
       |[Hb Hx]]]]]]]]];
    rewrite Hx; decode_consts.
  - (* ASCII *)
    decode_step. change (as_ =? xx)%Z with false. cbv iota.
    intros [= <- <-]. rewrite Hs1.
    unfold WriteRune, RuneSelf. rewrite Z.mod_small by lia.
    destruct (Z.ltb_spec b0 128); [done|lia].
  - (* no first byte *)
    decode_step. change (xx =? xx)%Z with true. cbv iota.
    intros [= <- <-]. by destruct Herr.
  - (* two bytes *)
    decode_step. decode_step; [intros [= <- <-]; by destruct Herr|].
    decode_step; [intros [= <- <-]; by destruct Herr|].
    decode_step. intros [= <- <-]. decode_bools.
    rewrite Hs2 by lia. apply Encode_2; lia.
  - (* three bytes, after E0 *)
    decode_step. decode_step; [intros [= <- <-]; by destruct Herr|].
    decode_step; [intros [= <- <-]; by destruct Herr|].
    decode_step. decode_step; [intros [= <- <-]; by destruct Herr|].
    decode_step. intros [= <- <-]. decode_bools.
    rewrite Hs3 by lia. apply Encode_3; lia.
  - decode_step. decode_step; [intros [= <- <-]; by destruct Herr|].
    decode_step; [intros [= <- <-]; by destruct Herr|].
    decode_step. decode_step; [intros [= <- <-]; by destruct Herr|].
    decode_step. intros [= <- <-]. decode_bools.
    rewrite Hs3 by lia. apply Encode_3; lia.
  - decode_step. decode_step; [intros [= <- <-]; by destruct Herr|].
    decode_step; [intros [= <- <-]; by destruct Herr|].
    decode_step. decode_step; [intros [= <- <-]; by destruct Herr|].
    decode_step. intros [= <- <-]. decode_bools.
    rewrite Hs3 by lia. apply Encode_3; lia.
  - (* four bytes *)
    decode_step. decode_step; [intros [= <- <-]; by destruct Herr|].
    decode_step; [intros [= <- <-]; by destruct Herr|].
    decode_step. decode_step; [intros [= <- <-]; by destruct Herr|].
    decode_step. decode_step; [intros [= <- <-]; by destruct Herr|].
    intros [= <- <-]. decode_bools.
    rewrite Hs4 by lia. apply Encode_4; lia.
  - decode_step. decode_step; [intros [= <- <-]; by destruct Herr|].
    decode_step; [intros [= <- <-]; by destruct Herr|].
    decode_step. decode_step; [intros [= <- <-]; by destruct Herr|].
    decode_step. decode_step; [intros [= <- <-]; by destruct Herr|].
    intros [= <- <-]. decode_bools.
    rewrite Hs4 by lia. apply Encode_4; lia.
  - decode_step. decode_step; [intros [= <- <-]; by destruct Herr|].
    decode_step; [intros [= <- <-]; by destruct Herr|].
    decode_step. decode_step; [intros [= <- <-]; by destruct Herr|].
    decode_step. decode_step; [intros [= <- <-]; by destruct Herr|].
    intros [= <- <-]. decode_bools.
    rewrite Hs4 by lia. apply Encode_4; lia.
Qed.

(** ** The runes of a string, whatever the index they are counted from *)

Lemma runesFrom_shift (s : string) :
  ∀ i p,
    runesFrom s i p
    = map (λ r : nat * Z * string, (i + r.1.1, r.1.2, r.2)) (runesFrom s 0 p).
Proof.
  induction s as [|a s IH]; intros i p; [done|].
  cbn [runesFrom]. destruct p as [|p].
  - destruct (DecodeRuneInString (String a s)) as [c w]. cbn [map fst snd].
    rewrite Nat.add_0_r. f_equal.
    rewrite (IH (S i)), (IH 1), map_map. apply map_ext. intros [[j c'] b].
    cbn. do 2 f_equal. lia.
  - rewrite (IH (S i)), (IH 1), map_map. apply map_ext. intros [[j c'] b].
    cbn. do 2 f_equal. lia.
Qed.

Lemma reencoded_nil : reencoded EmptyString = EmptyString.
Proof. reflexivity. Qed.

Lemma reencoded_unfold (s : string) c w :
  s ≠ EmptyString → DecodeRuneInString s = (c, w) →
  reencoded s = WriteRune EmptyString c +:+ reencoded (sdrop w s).
Proof.
  intros Hne Hd. unfold reencoded, runes.
  rewrite (runesFrom_unfold s 0 c w Hne Hd). cbn [foldr fst snd]. f_equal.
  rewrite (runesFrom_shift _ (0 + w)).
  generalize (runesFrom (sdrop w s) 0 0). intros l.
  induction l as [|r l IHl]; [done|]. cbn [map foldr fst snd]. by rewrite IHl.
Qed.

Lemma validUtf8_unfold (s : string) c w :
  s ≠ EmptyString → DecodeRuneInString s = (c, w) →
  validUtf8 s
  = negb (bool_decide (c = RuneError ∧ w = 1)) && validUtf8 (sdrop w s).
Proof.
  intros Hne Hd. pose proof (Decode_width s c w Hne Hd) as [Hw _].
  unfold validUtf8, runes.
  rewrite (runesFrom_unfold s 0 c w Hne Hd). cbn [forallb fst snd].
  rewrite len_stake, Nat.min_l by lia. f_equal.
  rewrite (runesFrom_shift _ (0 + w)).
  generalize (runesFrom (sdrop w s) 0 0). intros l.
  induction l as [|r l IHl]; [done|]. cbn [map forallb fst snd]. by rewrite IHl.
Qed.

(** Valid UTF-8 is written back as it is. *)
Lemma reencoded_valid (s : string) : validUtf8 s = true → reencoded s = s.
Proof.
  induction s as [|s c w Hne Hd Hw IH] using rune_ind; [done|].
  rewrite (validUtf8_unfold s c w Hne Hd), (reencoded_unfold s c w Hne Hd).
  intros [Hv Hrest]%andb_true_iff.
  apply negb_true_iff, bool_decide_eq_false in Hv.
  rewrite (Encode_Decode s c w Hne Hd Hv), IH by done.
  apply stake_sdrop.
Qed.

Lemma validUtf8_ascii (s : string) : allBytes isAscii s = true → validUtf8 s = true.
Proof.
  induction s as [|a s IH]; [done|]. cbn [allBytes].
  intros [Ha Hs]%andb_true_iff. apply bool_decide_eq_true in Ha.
  rewrite (validUtf8_unfold (String a s) (byteZ a) 1); [|done|].
  - rewrite sdrop_cons, sdrop_0, IH by done.
    rewrite bool_decide_eq_false_2; [done|].
    intros [Hc _]. unfold RuneError in Hc. lia.
  - by rewrite Decode_ascii.
Qed.

(** ** Unquoting: every input *)

Lemma WriteRune_app (buf : string) c :
  WriteRune buf c = buf +:+ WriteRune EmptyString c.
Proof.
  unfold WriteRune. destruct (_ <? _)%Z; by rewrite app_nil_l_s.
Qed.

Lemma endsWith_sdrop b n (s : string) :
  endsWith b s = false → endsWith b (sdrop n s) = false.
Proof.
  revert s. induction n as [|n IH]; intros s Hs; [by rewrite sdrop_0|].
  destruct s as [|a s]; [done|]. rewrite sdrop_cons. apply IH.
  destruct s as [|a' s]; [done|]. by rewrite endsWith_cons in Hs.
Qed.

(** Bytes other than the backslash pass through [unquoteBytes]. *)
Lemma unquoteBytes_app (e r : string) :
  countByte backslashByte e = 0 →
  unquoteBytes (e +:+ r) = e +:+ unquoteBytes r.
Proof.
  induction e as [|a e IH]; intros He; [by rewrite !app_nil_l_s|].
  cbn [countByte] in He. destruct (decide (a = backslashByte)); [lia|].
  rewrite !app_cons_s, unquoteBytes_cons by (by left). by rewrite IH by lia.
Qed.

Lemma countByte_stake b n (s : string) :
  n ≤ len s → (∀ j, j < n → at_ s j ≠ byteZ b) → countByte b (stake n s) = 0.
Proof.
  revert s. induction n as [|n IH]; intros s Hn Hj; [by destruct s|].
  destruct s as [|a s]; [cbn in Hn; lia|]. rewrite len_cons in Hn.
  cbn [stake countByte]. rewrite decide_False.
  - rewrite IH; [done|lia|]. intros j Hlt.
    specialize (Hj (S j) ltac:(lia)). by rewrite at_cons_S in Hj.
  - intros ->. by apply (Hj 0 ltac:(lia)).
Qed.

(** What is written for a rune other than the backslash holds no
    backslash. *)
Lemma WriteRune_no_backslash (s : string) c w :
  s ≠ EmptyString → DecodeRuneInString s = (c, w) → c ≠ byteZ backslashByte →
  countByte backslashByte (WriteRune EmptyString c) = 0.
Proof.
  intros Hne Hd Hc. pose proof (Decode_width s c w Hne Hd) as [Hw _].
  destruct (decide (c = RuneError ∧ w = 1)) as [[-> ->]|Herr]; [done|].
  rewrite (Encode_Decode s c w Hne Hd Herr).
  apply countByte_stake; [lia|]. intros j Hj Hat.
  destruct j as [|j].
  - assert (Hd' : DecodeRuneInString s = (at_ s 0, 1)).
    { apply Decode_ascii; [done|]. rewrite Hat.
      by change (byteZ backslashByte) with 92%Z. }
    rewrite Hd' in Hd. apply Hc. congruence.
  - pose proof (Decode_cont s c w (S j) Hd ltac:(lia)) as Hk.
    rewrite Hat in Hk. unfold isCont in Hk.
    change (byteZ backslashByte) with 92%Z in Hk. lia.
Qed.

(** What is written for a string starts with a double quote only when the
    string does. *)
Lemma reencoded_head (s r : string) :
  reencoded s = String quoteByte r → ∃ t, s = String quoteByte t.
Proof.
  destruct (decide (s = EmptyString)) as [->|Hne]; [done|].
  destruct (DecodeRuneInString s) as [c w] eqn:Hd.
  pose proof (Decode_width s c w Hne Hd) as [Hw _].
  rewrite (reencoded_unfold s c w Hne Hd).
  destruct (decide (c = RuneError ∧ w = 1)) as [[-> ->]|Herr]; [done|].
  rewrite (Encode_Decode s c w Hne Hd Herr).
  destruct s as [|a s]; [done|]. destruct w as [|w]; [lia|].
  cbn [stake]. rewrite app_cons_s. intros [= -> _]. by eexists.
Qed.

(** The loop of [unquoteGdbStringResult] in front of a rest [s] of the
    input that does not end in a backslash: it appends what the single pass
    makes of the runes of [s]; with [skip] set it stands in front of the
    double quote of a pair and drops it. *)
Lemma unquoteLoop_run (input : string) (s : string) :
  ∀ pre buf skip,
    input = pre +:+ s →
    endsWith backslashByte s = false →
    (skip = true → ∃ t, s = String quoteByte t) →
    (st ← unquoteLoop input (len input) (runesFrom s (len pre) 0) (buf, skip);
     Ret st.1)
    = Ret (buf +:+ unquoteBytes (reencoded (if skip then sdrop 1 s else s))).
Proof.
  induction s as [|s c w Hne Hd Hw IH] using rune_ind;
    intros pre buf skip Hin Hend Hskip.
  { cbn. destruct skip; by rewrite app_nil_r_s. }
  rewrite (runesFrom_unfold s (len pre) c w Hne Hd). cbn [unquoteLoop].
  assert (Hnext : ∀ buf' skip',
            (skip' = true → ∃ t, sdrop w s = String quoteByte t) →
            (st ← unquoteLoop input (len input)
                    (runesFrom (sdrop w s) (len pre + w) 0) (buf', skip');
             Ret st.1)
            = Ret (buf' +:+ unquoteBytes
                              (reencoded (if skip' then sdrop 1 (sdrop w s)
                                          else sdrop w s)))).
  { intros buf' skip' Hs'.
    replace (len pre + w) with (len (pre +:+ stake w s))
      by (rewrite len_app, len_stake; lia).
    apply IH; [|by apply endsWith_sdrop|done].
    by rewrite app_assoc_s, stake_sdrop. }
  unfold unquoteStep. destruct skip.
  - (* the double quote of a pair *)
    destruct (Hskip eq_refl) as [t ->].
    rewrite Decode_ascii in Hd by done.
    assert (w = 1) as -> by congruence.
    cbn [mbind outcome_bind]. rewrite Hnext by done. done.
  - destruct (decide (c = byteZ backslashByte)) as [->|Hc].
    + destruct (Decode_small s _ w Hne Hd ltac:(done)) as [Hb ->].
      destruct s as [|a s']; [done|]. rewrite at_cons_0 in Hb.
      apply byteZ_inj in Hb. subst a.
      rewrite sdrop_cons, sdrop_0 in Hnext.
      destruct s' as [|b' t']; [done|].
      rewrite bool_decide_eq_true_2 by done.
      rewrite bool_decide_eq_true_2 by (rewrite Hin, len_app, !len_cons; lia).
      cbn [andb]. unfold byteAt. rewrite Hin at 1. rewrite get_app_r.
      cbn [String.get mbind outcome_bind].
      rewrite (reencoded_unfold _ _ _ Hne Hd), sdrop_cons, sdrop_0.
      rewrite (WriteRune_ascii EmptyString backslashByte), app_nil_l_s by done.
      destruct (decide (b' = quoteByte)) as [->|Hq].
      * rewrite bool_decide_eq_true_2 by done. cbn [mbind outcome_bind].
        rewrite Hnext by (intros _; by eexists).
        rewrite (WriteRune_ascii buf quoteByte) by done.
        rewrite sdrop_cons, sdrop_0.
        rewrite (reencoded_unfold (String quoteByte t') (byteZ quoteByte) 1)
          by (done || by apply Decode_ascii).
        rewrite (WriteRune_ascii EmptyString quoteByte), app_nil_l_s by done.
        rewrite sdrop_cons, sdrop_0, app_assoc_s.
        change (str1 backslashByte +:+ str1 quoteByte +:+ reencoded t')
          with (String backslashByte (String quoteByte (reencoded t'))).
        cbn [unquoteBytes]. by rewrite decide_True.
      * rewrite bool_decide_eq_false_2 by done. cbn [mbind outcome_bind].
        rewrite Hnext by done.
        rewrite (WriteRune_ascii buf backslashByte), app_assoc_s by done.
        do 2 f_equal. symmetry.
        change (str1 backslashByte +:+ reencoded (String b' t'))
          with (String backslashByte (reencoded (String b' t'))).
        apply unquoteBytes_cons. right. intros r Hr.
        apply reencoded_head in Hr as [t Ht]. congruence.
    + rewrite bool_decide_eq_false_2 by done. cbn [andb mbind outcome_bind].
      rewrite Hnext by done.
      rewrite (WriteRune_app buf c), app_assoc_s. do 2 f_equal.
      rewrite (reencoded_unfold _ _ _ Hne Hd). symmetry.
      apply unquoteBytes_app. by eapply WriteRune_no_backslash.
Qed.

Lemma endsWith_snoc b (s : string) :
  endsWith b s = true → ∃ t, s = t +:+ str1 b.
Proof.
  induction s as [|a s IH]; [done|]. destruct s as [|a' s'].
  - cbn. intros ->%bool_decide_eq_true. by exists EmptyString.
  - rewrite endsWith_cons by done. intros [t Ht]%IH.
    exists (String a t). by rewrite app_cons_s, <- Ht.
Qed.

(** [unquoteGdbStringResult] on every input: it panics when the input ends
    in a backslash, and otherwise returns the single pass over the runes of
    the input as [WriteRune] writes them. *)
Lemma unquoteGdbStringResult_run (input : string) :
  unquoteGdbStringResult input
  = if endsWith backslashByte input then Panic IndexOutOfRange
    else Ret (unquoteBytes (reencoded input)).
Proof.
  destruct (endsWith backslashByte input) eqn:Hend.
  - apply endsWith_snoc in Hend as [t ->].
    apply unquoteGdbStringResult_trailing_backslash.
  - unfold unquoteGdbStringResult, runes. cbv zeta.
    pose proof (unquoteLoop_run input input EmptyString EmptyString false
                  eq_refl Hend ltac:(done)) as H.
    cbn [len String.length] in H. rewrite H. by rewrite app_nil_l_s.
Qed.

(** ** Unquoting: the single pass *)

(** X3: [unquoteGdbStringResult] panics on the inputs that end in a backslash
    and on no other; on the others it returns the single pass over the
    input, in which U+FFFD stands for each byte that starts no valid UTF-8
    encoding; on valid UTF-8 that is the pass over the bytes of the input. *)
Theorem unquoteGdbStringResult_single_pass (input : string) :
  unquoteGdbStringResult input
  = (if endsWith backslashByte input then Panic IndexOutOfRange
     else Ret (unquoteBytes (reencoded input)))
  ∧ (validUtf8 input = true → reencoded input = input)
  ∧ (validUtf8 input = true → endsWith backslashByte input = false →
     unquoteGdbStringResult input = Ret (unquoteBytes input)).
Proof.
  split; [apply unquoteGdbStringResult_run|]. split; [apply reencoded_valid|].
  intros Hv Hend. rewrite unquoteGdbStringResult_run, Hend.
  by rewrite reencoded_valid.
Qed.

Lemma unquoteGdbStringResult_single_pass_witness :
  unquoteGdbStringResult escapedGreeting = Ret (unquoteBytes escapedGreeting).
Proof.
  apply (proj2 (proj2 (unquoteGdbStringResult_single_pass escapedGreeting)));
    reflexivity.
Defined.

(** A byte that is no UTF-8 is written as U+FFFD. *)
Example unquote_not_utf8 :
  unquoteGdbStringResult (str1 (byteOf 0xFF))
  = Ret (String (byteOf 0xEF) (String (byteOf 0xBF) (str1 (byteOf 0xBD)))).
Proof. reflexivity. Qed.

Lemma escapeQuotes_ascii (s : string) :
  allBytes isAscii s = true → allBytes isAscii (escapeQuotes s) = true.
Proof.
  induction s as [|a s IH]; [done|]. cbn [allBytes escapeQuotes].
  intros [Ha Hs]%andb_true_iff. case_decide; cbn [allBytes]; rewrite IH by done.
  - done.
  - by rewrite Ha.
Qed.

Lemma escapeQuotes_endsWith (s : string) :
  endsWith backslashByte (escapeQuotes s) = endsWith backslashByte s.
Proof.
  induction s as [|a s IH]; [done|]. cbn [escapeQuotes]. case_decide as Ha.
  - subst a. destruct s as [|a' s'].
    + reflexivity.
    + rewrite (endsWith_cons _ quoteByte) by done. rewrite <- IH.
      cbn [escapeQuotes]. by case_decide.
  - destruct s as [|a' s']; [done|].
    rewrite (endsWith_cons _ a (String a' s')) by done. rewrite <- IH.
    cbn [escapeQuotes]. by case_decide.
Qed.

Lemma escapeQuotes_head (s t : string) : escapeQuotes s ≠ String quoteByte t.
Proof.
  destruct s as [|a s]; [done|]. cbn [escapeQuotes].
  case_decide; intros [= ? ?]; done.
Qed.

Lemma unquoteBytes_escapeQuotes (s : string) : unquoteBytes (escapeQuotes s) = s.
Proof.
  induction s as [|a s IH]; [done|]. cbn [escapeQuotes]. case_decide as Ha.
  - subst a. cbn [unquoteBytes]. rewrite decide_True by done. by rewrite IH.
  - rewrite unquoteBytes_cons, IH; [done|].
    right. intros t. apply escapeQuotes_head.
Qed.

Lemma unquote_escapeQuotes (s : string) :
  allBytes isAscii s = true → endsWith backslashByte s = false →
  unquoteGdbStringResult (escapeQuotes s) = Ret s.
Proof.
  intros Ha Hend.
  rewrite unquoteGdbStringResult_run, escapeQuotes_endsWith, Hend.
  rewrite reencoded_valid
    by (by apply validUtf8_ascii, escapeQuotes_ascii).
  by rewrite unquoteBytes_escapeQuotes.
Qed.

(** ** [parseGdbStringResponse]: what is between the quotes *)

Lemma lastIndexFrom_post q (p post : string) i :
  countByte q post = 0 →
  Strings.lastIndexFrom (str1 q) (p +:+ String q post) i = Z.of_nat (i + len p).
Proof.
  intros Hpost. revert i. induction p as [|b p IH]; intros i.
  - rewrite app_nil_l_s. cbn [Strings.lastIndexFrom].
    destruct (index_count q post (S i)) as [H0 _].
    destruct (H0 Hpost) as [_ ->]. rewrite decide_True by done.
    rewrite prefix_str1, bool_decide_eq_true_2 by done. cbn. f_equal. lia.
  - rewrite app_cons_s. cbn [Strings.lastIndexFrom]. rewrite IH.
    rewrite decide_False by lia. rewrite len_cons. f_equal. lia.
Qed.

Lemma parseGdbStringResponse_between (pre mid post : string) :
  countByte quoteByte pre = 0 → countByte quoteByte post = 0 →
  parseGdbStringResponse
    (pre +:+ String quoteByte (mid +:+ String quoteByte post))
  = (unquote ← unquoteGdbStringResult mid; Ret (unquote, None)).
Proof.
  intros Hpre Hpost.
  set (resp := pre +:+ String quoteByte (mid +:+ String quoteByte post)).
  assert (Hfirst : Strings.Index resp (str1 quoteByte) = Z.of_nat (len pre)).
  { unfold Strings.Index, resp. by rewrite indexFrom_first. }
  assert (Hlast : Strings.LastIndex resp (str1 quoteByte)
                  = Z.of_nat (len pre + 1 + len mid)).
  { unfold Strings.LastIndex, resp.
    replace (pre +:+ String quoteByte (mid +:+ String quoteByte post))
      with ((pre +:+ String quoteByte mid) +:+ String quoteByte post)
      by (by rewrite app_assoc_s).
    rewrite lastIndexFrom_post by done. rewrite len_app, len_cons.
    f_equal. lia. }
  unfold parseGdbStringResponse. fold resp. rewrite Hfirst, Hlast.
  rewrite decide_False by lia.
  assert (Hslice : slice resp (Z.of_nat (len pre) + 1)
                     (Z.of_nat (len pre + 1 + len mid)) = Ret mid).
  { unfold slice, resp. rewrite !len_app, !len_cons, len_app, len_cons.
    rewrite decide_True by lia. f_equal.
    replace (Z.to_nat (Z.of_nat (len pre) + 1))
      with (len (pre +:+ str1 quoteByte))
      by (rewrite len_app; change (len (str1 quoteByte)) with 1; lia).
    change (pre +:+ String quoteByte (mid +:+ String quoteByte post))
      with (pre +:+ str1 quoteByte +:+ mid +:+ String quoteByte post).
    rewrite <- (app_assoc_s pre), sdrop_app.
    apply stake_app_len. lia. }
  by rewrite Hslice.
Qed.

(** X4: unquoting undoes the quoting.  A string of ASCII bytes that does
    not end in a backslash, whatever backslashes and double quotes it holds,
    comes back as it was from [unquoteGdbStringResult], and from
    [parseGdbStringResponse] when it stands quoted between two double quotes
    with no double quote in front of them or behind them. *)
Theorem unquoteGdbStringResult_escapeQuotes (s : string) :
  allBytes isAscii s = true → endsWith backslashByte s = false →
  unquoteGdbStringResult (escapeQuotes s) = Ret s
  ∧ ∀ pre post,
      countByte quoteByte pre = 0 → countByte quoteByte post = 0 →
      parseGdbStringResponse
        (pre +:+ String quoteByte (escapeQuotes s +:+ String quoteByte post))
      = Ret (s, None).
Proof.
  intros Ha Hend. split; [by apply unquote_escapeQuotes|].
  intros pre post Hpre Hpost.
  rewrite parseGdbStringResponse_between by done.
  by rewrite unquote_escapeQuotes.
Qed.

Lemma unquoteGdbStringResult_escapeQuotes_witness :
  escapeQuotes greeting = escapedGreeting
  ∧ unquoteGdbStringResult (escapeQuotes greeting) = Ret greeting.
Proof.
  split; [reflexivity|].
  apply (proj1 (unquoteGdbStringResult_escapeQuotes greeting eq_refl eq_refl)).
Defined.

(** X2: [parseGdbStringResponse] on a response with two double quotes or more:
    the bytes in front of the first and behind the last double quote are
    dropped, whatever they are, and what is between them is unquoted; the
    call panics when that ends in a backslash. *)
Theorem parseGdbStringResponse_contents (pre mid post : string) :
  countByte quoteByte pre = 0 → countByte quoteByte post = 0 →
  parseGdbStringResponse
    (pre +:+ String quoteByte (mid +:+ String quoteByte post))
  = (if endsWith backslashByte mid then Panic IndexOutOfRange
     else Ret (unquoteBytes (reencoded mid), None))
  ∧ (validUtf8 mid = true → endsWith backslashByte mid = false →
     parseGdbStringResponse
       (pre +:+ String quoteByte (mid +:+ String quoteByte post))
     = Ret (unquoteBytes mid, None)).
Proof.
  intros Hpre Hpost. rewrite parseGdbStringResponse_between by done.
  rewrite unquoteGdbStringResult_run. split.
  - by destruct (endsWith backslashByte mid).
  - intros Hv ->. by rewrite reencoded_valid.
Qed.

Lemma parseGdbStringResponse_contents_witness :
  parseGdbStringResponse
    ("0x7f261d8624e8 " +:+ String quoteByte
       (escapedGreeting +:+ String quoteByte "..."))
  = Ret (greeting, None).
Proof.
  apply (proj2 (parseGdbStringResponse_contents "0x7f261d8624e8 "
                  escapedGreeting "..." eq_refl eq_refl));
    reflexivity.
Defined.

(** ** Evaluating expressions in gdb *)

(** [xGdbCmdValue] on an answer [^done,value=s]: it returns [s], and the
    one thing it does is to send the command. *)
Lemma xGdbCmdValue_trace (gdbSession : Gdb) (expression : string) (w : world)
    (result payload : gmap string value) (s : string) :
  gdbSession (sentCommands (trace w)) "data-evaluate-expression" [expression]
  = inl result →
  result !! "class" = Some (VString "done") →
  result !! "payload" = Some (VMap payload) →
  payload !! "value" = Some (VString s) →
  ∃ t, xGdbCmdValue gdbSession expression w = Ret (s, addTrace w t)
       ∧ actions t = evaluated expression.
Proof.
  intros Hg Hc Hp Hv. unfold xGdbCmdValue.
  pose proof (sendGdbCommand_run gdbSession "data-evaluate-expression"
                [expression] w) as Hsend.
  rewrite Hg in Hsend. destruct Hsend as (t & Hs & Ht).
  erewrite bind_Ret by exact Hs. cbv zeta. rewrite Hc, Hp.
  rewrite bool_decide_eq_true_2 by eauto. cbn [negb ifaceEqString].
  rewrite bool_decide_eq_true_2 by done. cbn [negb].
  erewrite bind_Ret by reflexivity.
  erewrite bind_Ret by reflexivity.
  erewrite bind_Ret by reflexivity.
  rewrite Hv.
  erewrite bind_Ret by reflexivity.
  by exists t.
Qed.

Lemma xGdbCmdValue_fatal (gdbSession : Gdb) (expression : string) (w : world)
    (err : error) :
  gdbSession (sentCommands (trace w)) "data-evaluate-expression" [expression]
  = inr err →
  xGdbCmdValue gdbSession expression w = Fatal err.
Proof.
  intros Hg. unfold xGdbCmdValue.
  pose proof (sendGdbCommand_run gdbSession "data-evaluate-expression"
                [expression] w) as Hsend.
  rewrite Hg in Hsend. by erewrite bind_Fatal by exact Hsend.
Qed.

(** X10: [xSlashDgdb] on an answer [^done,value=s]: it returns the integer that
    [s] is the decimal numeral of, having sent the one command, and panics
    when [s] is no such numeral; the numeral [Itoa n] of an integer gives
    back [n]. *)
Theorem xSlashDgdb_value (gdbSession : Gdb) (expression : string) (w : world)
    (result payload : gmap string value) (s : string) :
  gdbSession (sentCommands (trace w)) "data-evaluate-expression" [expression]
  = inl result →
  result !! "class" = Some (VString "done") →
  result !! "payload" = Some (VMap payload) →
  payload !! "value" = Some (VString s) →
  match Strconv.Atoi s with
  | inl n =>
      ∃ t, xSlashDgdb gdbSession expression w = Ret (n, addTrace w t)
           ∧ actions t = evaluated expression
  | inr err => xSlashDgdb gdbSession expression w = Panic (PanicIf err)
  end
  ∧ ∀ n, (Strconv.minInt ≤ n ≤ Strconv.maxInt)%Z → s = Strconv.Itoa n →
         ∃ w', xSlashDgdb gdbSession expression w = Ret (n, w').
Proof.
  intros Hg Hc Hp Hv.
  destruct (xGdbCmdValue_trace _ _ _ _ _ _ Hg Hc Hp Hv) as (t & Hrun & Ht).
  assert (Hm : match Strconv.Atoi s with
               | inl n =>
                   xSlashDgdb gdbSession expression w = Ret (n, addTrace w t)
               | inr err =>
                   xSlashDgdb gdbSession expression w = Panic (PanicIf err)
               end).
  { unfold xSlashDgdb. erewrite bind_Ret by exact Hrun.
    by destruct (Strconv.Atoi s). }
  split.
  - destruct (Strconv.Atoi s); [by exists t|done].
  - intros n Hn ->. rewrite Atoi_Itoa in Hm by done. by eexists.
Qed.

Lemma xSlashDgdb_value_witness :
  ∃ w', xSlashDgdb (gdbDoneValue "-42") "lineno" verboseWorld = Ret ((-42)%Z, w').
Proof.
  apply (proj2 (xSlashDgdb_value (gdbDoneValue "-42") "lineno" verboseWorld
                  _ {[ "value" := VString "-42" ]} "-42"
                  eq_refl eq_refl eq_refl eq_refl) (-42)%Z).
  - vm_compute. split; discriminate.
  - reflexivity.
Defined.

(** X9: [xSlashSgdb] on an answer [^done,value=s]: it panics when [s] holds
    fewer than two double quotes, as gdb's text for a number does, and when
    what is between the quotes ends in a backslash; otherwise it returns
    that, unquoted, having sent the one command. *)
Theorem xSlashSgdb_value (gdbSession : Gdb) (expression : string) (w : world)
    (result payload : gmap string value) (s : string) :
  gdbSession (sentCommands (trace w)) "data-evaluate-expression" [expression]
  = inl result →
  result !! "class" = Some (VString "done") →
  result !! "payload" = Some (VMap payload) →
  payload !! "value" = Some (VString s) →
  (countByte quoteByte s < 2 →
   xSlashSgdb gdbSession expression w
   = Panic (PanicIf
              (errorString
                 ("Improper gdb data-evaluate-expression string response to: "
                  +:+ s))))
  ∧ (∀ pre mid post,
       s = pre +:+ String quoteByte (mid +:+ String quoteByte post) →
       countByte quoteByte pre = 0 → countByte quoteByte post = 0 →
       if endsWith backslashByte mid
       then xSlashSgdb gdbSession expression w = Panic IndexOutOfRange
       else ∃ t, xSlashSgdb gdbSession expression w
                 = Ret (unquoteBytes (reencoded mid), addTrace w t)
                 ∧ actions t = evaluated expression).
Proof.
  intros Hg Hc Hp Hv.
  destruct (xGdbCmdValue_trace _ _ _ _ _ _ Hg Hc Hp Hv) as (t & Hrun & Ht).
  unfold xSlashSgdb. erewrite bind_Ret by exact Hrun. split.
  - intros Hn. pose proof (parseGdbStringResponse_run s) as Hr.
    rewrite decide_True in Hr by done.
    erewrite bind_Ret by (unfold lift; rewrite Hr; reflexivity).
    reflexivity.
  - intros pre mid post -> Hpre Hpost.
    rewrite parseGdbStringResponse_between by done.
    rewrite unquoteGdbStringResult_run.
    destruct (endsWith backslashByte mid); [reflexivity|].
    exists t. split; [|done]. reflexivity.
Qed.

Lemma xSlashSgdb_value_witness :
  xSlashSgdb (gdbDoneValue "42") "name" quietWorld
  = Panic (PanicIf
             (errorString
                ("Improper gdb data-evaluate-expression string response to: "
                 +:+ "42"))).
Proof.
  apply (proj1 (xSlashSgdb_value (gdbDoneValue "42") "name" quietWorld
                  _ {[ "value" := VString "42" ]} "42"
                  eq_refl eq_refl eq_refl eq_refl)).
  vm_compute. lia.
Defined.

(** X11: when the transport to gdb fails, the calls that evaluate an expression
    end the process with the error of the transport; none of them panics or
    returns. *)
Theorem evaluate_transport_failure (gdbSession : Gdb) (expression : string)
    (w : world) (err : error) :
  gdbSession (sentCommands (trace w)) "data-evaluate-expression" [expression]
  = inr err →
  xGdbCmdValue gdbSession expression w = Fatal err
  ∧ xSlashSgdb gdbSession expression w = Fatal err
  ∧ xSlashDgdb gdbSession expression w = Fatal err.
Proof.
  intros Hg. pose proof (xGdbCmdValue_fatal _ _ _ _ Hg) as Hx.
  split; [done|]. split.
  - unfold xSlashSgdb. by erewrite bind_Fatal by exact Hx.
  - unfold xSlashDgdb. by erewrite bind_Fatal by exact Hx.
Qed.

Lemma evaluate_transport_failure_witness :
  xGdbCmdValue gdbGone "name" verboseWorld = Fatal (errorString "EOF")
  ∧ xSlashSgdb gdbGone "name" verboseWorld = Fatal (errorString "EOF")
  ∧ xSlashDgdb gdbGone "name" verboseWorld = Fatal (errorString "EOF").
Proof.
  apply (evaluate_transport_failure gdbGone "name" verboseWorld). reflexivity.
Defined.

(** ** [parseCommand]: the ways it ends *)

Lemma Atoi_error (s : string) e : Strconv.Atoi s = inr e → e = NumError "Atoi" s.
Proof.
  unfold Strconv.Atoi. destruct s as [|s0 rest]; [congruence|].
  destruct (if decide (s0 = minusByte ∨ s0 = plusByte) then rest
            else String s0 rest); [congruence|].
  destruct (Strconv.parseDigits _ _); [|congruence].
  case_decide; congruence.
Qed.

(** A value bound by the flags of a line is a token of the line or the
    empty string. *)
Lemma bindFlags_value (tokens : list string) :
  ∀ flags k v,
    bindFlags tokens flags !! k = Some v →
    flags !! k = Some v ∨ v = EmptyString ∨ v ∈ tokens.
Proof.
  induction tokens as [tokens IH] using (induction_ltof1 _ length).
  unfold ltof in IH. intros flags k v.
  destruct tokens as [|flag [|val tokens']]; cbn [bindFlags].
  - auto.
  - destruct (decide (k = sdrop 1 flag)) as [->|Hk].
    + rewrite lookup_insert_eq. intros [= <-]. auto.
    + rewrite lookup_insert_ne by done. auto.
  - intros H. apply IH in H; [|cbn; lia].
    destruct H as [H|[H|H]]; [|auto|].
    + destruct (decide (k = sdrop 1 flag)) as [->|Hk].
      * rewrite lookup_insert_eq in H. injection H as <-.
        right; right. set_solver.
      * rewrite lookup_insert_ne in H by done. auto.
    + right; right. set_solver.
Qed.

(** X5: [parseCommand] ends in one of three ways.  It returns a command whose
    verb is the first token of the line and that keeps the line, having
    done nothing but, maybe, print; it panics with an index out of range,
    on a line without token; or it panics with the error of [Atoi], on a
    line that binds [i] to a token, or to the empty string, that is no
    integer.  It never ends the process and never waits. *)
Theorem parseCommand_outcomes (line : string) (reverseMode : bool)
    (w : world) :
  match parseCommand line reverseMode w with
  | Ret (cmd, w') =>
      head (Strings.Fields line) = Some (command cmd)
      ∧ fullCommand cmd = line
      ∧ VerboseFlag w' = VerboseFlag w
      ∧ actions (trace w') = actions (trace w)
  | Panic IndexOutOfRange => Strings.Fields line = []
  | Panic (PanicIf err) =>
      ∃ seq, err = NumError "Atoi" seq
             ∧ Strconv.Atoi seq = inr err
             ∧ (seq = EmptyString ∨ seq ∈ Strings.Fields line)
  | _ => False
  end.
Proof.
  destruct (Strings.Fields line) as [|verb rest] eqn:HF.
  { by rewrite parseCommand_no_verb. }
  rewrite (parseCommand_run _ _ _ _ _ HF). cbv zeta.
  destruct (bindFlags rest ∅ !! "i") as [seq|] eqn:Hi.
  - destruct (Strconv.Atoi seq) as [n|err] eqn:Ha; [done|].
    exists seq. split; [by apply Atoi_error|]. split; [done|].
    apply bindFlags_value in Hi as [Hi|[Hi|Hi]]; [done|auto|].
    right. set_solver.
  - cbn [command fullCommand]. split; [done|]. split; [done|]. split.
    + destruct (VerboseFlag w) eqn:Hv; cbn [VerboseFlag addTrace]; done.
    + destruct (VerboseFlag w); [|done]. cbn [trace addTrace].
      rewrite actions_app. cbn. by rewrite app_nil_r.
Qed.

(** ** [parseCommand]: the last binding of a flag *)

Lemma bindFlags_app (n : nat) :
  ∀ pairs rest flags,
    length pairs = 2 * n →
    bindFlags (pairs ++ rest) flags = bindFlags rest (bindFlags pairs flags).
Proof.
  induction n as [|n IH]; intros pairs rest flags Hlen.
  - destruct pairs; [done|cbn in Hlen; lia].
  - destruct pairs as [|flag [|val pairs]]; [cbn in Hlen; lia..|].
    cbn [app bindFlags]. cbn in Hlen.
    change (flag :: val :: pairs ++ rest) with ([flag; val] ++ pairs ++ rest).
    cbn [app bindFlags]. apply IH. lia.
Qed.

(** What the flags of [after] leave of a binding made before them. *)
Lemma bindFlags_lookup (tokens : list string) :
  ∀ flags k,
    bindFlags tokens flags !! k
    = match bindFlags tokens ∅ !! k with
      | Some v => Some v
      | None => flags !! k
      end.
Proof.
  induction tokens as [tokens IH] using (induction_ltof1 _ length).
  unfold ltof in IH. intros flags k.
  destruct tokens as [|flag [|val tokens']]; cbn [bindFlags].
  - by rewrite lookup_empty.
  - destruct (decide (k = sdrop 1 flag)) as [->|Hk].
    + by rewrite !lookup_insert_eq.
    + by rewrite !lookup_insert_ne, lookup_empty by done.
  - rewrite (IH tokens' ltac:(cbn; lia) (<[_:=_]> flags)).
    rewrite (IH tokens' ltac:(cbn; lia) (<[_:=_]> ∅)).
    destruct (bindFlags tokens' ∅ !! k); [done|].
    destruct (decide (k = sdrop 1 flag)) as [->|Hk].
    + by rewrite !lookup_insert_eq.
    + by rewrite !lookup_insert_ne, lookup_empty by done.
Qed.

(** The binding of a flag that no later pair binds again. *)
Lemma bindFlags_at (n : nat) (before after : list string) (flag : string)
    (last : option string) :
  length before = 2 * n →
  bindFlags after ∅ !! sdrop 1 flag = None →
  bindFlags (before ++ flag :: match last with
                                | Some val => val :: after
                                | None => []
                                end) ∅ !! sdrop 1 flag
  = Some (default EmptyString last).
Proof.
  intros Hlen Hafter. rewrite (bindFlags_app n) by done.
  destruct last as [val|]; cbn [bindFlags default].
  - rewrite bindFlags_lookup, Hafter. apply lookup_insert_eq.
  - apply lookup_insert_eq.
Qed.

(** X6: when a flag is bound more than once, the last binding holds.  On a
    line where a flag stands at a flag's place, with its value or at the end
    of the line without one, and no pair behind it binds the flag again,
    [parseCommand] returns a command whose options bind the flag to that
    value, or to the empty string, whenever the line binds [i] to an integer
    or not at all; it panics with the error of [Atoi] when the line binds
    [i] to something else. *)
Theorem parseCommand_last_binding (line : string) (reverseMode : bool)
    (w : world) (verb flag : string) (before after rest : list string)
    (n : nat) (last : option string) :
  Strings.Fields line = verb :: rest →
  rest = before ++ flag :: match last with
                           | Some val => val :: after
                           | None => []
                           end →
  length before = 2 * n →
  bindFlags after ∅ !! sdrop 1 flag = None →
  let returns :=
    ∃ cmd w', parseCommand line reverseMode w = Ret (cmd, w')
              ∧ options cmd !! sdrop 1 flag
                = Some (default EmptyString last) in
  match bindFlags rest ∅ !! "i" with
  | None => returns
  | Some seq =>
      match Strconv.Atoi seq with
      | inl _ => returns
      | inr err => parseCommand line reverseMode w = Panic (PanicIf err)
      end
  end.
Proof.
  intros HF -> Hlen Hafter returns. subst returns.
  rewrite (parseCommand_run _ _ _ _ _ HF). cbv zeta.
  pose proof (bindFlags_at n before after flag last Hlen Hafter) as Hb.
  destruct (bindFlags _ ∅ !! "i") as [seq|].
  - destruct (Strconv.Atoi seq); [|done]. eauto.
  - eauto.
Qed.

Lemma parseCommand_last_binding_witness :
  ∃ cmd w',
    parseCommand "breakpoint_set -i 3 -t line -t conditional -s enabled"
      false quietWorld = Ret (cmd, w')
    ∧ options cmd !! "t" = Some "conditional".
Proof.
  pose proof (parseCommand_last_binding
                "breakpoint_set -i 3 -t line -t conditional -s enabled" false
                quietWorld "breakpoint_set" "-t" ["-i"; "3"; "-t"; "line"]
                ["-s"; "enabled"] _ 2 (Some "conditional")
                ltac:(vm_compute; reflexivity) eq_refl eq_refl
                ltac:(vm_compute; reflexivity)) as H.
  cbv zeta in H.
  replace (bindFlags _ ∅ !! "i") with (Some "3") in H
    by (vm_compute; reflexivity).
  replace (Atoi "3") with (inl 3%Z : Z + error) in H
    by (vm_compute; reflexivity).
  exact H.
Defined.

(** X7: the sequence number has to be an integer: when the last binding of
    [i] on the line, wherever it stands, is to a token that [Atoi] rejects,
    or when the flag ends the line and so is bound to the empty string,
    [parseCommand] panics with the error of [Atoi]. *)
Theorem parseCommand_seqNum_not_integer (line : string) (reverseMode : bool)
    (w : world) (verb flag : string) (before after : list string) (n : nat)
    (last : option string) (err : error) :
  Strings.Fields line
  = verb :: before ++ flag :: match last with
                              | Some val => val :: after
                              | None => []
                              end →
  length before = 2 * n →
  sdrop 1 flag = "i" →
  bindFlags after ∅ !! "i" = None →
  Strconv.Atoi (default EmptyString last) = inr err →
  parseCommand line reverseMode w = Panic (PanicIf err).
Proof.
  intros HF Hlen Hflag Hafter Herr.
  rewrite (parseCommand_run _ _ _ _ _ HF). cbv zeta.
  rewrite <- Hflag in Hafter.
  pose proof (bindFlags_at n before after flag last Hlen Hafter) as Hb.
  rewrite Hflag in Hb. by rewrite Hb, Herr.
Qed.

Lemma parseCommand_seqNum_not_integer_witness :
  parseCommand "run -i 7 -i abc -x 1" false quietWorld
  = Panic (PanicIf (NumError "Atoi" "abc"))
  ∧ parseCommand "status -i" false quietWorld
    = Panic (PanicIf (NumError "Atoi" EmptyString)).
Proof.
  split.
  - apply (parseCommand_seqNum_not_integer "run -i 7 -i abc -x 1" false
             quietWorld "run" "-i" ["-i"; "7"] ["-x"; "1"] 1 (Some "abc"));
      reflexivity.
  - apply (parseCommand_seqNum_not_integer "status -i" false quietWorld
             "status" "-i" [] [] 0 None); reflexivity.
Defined.

(** X8: a value of [z] other than 1 and 0, the empty string of a [-z] that
    ends the line among them, leaves the command in the ambient mode. *)
Theorem parseCommand_reverse_ambient (line : string) (reverseMode : bool)
    (w : world) (cmd : dbgpCmd) (w' : world) (r : string) :
  parseCommand line reverseMode w = Ret (cmd, w') →
  options cmd !! "z" = Some r → r ≠ "1" → r ≠ "0" →
  reverse cmd = reverseMode.
Proof.
  intros Hrun Hz H1 H0.
  destruct (Strings.Fields line) as [|verb rest] eqn:HF.
  { by rewrite parseCommand_no_verb in Hrun. }
  rewrite (parseCommand_run _ _ _ _ _ HF) in Hrun. cbv zeta in Hrun.
  assert (Hcmd : options cmd = bindFlags rest ∅
                 ∧ reverse cmd
                   = match bindFlags rest ∅ !! "z" with
                     | Some r =>
                         if decide (r = "1") then true
                         else if decide (r = "0") then false
                         else reverseMode
                     | None => reverseMode
                     end).
  { destruct (bindFlags rest ∅ !! "i") as [seq|].
    - destruct (Strconv.Atoi seq); [|done]. by injection Hrun as <- <-.
    - by injection Hrun as <- <-. }
  destruct Hcmd as [Ho ->]. rewrite <- Ho, Hz.
  by rewrite !decide_False.
Qed.

Lemma parseCommand_reverse_ambient_witness :
  ∃ cmd, parseCommand "run -i 4 -z" true quietWorld = Ret (cmd, quietWorld)
         ∧ options cmd !! "z" = Some EmptyString
         ∧ reverse cmd = true.
Proof.
  eexists. split; [vm_compute; reflexivity|]. split; [reflexivity|].
  eapply (parseCommand_reverse_ambient "run -i 4 -z" true quietWorld _
            quietWorld EmptyString);
    [vm_compute; reflexivity|reflexivity|done|done].
Defined.

(** ** The execution controller: what a call leaves *)

Lemma continueExecution_eq (es : engineState) (reverse : bool) (w : world) :
  match gdbSession es (sentCommands (trace w)) "exec-continue"
          (if reverse then ["--reverse"] else []) with
  | inr err => continueExecution es reverse w = Fatal err
  | inl _ =>
      match breakStopNotify es with
      | [] => continueExecution es reverse w = Blocked
      | breakID :: pending =>
          ∃ t,
            continueExecution es reverse w
            = Ret (breakID,
                   isEnabledPhpTemporaryBreakpoint es breakID
                   || isEnabledPhpBreakpoint es breakID,
                   stoppedAt es breakID pending, addTrace w t)
            ∧ actions t
              = [EvStatus statusRunning;
                 EvGdbSend "exec-continue"
                   (if reverse then ["--reverse"] else []);
                 EvStopNotify breakID;
                 EvStatus statusBreak]
      end
  end.
Proof.
  unfold continueExecution.
  erewrite bind_Ret by apply setStatus_run.
  set (w1 := addTrace w [EvStatus statusRunning]).
  pose proof (sendGdbCommand_run (gdbSession es) "exec-continue"
                (if reverse then ["--reverse"] else []) w1) as Hsend.
  subst w1. cbn [trace addTrace] in Hsend.
  rewrite sentCommands_app in Hsend. cbn in Hsend. rewrite app_nil_r in Hsend.
  change (gdbSession (withStatus es statusRunning)) with (gdbSession es).
  replace (if reverse
           then sendGdbCommand (gdbSession es) "exec-continue" ["--reverse"]
           else sendGdbCommand (gdbSession es) "exec-continue" [])
    with (sendGdbCommand (gdbSession es) "exec-continue"
            (if reverse then ["--reverse"] else [])) by (by destruct reverse).
  destruct (gdbSession es _ _ _) as [result|err].
  - destruct Hsend as (t & Hs & Ht).
    erewrite bind_Ret by exact Hs.
    destruct (breakStopNotify es) as [|breakID pending] eqn:Hq.
    + apply bind_Blocked. unfold receiveStop.
      change (breakStopNotify (withStatus es statusRunning))
        with (breakStopNotify es). by rewrite Hq.
    + erewrite bind_Ret by (by apply receiveStop_run).
      cbv beta iota.
      erewrite bind_Ret by apply setStatus_run.
      rewrite !addTrace_app.
      exists ([EvStatus statusRunning] ++ t ++ [EvStopNotify breakID]
              ++ [EvStatus statusBreak]).
      split; [|rewrite !actions_app, Ht; reflexivity].
      unfold stoppedAt, isEnabledPhpTemporaryBreakpoint, isEnabledPhpBreakpoint.
      cbn [breakpoints withStatus withBreakStopNotify].
      destruct (breakpoints es !! breakID) as [bp|]; cbn [andb orb]; [|done].
      destruct (enabled bp), (isTemporary (kind bp)); done.
  - by erewrite bind_Fatal by exact Hsend.
Qed.

Lemma sentCommands_actions t : sentCommands (actions t) = sentCommands t.
Proof.
  unfold sentCommands, actions. induction t as [|e t IH]; [done|].
  destruct e; cbn; by rewrite ?IH.
Qed.

(** X12: [continueExecution] touches nothing but the status, the channel and
    the breakpoint it stopped on: gdb, the entry file, the sequence number,
    the reason, the source map, the stack depth and the levels are left as
    they were, no breakpoint is added, and every breakpoint other than the
    one of the stop is kept; the one command sent is [exec-continue], and
    [VerboseFlag] is not changed. *)
Theorem continueExecution_frame (es es' : engineState) (reverse hit : bool)
    (w w' : world) (breakID : string) :
  continueExecution es reverse w = Ret (breakID, hit, es', w') →
  gdbSession es' = gdbSession es
  ∧ entryFilePHP es' = entryFilePHP es
  ∧ lastSequenceNum es' = lastSequenceNum es
  ∧ reason es' = reason es
  ∧ sourceMap es' = sourceMap es
  ∧ maxStackDepth es' = maxStackDepth es
  ∧ levelAr es' = levelAr es
  ∧ breakStopNotify es = breakID :: breakStopNotify es'
  ∧ status es' = statusBreak
  ∧ breakpoints es' ⊆ breakpoints es
  ∧ (∀ k, k ≠ breakID → breakpoints es' !! k = breakpoints es !! k)
  ∧ sentCommands (trace w')
    = sentCommands (trace w) ++ [continueCommand reverse]
  ∧ VerboseFlag w' = VerboseFlag w.
Proof.
  intros Hrun. pose proof (continueExecution_eq es reverse w) as H.
  destruct (gdbSession es _ _ _) as [result|err]; [|congruence].
  destruct (breakStopNotify es) as [|b pending] eqn:Hq; [congruence|].
  destruct H as (t & H & Ht). rewrite H in Hrun.
  injection Hrun as <- <- <- <-.
  assert (Hsent : sentCommands (trace (addTrace w t))
                  = sentCommands (trace w) ++ [continueCommand reverse]).
  { cbn [trace addTrace]. rewrite sentCommands_app. f_equal.
    by rewrite <- sentCommands_actions, Ht. }
  unfold stoppedAt.
  destruct (isEnabledPhpTemporaryBreakpoint _ b);
    cbn [gdbSession entryFilePHP lastSequenceNum reason sourceMap maxStackDepth
         levelAr breakStopNotify status breakpoints withStatus withBreakpoints
         withBreakStopNotify];
    repeat (split; [done|]).
  - split; [apply delete_subseteq|]. split; [|done].
    intros k Hk. by rewrite lookup_delete_ne.
  - done.
Qed.

Lemma continueExecution_frame_witness :
  let es' := stoppedAt sessionAtT1 "t1" ["t1"] in
  breakStopNotify sessionAtT1 = "t1" :: breakStopNotify es'
  ∧ breakpoints es' ⊆ breakpoints sessionAtT1
  ∧ (∀ k, k ≠ "t1" → breakpoints es' !! k = breakpoints sessionAtT1 !! k).
Proof.
  pose proof (continueExecution_frame sessionAtT1
                (stoppedAt sessionAtT1 "t1" ["t1"]) true true quietWorld
                {| VerboseFlag := false;
                   trace := [EvStatus statusRunning;
                             EvGdbSend "exec-continue" ["--reverse"];
                             EvStopNotify "t1"; EvStatus statusBreak] |}
                "t1" eq_refl) as H.
  cbv zeta. tauto.
Defined.

(** X13: without a stop notification to come [continueExecution] does not
    return: gdb has the command, and the call waits on the channel. *)
Theorem continueExecution_waits (es : engineState) (reverse : bool)
    (w : world) (result : gmap string value) :
  breakStopNotify es = [] →
  gdbSession es (sentCommands (trace w)) "exec-continue"
    (if reverse then ["--reverse"] else []) = inl result →
  continueExecution es reverse w = Blocked.
Proof.
  intros Hq Hg. pose proof (continueExecution_eq es reverse w) as H.
  by rewrite Hg, Hq in H.
Qed.

Lemma continueExecution_waits_witness :
  continueExecution (withBreakStopNotify sessionAtT1 []) false verboseWorld
  = Blocked.
Proof.
  by apply (continueExecution_waits (withBreakStopNotify sessionAtT1 []) false
              verboseWorld {[ "class" := VString "running" ]}).
Defined.

(** ** Two calls of [continueExecution] *)

(** X14: the stop notifications are taken in the order they come, one by each
    call: of two calls in a row, the first returns the first id and the
    second the second, the channel is left with what came after them, and gdb
    has got the two commands in that order. *)
Theorem continueExecution_twice (es : engineState) (r1 r2 : bool) (w : world)
    (id1 id2 : string) (pending : list string)
    (result1 result2 : gmap string value) :
  breakStopNotify es = id1 :: id2 :: pending →
  gdbSession es (sentCommands (trace w)) "exec-continue"
    (if r1 then ["--reverse"] else []) = inl result1 →
  gdbSession es (sentCommands (trace w) ++ [continueCommand r1])
    "exec-continue" (if r2 then ["--reverse"] else []) = inl result2 →
  ∃ hit1 es1 w1 hit2 es2 w2,
    continueExecution es r1 w = Ret (id1, hit1, es1, w1)
    ∧ continueExecution es1 r2 w1 = Ret (id2, hit2, es2, w2)
    ∧ breakStopNotify es2 = pending
    ∧ sentCommands (trace w2)
      = sentCommands (trace w) ++ [continueCommand r1; continueCommand r2].
Proof.
  intros Hq Hg1 Hg2.
  pose proof (continueExecution_eq es r1 w) as H1.
  rewrite Hg1, Hq in H1. destruct H1 as (t1 & H1 & Ht1).
  set (es1 := stoppedAt es id1 (id2 :: pending)) in *.
  assert (Hs1 : sentCommands (trace (addTrace w t1))
                = sentCommands (trace w) ++ [continueCommand r1]).
  { cbn [trace addTrace]. rewrite sentCommands_app. f_equal.
    by rewrite <- sentCommands_actions, Ht1. }
  assert (Hes1 : gdbSession es1 = gdbSession es
                 ∧ breakStopNotify es1 = id2 :: pending).
  { unfold es1, stoppedAt. by destruct (isEnabledPhpTemporaryBreakpoint _ _). }
  destruct Hes1 as [Hgdb Hq1].
  pose proof (continueExecution_eq es1 r2 (addTrace w t1)) as H2.
  rewrite Hgdb, Hs1, Hg2, Hq1 in H2. destruct H2 as (t2 & H2 & Ht2).
  eexists _, es1, _, _, _, _. split; [exact H1|]. split; [exact H2|]. split.
  - unfold stoppedAt.
    destruct (isEnabledPhpTemporaryBreakpoint _ id2); reflexivity.
  - cbn [trace addTrace]. rewrite !sentCommands_app, <- app_assoc. f_equal.
    rewrite <- (sentCommands_actions t1), <- (sentCommands_actions t2).
    by rewrite Ht1, Ht2.
Qed.

Lemma continueExecution_twice_witness :
  ∃ hit1 es1 w1 hit2 es2 w2,
    continueExecution sessionAtT1 false quietWorld = Ret ("t1", hit1, es1, w1)
    ∧ continueExecution es1 true w1 = Ret ("t1", hit2, es2, w2)
    ∧ breakStopNotify es2 = []
    ∧ sentCommands (trace w2)
      = sentCommands (trace quietWorld)
        ++ [continueCommand false; continueCommand true].
Proof.
  by apply (continueExecution_twice sessionAtT1 false true quietWorld "t1" "t1"
              [] {[ "class" := VString "running" ]}
              {[ "class" := VString "running" ]}).
Defined.

(** ** Verbosity changes nothing but what is printed *)

Section silence.
Context {A B : Type}.

Lemma silent_ret (a : A) : silent (mret a).
Proof. intros w1 w2 Hw. by split. Qed.

Lemma silent_lift (o : outcome A) : silent (lift o).
Proof. intros w1 w2 Hw. destruct o; cbn; by try split. Qed.

Lemma silent_bind (m : M A) (f : A → M B) :
  silent m → (∀ a, silent (f a)) → silent (m ≫= f).
Proof.
  intros Hm Hf w1 w2 Hw. specialize (Hm w1 w2 Hw).
  unfold mbind, M_bind.
  destruct (m w1) as [[a1 w1']| | |], (m w2) as [[a2 w2']| | |]; try done.
  destruct Hm as [-> Hw']. by apply Hf.
Qed.
End silence.

Lemma silent_emit (e : event) : silent (emit e).
Proof.
  intros w1 w2 Hw. split; [done|]. cbn [trace addTrace].
  by rewrite !actions_app, Hw.
Qed.

Lemma silent_Verbosef (text : string) : silent (Verbosef text).
Proof.
  intros w1 w2 Hw. unfold Verbosef, mbind, M_bind, getVerboseFlag.
  destruct (VerboseFlag w1), (VerboseFlag w2); cbn; (split; [done|]);
    rewrite ?actions_app, Hw; cbn; by rewrite ?app_nil_r.
Qed.

Lemma silent_sendGdbCommand gdb c a : silent (sendGdbCommand gdb c a).
Proof.
  intros w1 w2 Hw.
  pose proof (sendGdbCommand_run gdb c a w1) as H1.
  pose proof (sendGdbCommand_run gdb c a w2) as H2.
  rewrite <- (sentCommands_actions (trace w1)), Hw, sentCommands_actions in H1.
  destruct (gdb _ c a) as [result|err].
  - destruct H1 as (t1 & -> & Ht1), H2 as (t2 & -> & Ht2).
    split; [done|]. cbn [trace addTrace].
    by rewrite !actions_app, Hw, Ht1, Ht2.
  - by rewrite H1, H2.
Qed.

Ltac silent_step :=
  first
    [ apply silent_ret
    | apply silent_lift
    | apply silent_emit
    | apply silent_Verbosef
    | apply silent_sendGdbCommand
    | apply silent_bind; [|intros ?]
    | lazymatch goal with
      | |- silent (if ?c then _ else _) => destruct c
      | |- silent (match ?x with _ => _ end) => destruct x
      | |- silent (let '(_, _) := ?x in _) => destruct x
      end ].

Lemma silent_xGdbCmdValue gdb e : silent (xGdbCmdValue gdb e).
Proof. unfold xGdbCmdValue. repeat silent_step. Qed.

Lemma silent_continueExecution es r : silent (continueExecution es r).
Proof. unfold continueExecution, setStatus, receiveStop. repeat silent_step. Qed.

(** X17: neither [VerboseFlag] nor the lines printed so far have a part in what
    the functions of the bridge return and do: from two worlds with the same
    actions behind them, each of them ends in the same way, with the same
    value and the same actions. *)
Theorem verbosity_is_silent :
  (∀ gdb c a, silent (sendGdbCommand gdb c a))
  ∧ (∀ gdb e, silent (xGdbCmdValue gdb e))
  ∧ (∀ gdb e, silent (xSlashSgdb gdb e))
  ∧ (∀ gdb e, silent (xSlashDgdb gdb e))
  ∧ (∀ es r, silent (continueExecution es r))
  ∧ (∀ line r, silent (parseCommand line r)).
Proof.
  split; [apply silent_sendGdbCommand|]. split; [apply silent_xGdbCmdValue|].
  split; [|split; [|split]].
  - intros gdb e. unfold xSlashSgdb.
    apply silent_bind; [apply silent_xGdbCmdValue|intros ?].
    repeat silent_step.
  - intros gdb e. unfold xSlashDgdb.
    apply silent_bind; [apply silent_xGdbCmdValue|intros ?].
    repeat silent_step.
  - apply silent_continueExecution.
  - intros line r. unfold parseCommand. cbv zeta. repeat silent_step.
Qed.

Lemma verbosity_is_silent_witness :
  sameOutcome (continueExecution sessionAtT1 true quietWorld)
    (continueExecution sessionAtT1 true verboseWorld).
Proof.
  by apply (proj1 (proj2 (proj2 (proj2 (proj2 verbosity_is_silent))))
              sessionAtT1 true quietWorld verboseWorld).
Defined.

(** ** The noisy wrappers *)

Lemma sendGdbCommandNoisy_eq (gdbSession : Gdb) (command : string)
    (arguments : list string) (w : world) :
  sendGdbCommandNoisy gdbSession command arguments w
  = match gdbSession (sentCommands (trace w)) command arguments with
    | inr err => Fatal err
    | inl result =>
        Ret (result,
             addTrace w
               [EvPrint (Green ("dontbug -> gdb: " +:+ command +:+ " "
                                +:+ Strings.Join arguments " "));
                EvGdbSend command arguments;
                EvPrint (Cyan result
                           (if decide (300 < size result) then "..."
                            else EmptyString))])
    end.
Proof.
  unfold sendGdbCommandNoisy.
  erewrite bind_Ret by reflexivity.
  erewrite bind_Ret by reflexivity.
  set (w1 := {| VerboseFlag := true; trace := trace w |}).
  unfold sendGdbCommand.
  assert (Hrun : ∀ k : gmap string value → M (gmap string value),
            (sendGdbCommand gdbSession command arguments ≫= k) w1
            = match gdbSession (sentCommands (trace w)) command arguments with
              | inr err => Fatal err
              | inl result =>
                  k result
                    (addTrace w1
                       [EvPrint (Green ("dontbug -> gdb: " +:+ command +:+ " "
                                        +:+ Strings.Join arguments " "));
                        EvGdbSend command arguments;
                        EvPrint (Cyan result
                                   (if decide (300 < size result) then "..."
                                    else EmptyString))])
              end).
  { intros k. unfold sendGdbCommand.
    assert (Hs : sendGdbCommand gdbSession command arguments w1
                 = match gdbSession (sentCommands (trace w)) command arguments
                   with
                   | inr err => Fatal err
                   | inl result =>
                       Ret (result,
                            addTrace w1
                              [EvPrint (Green ("dontbug -> gdb: " +:+ command
                                               +:+ " "
                                               +:+ Strings.Join arguments " "));
                               EvGdbSend command arguments;
                               EvPrint (Cyan result
                                          (if decide (300 < size result)
                                           then "..." else EmptyString))])
                   end).
    { unfold sendGdbCommand.
      erewrite bind_Ret by reflexivity.
      erewrite bind_Ret by apply emit_run.
      erewrite bind_Ret by reflexivity.
      erewrite bind_Ret by apply emit_run.
      cbn [trace addTrace w1]. rewrite sentCommands_app.
      cbn [sentCommands omap list_omap]. rewrite app_nil_r.
      destruct (gdbSession _ command arguments) as [result|err];
        cbn [sendResult]; [|reflexivity].
      erewrite bind_Ret by reflexivity.
      erewrite bind_Ret by reflexivity.
      erewrite bind_Ret by apply emit_run.
      by rewrite !addTrace_app. }
    fold (sendGdbCommand gdbSession command arguments).
    destruct (gdbSession _ command arguments) as [result|err].
    - by erewrite bind_Ret by exact Hs.
    - by erewrite bind_Fatal by exact Hs. }
  fold (sendGdbCommand gdbSession command arguments). rewrite Hrun.
  destruct (gdbSession _ command arguments) as [result|err]; [|done].
  erewrite bind_Ret by reflexivity. cbn. by destruct w.
Qed.

(** X1: [sendGdbCommandNoisy] prints the command and gdb's answer whatever
    [VerboseFlag] is, and leaves the flag as it found it; when the transport
    fails the process ends. *)
Theorem sendGdbCommandNoisy_prints (gdbSession : Gdb) (command : string)
    (arguments : list string) (w : world) :
  sendGdbCommandNoisy gdbSession command arguments w
  = match gdbSession (sentCommands (trace w)) command arguments with
    | inr err => Fatal err
    | inl result =>
        Ret (result,
             addTrace w
               [EvPrint (Green ("dontbug -> gdb: " +:+ command +:+ " "
                                +:+ Strings.Join arguments " "));
                EvGdbSend command arguments;
                EvPrint (Cyan result
                           (if decide (300 < size result) then "..."
                            else EmptyString))])
    end.
Proof. apply sendGdbCommandNoisy_eq. Qed.

(** X16: the wrappers change what is printed only: [sendGdbCommandNoisy] ends
    as [sendGdbCommand] does, and [makeNoisy f] as a silent handler [f]
    does, with the same value and the same actions, and both leave
    [VerboseFlag] as they found it. *)
Theorem noisy_wrappers_only_print
    (f : engineState → dbgpCmd → M (string * engineState))
    (es : engineState) (dCmd : dbgpCmd) (gdbSession : Gdb) (command : string)
    (arguments : list string) (w : world) :
  silent (f es dCmd) →
  sameOutcome (makeNoisy f es dCmd w) (f es dCmd w)
  ∧ (∀ r w', makeNoisy f es dCmd w = Ret (r, w') →
             VerboseFlag w' = VerboseFlag w)
  ∧ sameOutcome (sendGdbCommandNoisy gdbSession command arguments w)
      (sendGdbCommand gdbSession command arguments w)
  ∧ (∀ r w', sendGdbCommandNoisy gdbSession command arguments w = Ret (r, w') →
             VerboseFlag w' = VerboseFlag w).
Proof.
  intros Hf.
  assert (Hwrap : ∀ (m : M (string * engineState)),
            silent m →
            let noisy : M (string * engineState) :=
              originalNoisy ← getVerboseFlag;
              _ ← setVerboseFlag true;
              result ← m;
              _ ← setVerboseFlag originalNoisy;
              mret result in
            sameOutcome (noisy w) (m w)
            ∧ ∀ r w', noisy w = Ret (r, w') → VerboseFlag w' = VerboseFlag w).
  { intros m Hm noisy. subst noisy.
    erewrite bind_Ret by reflexivity.
    erewrite bind_Ret by reflexivity.
    set (w1 := {| VerboseFlag := true; trace := trace w |}).
    specialize (Hm w1 w eq_refl). unfold mbind at 1 3. unfold M_bind.
    destruct (m w1) as [[a1 w1']| | |], (m w) as [[a2 w2']| | |]; try done.
    destruct Hm as [-> Hw']. split; [by split|].
    intros r w' [= <- <-]. done. }
  destruct (Hwrap (f es dCmd) Hf) as [H1 H2].
  split; [exact H1|]. split; [exact H2|].
  rewrite sendGdbCommandNoisy_eq.
  pose proof (sendGdbCommand_run gdbSession command arguments w) as Hs.
  destruct (gdbSession _ command arguments) as [result|err].
  - destruct Hs as (t & -> & Ht). split.
    + split; [done|]. cbn [trace addTrace]. rewrite !actions_app, Ht. done.
    + intros r w' [= <- <-]. done.
  - rewrite Hs. done.
Qed.

Lemma noisy_wrappers_only_print_witness :
  let run : engineState → dbgpCmd → M (string * engineState) :=
    λ es dCmd, r ← continueExecution es (reverse dCmd); mret (r.1.1, r.2) in
  let dCmd := {| command := "run"; fullCommand := "run -i 1";
                 options := {[ "i" := "1" ]}; seqNum := 1; reverse := false |} in
  sameOutcome (makeNoisy run sessionAtT1 dCmd quietWorld)
    (run sessionAtT1 dCmd quietWorld).
Proof.
  intros run dCmd.
  refine (proj1 (noisy_wrappers_only_print run sessionAtT1 dCmd gdbRunning
                   "exec-continue" [] quietWorld _)).
  apply silent_bind; [apply silent_continueExecution|intros ?; apply silent_ret].
Defined.

(** ** DBGp packets on a stream *)

Lemma readDbgpPacketFrom_packet (P behind : string) :
  readDbgpPacketFrom (constructDbgpPacket P +:+ behind) = Some (P, behind).
Proof.
  rewrite constructDbgpPacket_eq.
  set (n := Z.of_nat (len headerXML + len P)).
  destruct (Itoa_digits n ltac:(lia)) as (Hd & Hne & Hp).
  set (rest := headerXML +:+ P +:+ String nulByte behind).
  assert (Heq : (Itoa n +:+ String nulByte (headerXML +:+ P +:+ str1 nulByte))
                +:+ behind
                = Itoa n +:+ String nulByte rest).
  { unfold rest. rewrite !app_assoc_s, app_cons_s. do 2 f_equal.
    by rewrite !app_assoc_s. }
  rewrite Heq.
  assert (Hsplit : splitAtNul (Itoa n +:+ String nulByte rest)
                   = Some (Itoa n, rest)).
  { apply splitAtNul_app. eapply allBytes_impl; [apply digit_not_nul|done]. }
  assert (Hlen : declaredLength (Itoa n +:+ String nulByte rest) = Some n).
  { unfold declaredLength. rewrite Hsplit.
    destruct (Itoa n) as [|b p]; [done|exact Hp]. }
  unfold readDbgpPacketFrom. rewrite Hsplit, Hlen.
  assert (Hn : Z.to_nat n = len (headerXML +:+ P))
    by (rewrite len_app; unfold n; lia).
  assert (Hrest : rest = (headerXML +:+ P) +:+ String nulByte behind)
    by (unfold rest; by rewrite app_assoc_s).
  rewrite decide_True
    by (rewrite Hrest, len_app, len_cons, <- Hn; lia).
  cbv zeta. rewrite Hn, Hrest, stake_app, sdrop_app.
  rewrite decide_True by done. rewrite prefix_app. by rewrite sdrop_app.
Qed.

Lemma constructDbgpPacket_nonempty (P : string) :
  constructDbgpPacket P ≠ EmptyString.
Proof.
  rewrite constructDbgpPacket_eq. apply nonempty_app_r. done.
Qed.

(** X15: the packets are self-delimiting.  Two streams that start with a
    packet each are the same only when the payloads are and what follows the
    packets is; a packet in front of whatever bytes is read back as its
    payload and those bytes, also when the payload holds zero bytes; and the
    stream of the packets of a list of payloads is read back as that list. *)
Theorem constructDbgpPacket_stream (payloads : list string) :
  (∀ P Q behind behind',
     constructDbgpPacket P +:+ behind = constructDbgpPacket Q +:+ behind' →
     P = Q ∧ behind = behind')
  ∧ (∀ P behind,
       readDbgpPacketFrom (constructDbgpPacket P +:+ behind)
       = Some (P, behind))
  ∧ readDbgpPackets (length payloads) (dbgpStream payloads) = Some payloads.
Proof.
  split.
  { intros P Q behind behind' Heq.
    apply (f_equal readDbgpPacketFrom) in Heq.
    rewrite !readDbgpPacketFrom_packet in Heq. by injection Heq as -> ->. }
  split; [apply readDbgpPacketFrom_packet|].
  induction payloads as [|P payloads IH]; [done|].
  cbn [length dbgpStream foldr]. fold (dbgpStream payloads).
  destruct (constructDbgpPacket P +:+ dbgpStream payloads) as [|b s] eqn:Hs.
  { exfalso. eapply nonempty_app_l; [apply (constructDbgpPacket_nonempty P)|].
    exact Hs. }
  cbn [readDbgpPackets]. rewrite <- Hs, readDbgpPacketFrom_packet, IH. done.
Qed.

Lemma constructDbgpPacket_stream_witness :
  readDbgpPackets 2 (dbgpStream ["<init/>"; str1 nulByte])
  = Some ["<init/>"; str1 nulByte].
Proof.
  exact (proj2 (proj2 (constructDbgpPacket_stream ["<init/>"; str1 nulByte]))).
Defined.

(** ** Splitting at a byte *)

Import StringsSplit.

Lemma countByte_app b (s t : string) :
  countByte b (s +:+ t) = countByte b s + countByte b t.
Proof.
  induction s as [|a s IH]; [done|]. rewrite app_cons_s. cbn [countByte].
  rewrite IH. lia.
Qed.

Lemma countByte_str1 b : countByte b (str1 b) = 1.
Proof. unfold str1. cbn [countByte]. by rewrite decide_True. Qed.

Lemma countByte_le b (s : string) : countByte b s ≤ len s.
Proof.
  induction s as [|a s IH]; [done|]. cbn [countByte]. rewrite len_cons.
  case_decide; lia.
Qed.

Lemma countByte_split b (s : string) :
  0 < countByte b s →
  ∃ p rest, s = p +:+ String b rest ∧ countByte b p = 0.
Proof.
  induction s as [|a s IH]; [cbn; lia|]. cbn [countByte].
  destruct (decide (a = b)) as [->|Hne].
  - intros _. by exists EmptyString, s.
  - intros Hpos. destruct (IH ltac:(lia)) as (p & rest & -> & Hp).
    exists (String a p), rest. split; [done|]. cbn [countByte].
    by rewrite decide_False.
Qed.

Lemma Index_none b (s : string) :
  countByte b s = 0 → Strings.Index s (str1 b) = (-1)%Z.
Proof.
  intros H. destruct (index_count b s 0) as [H0 _]. by destruct (H0 H).
Qed.

Lemma Index_first b (p rest : string) :
  countByte b p = 0 →
  Strings.Index (p +:+ String b rest) (str1 b) = Z.of_nat (len p).
Proof. intros H. unfold Strings.Index. by rewrite indexFrom_first. Qed.

Lemma countLoop_byte b fuel :
  ∀ s n, len s < fuel → countLoop fuel s (str1 b) n = n + countByte b s.
Proof.
  induction fuel as [|fuel IH]; intros s n Hf; [lia|].
  cbn [countLoop]. destruct (decide (countByte b s = 0)) as [Hz|Hnz].
  - rewrite Index_none, decide_True by done. lia.
  - destruct (countByte_split b s ltac:(lia)) as (p & rest & -> & Hp).
    rewrite Index_first by done. rewrite decide_False by lia.
    rewrite Nat2Z.id. change (len (str1 b)) with 1.
    replace (p +:+ String b rest) with ((p +:+ str1 b) +:+ rest)
      by (by rewrite app_assoc_s).
    replace (len p + 1) with (len (p +:+ str1 b))
      by (rewrite len_app; done).
    rewrite sdrop_app, IH.
    + rewrite !countByte_app, Hp, countByte_str1. lia.
    + rewrite len_app, len_cons in Hf. lia.
Qed.

Lemma Count_byte b (s : string) : Count s (str1 b) = countByte b s.
Proof.
  unfold Count. rewrite decide_False by done.
  by rewrite countLoop_byte by lia.
Qed.

Lemma Split_byte b (s : string) :
  Split s (str1 b) = genSplitLoop (countByte b s) s (str1 b).
Proof.
  unfold Split. rewrite decide_False by done. cbv zeta.
  rewrite Count_byte. pose proof (countByte_le b s).
  rewrite decide_False by lia. f_equal. lia.
Qed.

(** Without the separator in it a string is not split. *)
Lemma Split_none b (s : string) : countByte b s = 0 → Split s (str1 b) = [s].
Proof. intros H. by rewrite Split_byte, H. Qed.

(** What is in front of the first separator is split off. *)
Lemma Split_cons b (p rest : string) :
  countByte b p = 0 →
  Split (p +:+ String b rest) (str1 b) = p :: Split rest (str1 b).
Proof.
  intros Hp. rewrite !Split_byte, countByte_app, Hp. cbn [countByte].
  rewrite decide_True by done. cbn [Nat.add genSplitLoop].
  rewrite Index_first by done. rewrite decide_False by lia.
  rewrite Nat2Z.id, stake_app. change (len (str1 b)) with 1.
  replace (p +:+ String b rest) with ((p +:+ str1 b) +:+ rest)
    by (by rewrite app_assoc_s).
  replace (len p + 1) with (len (p +:+ str1 b)) by (rewrite len_app; done).
  by rewrite sdrop_app.
Qed.

Lemma Split_not_nil b (s : string) : Split s (str1 b) ≠ [].
Proof.
  rewrite Split_byte. by destruct (countByte b s); cbn; [|case_decide].
Qed.

(** The first line of an output. *)
Lemma Split_first_line (line after : string) :
  countByte newlineByte line = 0 →
  after = EmptyString ∨ (∃ r, after = String newlineByte r) →
  ∃ lines, Split (line +:+ after) (str1 newlineByte) = line :: lines.
Proof.
  intros Hl [->|[r ->]].
  - rewrite app_nil_r_s, Split_none by done. by eexists.
  - rewrite Split_cons by done. by eexists.
Qed.

(** The last word of a line. *)
Lemma Split_last_word (pre word : string) :
  pre = EmptyString ∨ endsWith spaceByte pre = true →
  countByte spaceByte word = 0 →
  last (Split (pre +:+ word) (str1 spaceByte)) = Some word.
Proof.
  intros Hpre Hword.
  induction pre as [pre IH] using (induction_ltof1 _ len). unfold ltof in IH.
  destruct (decide (countByte spaceByte pre = 0)) as [Hz|Hnz].
  - destruct Hpre as [->|Hend].
    + rewrite app_nil_l_s, Split_none by done. done.
    + exfalso. apply endsWith_snoc in Hend as [t ->].
      rewrite countByte_app, countByte_str1 in Hz. lia.
  - destruct (countByte_split spaceByte pre ltac:(lia)) as (p & rest & -> & Hp).
    rewrite app_assoc_s, app_cons_s, Split_cons by done.
    assert (Hlast : last (Split (rest +:+ word) (str1 spaceByte)) = Some word).
    { apply IH.
      - rewrite len_app, len_cons. lia.
      - destruct Hpre as [Hpre|Hend].
        { exfalso.
          by eapply (nonempty_app_r p (String spaceByte rest)); [|exact Hpre]. }
        destruct rest as [|a rest']; [by left|]. right.
        clear -Hend. induction p as [|c p IHp].
        + rewrite app_nil_l_s in Hend. by rewrite endsWith_cons in Hend.
        + rewrite app_cons_s, endsWith_cons in Hend; [by apply IHp|].
          by apply nonempty_app_r. }
    destruct (Split (rest +:+ word) (str1 spaceByte)) as [|x xs] eqn:Hs;
      [done|].
    by rewrite last_cons, Hlast.
Qed.

Lemma elemAt_last (a : list string) x :
  last a = Some x → elemAt a (length a - 1) = Ret x.
Proof.
  intros H. unfold elemAt. rewrite last_lookup in H.
  replace (length a - 1) with (pred (length a)) by lia. by rewrite H.
Qed.

(** ** The regular expression of the PHP version *)

Import VersionRegexp.

Lemma spanDigits_app (d r : string) :
  allBytes isDigitByte d = true →
  (r = EmptyString ∨ ∃ c r', r = String c r' ∧ isDigitByte c = false) →
  spanDigits (d +:+ r) = (d, r).
Proof.
  intros Hd Hr. induction d as [|b d IH].
  - rewrite app_nil_l_s. destruct Hr as [->|(c & r' & -> & Hc)]; [done|].
    cbn. by rewrite Hc.
  - cbn [allBytes] in Hd. apply andb_true_iff in Hd as [Hb Hd].
    rewrite app_cons_s. cbn [spanDigits]. by rewrite Hb, IH.
Qed.

Lemma digitsDot_app (d r : string) :
  allBytes isDigitByte d = true → d ≠ EmptyString →
  digitsDot (d +:+ String dotByte r) = Some (d, r).
Proof.
  intros Hd Hne. unfold digitsDot.
  rewrite spanDigits_app; [|done|right; by eexists _, _].
  destruct d as [|b d]; [done|]. by rewrite decide_True.
Qed.

(** The match is the three numbers with their dots; what follows the
    third number, no digit, is left out. *)
Lemma FindString_version (d1 d2 d3 suffix : string) :
  allBytes isDigitByte d1 = true → d1 ≠ EmptyString →
  allBytes isDigitByte d2 = true → d2 ≠ EmptyString →
  allBytes isDigitByte d3 = true → d3 ≠ EmptyString →
  (suffix = EmptyString
   ∨ ∃ c r, suffix = String c r ∧ isDigitByte c = false) →
  FindString (d1 +:+ String dotByte (d2 +:+ String dotByte (d3 +:+ suffix)))
  = d1 +:+ String dotByte (d2 +:+ String dotByte d3).
Proof.
  intros H1 N1 H2 N2 H3 N3 Hs. unfold FindString.
  rewrite !digitsDot_app, spanDigits_app by done.
  destruct d3 as [|b d3]; [done|]. done.
Qed.

(** ** [TrimSpace] on graphic bytes *)

Lemma IsSpace_graphic b : isGraphic b = true → Unicode.IsSpace (byteZ b) = false.
Proof.
  intros Hb%bool_decide_eq_true. unfold Unicode.IsSpace, Unicode.MaxLatin1.
  rewrite Z.mod_small by lia.
  destruct (Z.leb_spec (byteZ b) 255); [|lia].
  repeat match goal with
         | |- context [(?x =? ?y)%Z] => destruct (Z.eqb_spec x y); [lia|]
         end.
  done.
Qed.

Lemma fieldIn_graphic (t : string) :
  allBytes isGraphic t = true → fieldIn Unicode.IsSpace t EmptyString.
Proof.
  induction t as [|a t IH]; [constructor|]. cbn [allBytes].
  intros [Ha Ht]%andb_true_iff.
  change (String a t) with (str1 a +:+ t).
  apply (fieldIn_cons _ (str1 a) t EmptyString (byteZ a));
    [done| |by apply IsSpace_graphic|by apply IH].
  apply bool_decide_eq_true in Ha.
  change (str1 a +:+ t +:+ EmptyString) with (String a (t +:+ EmptyString)).
  rewrite Decode_ascii; [by rewrite at_cons_0|done|rewrite at_cons_0; lia].
Qed.

Lemma TrimSpace_graphic (t : string) :
  allBytes isGraphic t = true → Strings.TrimSpace t = t.
Proof.
  intros Ht. destruct (decide (t = EmptyString)) as [->|Hne]; [done|].
  apply TrimFunc_field; [done|done|]. by apply fieldIn_graphic.
Qed.

(** ** The checks of the executables *)

Lemma Verboseln_run text w :
  ∃ t, Verboseln text w = Ret ((), addTrace w t) ∧ actions t = [].
Proof.
  unfold Verboseln. destruct (VerboseFlag w) eqn:Hv.
  - erewrite bind_Ret by (unfold getVerboseFlag; rewrite Hv; reflexivity).
    by eexists.
  - erewrite bind_Ret by (unfold getVerboseFlag; rewrite Hv; reflexivity).
    exists []. by rewrite addTrace_nil.
Qed.

Lemma Verbosef_run text w :
  ∃ t, Verbosef text w = Ret ((), addTrace w t) ∧ actions t = [].
Proof.
  unfold Verbosef. destruct (VerboseFlag w) eqn:Hv.
  - erewrite bind_Ret by (unfold getVerboseFlag; rewrite Hv; reflexivity).
    by eexists.
  - erewrite bind_Ret by (unfold getVerboseFlag; rewrite Hv; reflexivity).
    exists []. by rewrite addTrace_nil.
Qed.

Section executables_run.
Context (host : Host) (semver : Semver).

(** [getPathAndVersionLineOrFatal] ends the process when the program is
    not found or cannot be run; otherwise it returns the path and the first
    line of what the program prints, and it never panics. *)
Lemma getPathAndVersionLineOrFatal_run (file : string) (w : world) :
  match LookPath host file with
  | inr err =>
      getPathAndVersionLineOrFatal host file w
      = Fatal (errorString ("Could not find " +:+ file +:+ ". " +:+ err))
  | inl path =>
      match Output host path ["--version"] with
      | inr err =>
          getPathAndVersionLineOrFatal host file w = Fatal (errorString err)
      | inl out =>
          ∃ line lines t,
            Split out (str1 newlineByte) = line :: lines
            ∧ getPathAndVersionLineOrFatal host file w
              = Ret ((path, line), addTrace w t)
            ∧ actions t = []
      end
  end.
Proof.
  unfold getPathAndVersionLineOrFatal, findExec.
  destruct (LookPath host file) as [path|err].
  - erewrite bind_Ret.
    2: { erewrite bind_Ret by apply emit_run. reflexivity. }
    erewrite bind_Ret by reflexivity. cbn [fst].
    destruct (Output host path ["--version"]) as [out|err].
    + erewrite bind_Ret by reflexivity.
      destruct (Split out (str1 newlineByte)) as [|line lines] eqn:Hs.
      { by apply Split_not_nil in Hs. }
      erewrite bind_Ret by reflexivity.
      by eexists line, lines, _.
    + by erewrite bind_Fatal by reflexivity.
  - erewrite bind_Ret by reflexivity.
    by erewrite bind_Fatal by reflexivity.
Qed.

Lemma check_run (version constraint unsupported path : string) (w : world) :
  checked semver version constraint unsupported path w
    ((ver ← orFatal (NewVersion semver version);
      constraint ← orFatal (NewConstraint semver constraint);
      _ ← (if negb (Check semver constraint ver)
           then logFatalf unsupported else mret ());
      mret path) w).
Proof.
  unfold checked.
  destruct (NewVersion semver version) as [ver|err].
  - erewrite bind_Ret by reflexivity.
    destruct (NewConstraint semver constraint) as [c|err].
    + erewrite bind_Ret by reflexivity.
      destruct (Check semver c ver); cbn [negb].
      * by erewrite bind_Ret by reflexivity.
      * by erewrite bind_Fatal by reflexivity.
    + by erewrite bind_Fatal by reflexivity.
  - by erewrite bind_Fatal by reflexivity.
Qed.

Lemma CheckGdbExecutable_run (file : string) (w : world) :
  match LookPath host file with
  | inr err =>
      CheckGdbExecutable host semver file w
      = Fatal (errorString ("Could not find " +:+ file +:+ ". " +:+ err))
  | inl path =>
      match Output host path ["--version"] with
      | inr err =>
          CheckGdbExecutable host semver file w = Fatal (errorString err)
      | inl out =>
          ∃ line lines word t,
            Split out (str1 newlineByte) = line :: lines
            ∧ last (Split line (str1 spaceByte)) = Some word
            ∧ actions t = []
            ∧ checked semver word ">= 7.11.1"
                ("Only gdb >= 7.11.1 supported. Version " +:+ word
                 +:+ " was given")
                path (addTrace w t)
                (CheckGdbExecutable host semver file w)
      end
  end.
Proof.
  unfold CheckGdbExecutable.
  destruct (Verboseln_run "dontbug: Checking gdb requirements" w)
    as (t0 & Hv & Ht0).
  erewrite bind_Ret by exact Hv.
  pose proof (getPathAndVersionLineOrFatal_run file (addTrace w t0)) as Hg.
  destruct (LookPath host file) as [path|err].
  2: { by erewrite bind_Fatal by exact Hg. }
  destruct (Output host path ["--version"]) as [out|err].
  2: { by erewrite bind_Fatal by exact Hg. }
  destruct Hg as (line & lines & t1 & Hs & Hg & Ht1).
  erewrite bind_Ret by exact Hg. cbv beta iota zeta.
  change (str1 spaceByte) with " ".
  destruct (last (Split line " ")) as [word|] eqn:Hl.
  2: { apply last_None in Hl. by apply (Split_not_nil spaceByte) in Hl. }
  erewrite bind_Ret by (unfold lift; rewrite (elemAt_last _ _ Hl); reflexivity).
  exists line, lines, word, (t0 ++ t1).
  split; [done|]. split; [done|].
  split; [by rewrite actions_app, Ht0, Ht1|].
  rewrite <- addTrace_app. apply check_run.
Qed.

Lemma CheckRRExecutable_run (file : string) (w : world) :
  match LookPath host file with
  | inr err =>
      CheckRRExecutable host semver file w
      = Fatal (errorString ("Could not find " +:+ file +:+ ". " +:+ err))
  | inl path =>
      match Output host path ["--version"] with
      | inr err =>
          CheckRRExecutable host semver file w = Fatal (errorString err)
      | inl out =>
          ∃ line lines word t,
            Split out (str1 newlineByte) = line :: lines
            ∧ last (Split line (str1 spaceByte)) = Some word
            ∧ actions t = []
            ∧ checked semver word ">= 4.3.0"
                ("Only rr >= 4.3.0 supported. Version " +:+ word
                 +:+ " was given")
                path (addTrace w t)
                (CheckRRExecutable host semver file w)
      end
  end.
Proof.
  unfold CheckRRExecutable.
  destruct (Verboseln_run "dontbug: Checking rr requirements" w)
    as (t0 & Hv & Ht0).
  erewrite bind_Ret by exact Hv.
  pose proof (getPathAndVersionLineOrFatal_run file (addTrace w t0)) as Hg.
  destruct (LookPath host file) as [path|err].
  2: { by erewrite bind_Fatal by exact Hg. }
  destruct (Output host path ["--version"]) as [out|err].
  2: { by erewrite bind_Fatal by exact Hg. }
  destruct Hg as (line & lines & t1 & Hs & Hg & Ht1).
  erewrite bind_Ret by exact Hg. cbv beta iota zeta.
  change (str1 spaceByte) with " ".
  destruct (last (Split line " ")) as [word|] eqn:Hl.
  2: { apply last_None in Hl. by apply (Split_not_nil spaceByte) in Hl. }
  erewrite bind_Ret by (unfold lift; rewrite (elemAt_last _ _ Hl); reflexivity).
  exists line, lines, word, (t0 ++ t1).
  split; [done|]. split; [done|].
  split; [by rewrite actions_app, Ht0, Ht1|].
  rewrite <- addTrace_app. apply check_run.
Qed.

End executables_run.

Lemma graphic_no_space (t : string) :
  allBytes isGraphic t = true → countByte spaceByte t = 0.
Proof.
  induction t as [|a t IH]; [done|]. cbn [allBytes countByte].
  intros [Ha Ht]%andb_true_iff. rewrite IH by done.
  rewrite decide_False; [done|]. intros ->. by vm_compute in Ha.
Qed.

Section executables_checked.
Context (host : Host) (semver : Semver).

(** X22: [CheckRRExecutable] and [CheckGdbExecutable] never panic and never
    wait: they end the process, or return the path that [LookPath] found,
    having sent nothing to gdb and with [VerboseFlag] as it was. *)
Theorem version_checks_return_or_end (file : string) (w : world) :
  match CheckRRExecutable host semver file w with
  | Ret (path, w') =>
      LookPath host file = inl path
      ∧ actions (trace w') = actions (trace w)
      ∧ VerboseFlag w' = VerboseFlag w
  | Fatal _ => True
  | _ => False
  end
  ∧ match CheckGdbExecutable host semver file w with
    | Ret (path, w') =>
        LookPath host file = inl path
        ∧ actions (trace w') = actions (trace w)
        ∧ VerboseFlag w' = VerboseFlag w
    | Fatal _ => True
    | _ => False
    end.
Proof.
  split.
  - pose proof (CheckRRExecutable_run host semver file w) as H.
    destruct (LookPath host file) as [path|err]; [|by rewrite H].
    destruct (Output host path ["--version"]) as [out|err]; [|by rewrite H].
    destruct H as (line & lines & word & t & _ & _ & Ht & H).
    unfold checked in H.
    destruct (NewVersion semver word) as [ver|err]; [|by rewrite H].
    destruct (NewConstraint semver ">= 4.3.0") as [c|err]; [|by rewrite H].
    destruct (Check semver c ver); rewrite H; [|done].
    split; [done|]. split; [|done]. cbn [trace addTrace].
    by rewrite actions_app, Ht, app_nil_r.
  - pose proof (CheckGdbExecutable_run host semver file w) as H.
    destruct (LookPath host file) as [path|err]; [|by rewrite H].
    destruct (Output host path ["--version"]) as [out|err]; [|by rewrite H].
    destruct H as (line & lines & word & t & _ & _ & Ht & H).
    unfold checked in H.
    destruct (NewVersion semver word) as [ver|err]; [|by rewrite H].
    destruct (NewConstraint semver ">= 7.11.1") as [c|err]; [|by rewrite H].
    destruct (Check semver c ver); rewrite H; [|done].
    split; [done|]. split; [|done]. cbn [trace addTrace].
    by rewrite actions_app, Ht, app_nil_r.
Qed.

(** X23: the version that [CheckRRExecutable] and [CheckGdbExecutable] check is
    the last word of the first line that the program prints: what follows
    the last space of the line, or the line when it holds no space. *)
Theorem version_checks_last_word (file path pre word after : string)
    (w : world) :
  LookPath host file = inl path →
  Output host path ["--version"] = inl ((pre +:+ word) +:+ after) →
  countByte newlineByte (pre +:+ word) = 0 →
  after = EmptyString ∨ (∃ r, after = String newlineByte r) →
  pre = EmptyString ∨ endsWith spaceByte pre = true →
  countByte spaceByte word = 0 →
  ∃ t1 t2,
    actions t1 = [] ∧ actions t2 = []
    ∧ checked semver word ">= 4.3.0"
        ("Only rr >= 4.3.0 supported. Version " +:+ word +:+ " was given")
        path (addTrace w t1) (CheckRRExecutable host semver file w)
    ∧ checked semver word ">= 7.11.1"
        ("Only gdb >= 7.11.1 supported. Version " +:+ word +:+ " was given")
        path (addTrace w t2) (CheckGdbExecutable host semver file w).
Proof.
  intros Hp Ho Hline Hafter Hpre Hword.
  destruct (Split_first_line _ _ Hline Hafter) as [lines0 Hs0].
  pose proof (Split_last_word pre word Hpre Hword) as Hl0.
  pose proof (CheckRRExecutable_run host semver file w) as Hrr.
  pose proof (CheckGdbExecutable_run host semver file w) as Hgdb.
  rewrite Hp, Ho in Hrr, Hgdb.
  destruct Hrr as (line & lines & word1 & t1 & Hs1 & Hl1 & Ht1 & Hrr).
  destruct Hgdb as (line' & lines' & word2 & t2 & Hs2 & Hl2 & Ht2 & Hgdb).
  rewrite Hs0 in Hs1, Hs2. injection Hs1 as <- <-. injection Hs2 as <- <-.
  rewrite Hl0 in Hl1, Hl2. injection Hl1 as <-. injection Hl2 as <-.
  by exists t1, t2.
Qed.

(** X19: [checkPhpExecutable] takes the second word of the first line for the
    version: when the line holds no space, it panics with an index out of
    range. *)
Theorem checkPhpExecutable_one_word (file path line after : string)
    (w : world) :
  LookPath host file = inl path →
  Output host path ["--version"] = inl (line +:+ after) →
  countByte newlineByte line = 0 →
  after = EmptyString ∨ (∃ r, after = String newlineByte r) →
  countByte spaceByte line = 0 →
  checkPhpExecutable host semver file w = Panic IndexOutOfRange.
Proof.
  intros Hp Ho Hline Hafter Hword.
  destruct (Split_first_line _ _ Hline Hafter) as [lines0 Hs0].
  unfold checkPhpExecutable.
  destruct (Verboseln_run "dontbug: Checking PHP requirements" w)
    as (t0 & Hv & Ht0).
  erewrite bind_Ret by exact Hv.
  pose proof (getPathAndVersionLineOrFatal_run host file (addTrace w t0)) as Hg.
  rewrite Hp, Ho in Hg. destruct Hg as (line' & lines & t1 & Hs & Hg & Ht1).
  rewrite Hs0 in Hs. injection Hs as <- <-.
  erewrite bind_Ret by exact Hg. cbv beta iota.
  change " " with (str1 spaceByte). rewrite Split_none by done.
  by erewrite bind_Panic by reflexivity.
Qed.

(** X21: the version that [checkPhpExecutable] checks is made of the three
    numbers that the second word of the first line starts with; what follows
    them in the word is left out of the check, and kept in the message. *)
Theorem checkPhpExecutable_version (file path name d1 d2 d3 suffix more after
    : string) (w : world) :
  let token :=
    d1 +:+ String VersionRegexp.dotByte
             (d2 +:+ String VersionRegexp.dotByte (d3 +:+ suffix)) in
  let line := name +:+ String spaceByte (token +:+ more) in
  LookPath host file = inl path →
  Output host path ["--version"] = inl (line +:+ after) →
  countByte newlineByte line = 0 →
  after = EmptyString ∨ (∃ r, after = String newlineByte r) →
  countByte spaceByte name = 0 →
  more = EmptyString ∨ (∃ r, more = String spaceByte r) →
  allBytes isGraphic token = true →
  allBytes isDigitByte d1 = true → d1 ≠ EmptyString →
  allBytes isDigitByte d2 = true → d2 ≠ EmptyString →
  allBytes isDigitByte d3 = true → d3 ≠ EmptyString →
  (suffix = EmptyString
   ∨ ∃ c r, suffix = String c r ∧ isDigitByte c = false) →
  ∃ t,
    actions t = []
    ∧ checked semver
        (d1 +:+ String VersionRegexp.dotByte
                  (d2 +:+ String VersionRegexp.dotByte d3))
        "~7.0"
        ("Only PHP 7.0.x supported. Version " +:+ token +:+ " was given.")
        path (addTrace w t) (checkPhpExecutable host semver file w).
Proof.
  intros token line Hp Ho Hline Hafter Hname Hmore Hg H1 N1 H2 N2 H3 N3 Hsuf.
  destruct (Split_first_line _ _ Hline Hafter) as [lines0 Hs0].
  assert (Htok : ∃ words,
            Split line (str1 spaceByte) = name :: token :: words).
  { unfold line. rewrite Split_cons by done.
    destruct Hmore as [->|[r ->]].
    - rewrite app_nil_r_s, Split_none by (by apply graphic_no_space).
      by eexists.
    - rewrite Split_cons by (by apply graphic_no_space). by eexists. }
  destruct Htok as [words Htok].
  unfold checkPhpExecutable.
  destruct (Verboseln_run "dontbug: Checking PHP requirements" w)
    as (t0 & Hv & Ht0).
  erewrite bind_Ret by exact Hv.
  pose proof (getPathAndVersionLineOrFatal_run host file (addTrace w t0)) as Hr.
  rewrite Hp, Ho in Hr. destruct Hr as (line' & lines & t1 & Hs & Hr & Ht1).
  rewrite Hs0 in Hs. injection Hs as <- <-.
  erewrite bind_Ret by exact Hr. cbv beta iota.
  change " " with (str1 spaceByte). rewrite Htok.
  erewrite bind_Ret by reflexivity. cbv zeta.
  rewrite TrimSpace_graphic by done.
  set (version := d1 +:+ String VersionRegexp.dotByte
                           (d2 +:+ String VersionRegexp.dotByte d3)).
  assert (Hfind : FindString token = version)
    by (unfold token; by apply FindString_version).
  rewrite Hfind.
  destruct (Verbosef_run ("dontbug: PHP version was: " +:+ version
                          +:+ str1 newlineByte)
              (addTrace (addTrace w t0) t1)) as (t2 & Hf & Ht2).
  erewrite bind_Ret by exact Hf.
  rewrite decide_False.
  2: { unfold version. destruct d1; [done|]. done. }
  erewrite bind_Ret by reflexivity.
  exists (t0 ++ t1 ++ t2). split; [by rewrite !actions_app, Ht0, Ht1, Ht2|].
  rewrite <- !addTrace_app. apply check_run.
Qed.

End executables_checked.

Lemma version_checks_last_word_witness :
  ∃ t1 t2,
    actions t1 = [] ∧ actions t2 = []
    ∧ checked semverLax "7.11.1" ">= 4.3.0"
        ("Only rr >= 4.3.0 supported. Version " +:+ "7.11.1" +:+ " was given")
        "/usr/bin/gdb" (addTrace quietWorld t1)
        (CheckRRExecutable (hostPrinting gdbVersionLine) semverLax "gdb"
           quietWorld)
    ∧ checked semverLax "7.11.1" ">= 7.11.1"
        ("Only gdb >= 7.11.1 supported. Version " +:+ "7.11.1" +:+ " was given")
        "/usr/bin/gdb" (addTrace quietWorld t2)
        (CheckGdbExecutable (hostPrinting gdbVersionLine) semverLax "gdb"
           quietWorld).
Proof.
  apply (version_checks_last_word (hostPrinting gdbVersionLine) semverLax
           "gdb" "/usr/bin/gdb" "GNU gdb (Ubuntu 7.11.1-0ubuntu1~16.5) "
           "7.11.1"
           (str1 newlineByte
            +:+ "Copyright (C) 2016 Free Software Foundation, Inc.")
           quietWorld);
    first [reflexivity | right; reflexivity | right; by eexists].
Defined.

Lemma checkPhpExecutable_one_word_witness :
  checkPhpExecutable (hostPrinting "7.0.33") semverLax "php" verboseWorld
  = Panic IndexOutOfRange.
Proof.
  apply (checkPhpExecutable_one_word (hostPrinting "7.0.33") semverLax
           "php" "/usr/bin/php" "7.0.33" EmptyString verboseWorld);
    first [reflexivity | by left].
Defined.

Lemma checkPhpExecutable_version_witness :
  ∃ t,
    actions t = []
    ∧ checked semverLax "7.0.33" "~7.0"
        ("Only PHP 7.0.x supported. Version " +:+ "7.0.33-0ubuntu0.16.04.16"
         +:+ " was given.")
        "/usr/bin/php" (addTrace quietWorld t)
        (checkPhpExecutable (hostPrinting phpVersionLine) semverLax "php"
           quietWorld).
Proof.
  apply (checkPhpExecutable_version (hostPrinting phpVersionLine) semverLax
           "php" "/usr/bin/php" "PHP" "7" "0" "33" "-0ubuntu0.16.04.16"
           " (cli) ( NTS )"
           (str1 newlineByte +:+ "Copyright (c) 1997-2017 The PHP Group")
           quietWorld);
    first [ reflexivity | done | right; by eexists
          | right; eexists _, _; split; reflexivity ].
Defined.

(** The first of the substrings that [Split] makes at the newlines holds no
    newline, and the string starts with it: it is the string, or a newline
    follows it there. *)
Lemma Split_head (b : ascii) (s : string) :
  ∃ line lines,
    Split s (str1 b) = line :: lines
    ∧ countByte b line = 0
    ∧ (s = line ∨ ∃ r, s = line +:+ String b r).
Proof.
  destruct (decide (countByte b s = 0)) as [Hz|Hnz].
  - exists s, []. rewrite Split_none by done. auto.
  - destruct (countByte_split b s ltac:(lia)) as (p & rest & -> & Hp).
    exists p, (Split rest (str1 b)). rewrite Split_cons by done.
    split; [done|]. split; [done|]. right. by exists rest.
Qed.

Section first_line.
Context (host : Host).

(** X18: [getPathAndVersionLineOrFatal] never panics.  It ends the process
    when the program is not on the path or cannot be run; otherwise it
    returns the path that [LookPath] found and the first line of what the
    program printed: a string without newline that the output starts with. *)
Theorem getPathAndVersionLineOrFatal_first_line (file : string) (w : world) :
  match getPathAndVersionLineOrFatal host file w with
  | Ret (path, line, w') =>
      LookPath host file = inl path
      ∧ countByte newlineByte line = 0
      ∧ (∃ out, Output host path ["--version"] = inl out
                ∧ (out = line ∨ ∃ r, out = line +:+ String newlineByte r))
      ∧ actions (trace w') = actions (trace w)
  | Fatal err =>
      (∃ text, LookPath host file = inr text
               ∧ err = errorString ("Could not find " +:+ file +:+ ". "
                                    +:+ text))
      ∨ (∃ path text, LookPath host file = inl path
                      ∧ Output host path ["--version"] = inr text
                      ∧ err = errorString text)
  | _ => False
  end.
Proof.
  pose proof (getPathAndVersionLineOrFatal_run host file w) as H.
  destruct (LookPath host file) as [path|text].
  - destruct (Output host path ["--version"]) as [out|text] eqn:Hout.
    + destruct H as (line & lines & t & Hs & -> & Ht).
      destruct (Split_head newlineByte out) as (line' & lines' & Hs' & Hc & Ho).
      rewrite Hs in Hs'. injection Hs' as <- <-.
      split; [done|]. split; [done|].
      split; [exists out; split; [done|exact Ho]|].
      cbn [trace addTrace]. by rewrite actions_app, Ht, app_nil_r.
    + rewrite H. right. by exists path, text.
  - rewrite H. left. by exists text.
Qed.

End first_line.

Section no_version.
Context (host : Host) (semver : Semver).

(** X20: when the second word of the first line does not start with three
    numbers and the dots between them, [checkPhpExecutable] ends the process
    before a version is parsed. *)
Theorem checkPhpExecutable_no_version (file path name token more after
    : string) (w : world) :
  let line := name +:+ String spaceByte (token +:+ more) in
  LookPath host file = inl path →
  Output host path ["--version"] = inl (line +:+ after) →
  countByte newlineByte line = 0 →
  after = EmptyString ∨ (∃ r, after = String newlineByte r) →
  countByte spaceByte name = 0 →
  more = EmptyString ∨ (∃ r, more = String spaceByte r) →
  allBytes isGraphic token = true →
  VersionRegexp.FindString token = EmptyString →
  checkPhpExecutable host semver file w
  = Fatal (errorString ("Could not find version in version string "
                        +:+ token)).
Proof.
  intros line Hp Ho Hline Hafter Hname Hmore Hg Hfind.
  destruct (Split_first_line _ _ Hline Hafter) as [lines0 Hs0].
  assert (Htok : ∃ words,
            Split line (str1 spaceByte) = name :: token :: words).
  { unfold line. rewrite Split_cons by done.
    destruct Hmore as [->|[r ->]].
    - rewrite app_nil_r_s, Split_none by (by apply graphic_no_space).
      by eexists.
    - rewrite Split_cons by (by apply graphic_no_space). by eexists. }
  destruct Htok as [words Htok].
  unfold checkPhpExecutable.
  destruct (Verboseln_run "dontbug: Checking PHP requirements" w)
    as (t0 & Hv & Ht0).
  erewrite bind_Ret by exact Hv.
  pose proof (getPathAndVersionLineOrFatal_run host file (addTrace w t0)) as Hr.
  rewrite Hp, Ho in Hr. destruct Hr as (line' & lines & t1 & Hs & Hr & Ht1).
  rewrite Hs0 in Hs. injection Hs as <- <-.
  erewrite bind_Ret by exact Hr. cbv beta iota.
  change " " with (str1 spaceByte). rewrite Htok.
  erewrite bind_Ret by reflexivity. cbv zeta.
  rewrite TrimSpace_graphic by done. rewrite Hfind.
  destruct (Verbosef_run ("dontbug: PHP version was: " +:+ EmptyString
                          +:+ str1 newlineByte)
              (addTrace (addTrace w t0) t1)) as (t2 & Hf & Ht2).
  erewrite bind_Ret by exact Hf.
  rewrite decide_True by done.
  by erewrite bind_Fatal by reflexivity.
Qed.

End no_version.

Lemma checkPhpExecutable_no_version_witness :
  checkPhpExecutable (hostPrinting "PHP 7.0-dev (cli)") semverLax "php"
    quietWorld
  = Fatal (errorString ("Could not find version in version string "
                        +:+ "7.0-dev")).
Proof.
  apply (checkPhpExecutable_no_version (hostPrinting "PHP 7.0-dev (cli)")
           semverLax "php" "/usr/bin/php" "PHP" "7.0-dev" " (cli)" EmptyString
           quietWorld);
    first [reflexivity | by left | right; by eexists].
Defined.
